(** * DADI Web: request dispatch and data orchestration

    A shallow embedding of the router ([lib/api]), the page controller
    ([lib/controller]), the datasource parameter resolution
    ([lib/datasource]), the datasource cache gate ([lib/cache/datasource])
    and the event runner ([lib/event]), with the properties the design
    document states about them; then request dispatch in the router, the
    helpers ([lib/help]), the components of the server ([lib/index]), the
    view and static files ([lib/view]) and the initial view data, with
    further properties of the code.

    JavaScript values are an inductive type; objects are association lists
    in insertion order (the order [_.each] and [Object.keys] follow);
    objects that are shared between requests live in an explicit store and
    are addressed by location.  Code that may throw returns [Res]. *)

From Stdlib Require Import ZArith NArith Lia List String Ascii Bool.
From Stdlib Require Import Sorting.Sorted.
From Stdlib Require Import DecimalString.
From stdpp Require Import base list strings gmap.

Local Open Scope string_scope.
Local Open Scope Z_scope.
Local Open Scope list_scope.

(* ===================================================================== *)
(** * JavaScript values *)
(* ===================================================================== *)

Module Js.

#[warnings="-register-all"]
Inductive JValue : Type :=
| JUndefined
| JNull
| JBool (b : bool)
| JNum (n : Z)
| JNaN
| JStr (s : string)
| JArr (elems : list JValue)
| JObj (fields : list (string * JValue)).

(** An object: its own enumerable properties, oldest first. *)
Abbreviation Obj := (list (string * JValue)).

(** ToBoolean. *)
Definition truthy (v : JValue) : bool :=
  match v with
  | JUndefined | JNull | JNaN => false
  | JBool b => b
  | JNum n => negb (n =? 0)
  | JStr s => negb (String.eqb s "")
  | JArr _ | JObj _ => true
  end.

(** [a || b] and [a && b] return one of their operands. *)
Definition or_ (a b : JValue) : JValue := if truthy a then a else b.
Definition and_ (a b : JValue) : JValue := if truthy a then b else a.

(** [v === 'lit'] for a string literal. *)
Definition is_str (v : JValue) (lit : string) : bool :=
  match v with JStr s => String.eqb s lit | _ => false end.

(** [o[k]] on an object: [undefined] when the property is missing. *)
Fixpoint get (o : Obj) (k : string) : JValue :=
  match o with
  | [] => JUndefined
  | (k', v) :: o' => if String.eqb k' k then v else get o' k
  end.

Fixpoint has (o : Obj) (k : string) : bool :=
  match o with
  | [] => false
  | (k', _) :: o' => String.eqb k' k || has o' k
  end.

(** [o[k] = v]: an existing property keeps its place, a new one goes last. *)
Fixpoint set (o : Obj) (k : string) (v : JValue) : Obj :=
  match o with
  | [] => [(k, v)]
  | (k', v') :: o' =>
      if String.eqb k' k then (k', v) :: o' else (k', v') :: set o' k v
  end.

(** [delete o[k]]. *)
Fixpoint delete (o : Obj) (k : string) : Obj :=
  match o with
  | [] => []
  | (k', v') :: o' =>
      if String.eqb k' k then o' else (k', v') :: delete o' k
  end.

(** [s.indexOf(needle)]. *)
Definition indexOf (s needle : string) : Z :=
  match String.index 0 needle s with
  | Some n => Z.of_nat n
  | None => -1
  end.

(** The property key an array index stands for. *)
Definition index_key (i : nat) : string :=
  NilZero.string_of_uint (Nat.to_uint i).

Fixpoint set_indexed (o : Obj) (i : nat) (l : list JValue) : Obj :=
  match l with
  | [] => o
  | v :: l' => set_indexed (set o (index_key i) v) (S i) l'
  end.

(** [_.extend(dst, src)]: every enumerable property of an object or array
    [src] is assigned to [dst]; any other [src] has none. *)
Definition extend (dst : Obj) (src : JValue) : Obj :=
  match src with
  | JObj o => fold_left (fun d kv => set d (fst kv) (snd kv)) o dst
  | JArr l => set_indexed dst 0 l
  | _ => dst
  end.

(** A property name that may be missing: as a key, [undefined] reads
    ['undefined']. *)
Definition truthy_str (s : option string) : bool :=
  match s with
  | Some s => negb (String.eqb s "")
  | None => false
  end.

Definition key_of (s : option string) : string :=
  match s with
  | Some s => s
  | None => "undefined"
  end.

Definition str_is (s : option string) (lit : string) : bool :=
  match s with
  | Some s => String.eqb s lit
  | None => false
  end.

(** An [Error] object with the properties this code base reads. *)
Record Error := mkError {
  message : string;
  statusCode : JValue;
  json : JValue
}.

Definition TypeError (msg : string) : Error :=
  {| message := msg; statusCode := JUndefined; json := JUndefined |}.

(** The result of code that may throw. *)
Inductive Res (A : Type) : Type :=
| Ok (a : A)
| Throw (e : Error).
Arguments Ok {A} a.
Arguments Throw {A} e.

Definition bind {A B} (r : Res A) (k : A -> Res B) : Res B :=
  match r with
  | Ok a => k a
  | Throw e => Throw e
  end.

End Js.
Export Js.

Notation "'let*' x ':=' r 'in' k" := (bind r (fun x => k))
  (at level 10, x name, r at level 100, k at level 200).

(* ===================================================================== *)
(** * The router: [lib/api/index.js] *)
(* ===================================================================== *)

Module Router.

(** A function value: its identity and its declared arity ([f.length]).
    [DefaultError] is the closure [defaultError()] returns; it declares
    three parameters [(err, req, res)]. *)
Inductive Fn : Type :=
| DefaultError
| UserFn (id : nat) (arity : nat).

Definition fn_length (f : Fn) : nat :=
  match f with
  | DefaultError => 3
  | UserFn _ n => n
  end.

#[global] Instance Fn_eq_dec : EqDecision Fn.
Proof. solve_decision. Defined.

(** What [pathToRegexp.parse] yields: literal pieces and keys. *)
Record Key := mkKey { key_name : string; key_optional : bool }.

Inductive Token : Type :=
| TStr (s : string)
| TKey (k : Key).

(** [pathToRegexp(path).keys]: the keys among the tokens, in order. *)
Fixpoint regex_keys (tokens : list Token) : list Key :=
  match tokens with
  | [] => []
  | TStr _ :: ts => regex_keys ts
  | TKey k :: ts => k :: regex_keys ts
  end.

(** An entry of [this.paths].  [rid] is the identity of the object
    literal pushed by [use]; [regex] stands for the compiled matcher. *)
Record Route := mkRoute {
  rid : nat;
  path : string;
  order : Z;
  handler : Fn;
  regex : list Token
}.

Record Api := mkApi {
  paths : list Route;
  all : list Fn;
  errors : list Fn;
  allocated : nat
}.

(** [new Api()]. *)
Definition Api_new : Api :=
  {| paths := []; all := []; errors := [DefaultError]; allocated := 0 |}.

(** [s.split(sep)] for a one-character separator. *)
Fixpoint split_aux (sep : ascii) (s cur : string) : list string :=
  match s with
  | EmptyString => [cur]
  | String c s' =>
      if Ascii.eqb c sep then cur :: split_aux sep s' ""
      else split_aux sep s' (cur +:+ String c "")
  end.

Definition split (sep : ascii) (s : string) : list string :=
  split_aux sep s "".

(** [_.compact] on strings drops the empty ones. *)
Definition compact (l : list string) : list string :=
  List.filter (fun s => negb (String.eqb s "")) l.

Definition staticRouteLength (tokens : list Token) : Z :=
  match tokens with
  | TStr s :: _ => Z.of_nat (length (compact (split "/" s)))
  | _ => 0
  end.

Definition requiredParamLength (keys : list Key) : Z :=
  Z.of_nat (length (List.filter (fun k => negb (key_optional k)) keys)).

Definition optionalParamLength (keys : list Key) : Z :=
  Z.of_nat (length (List.filter (fun k => key_optional k) keys)).

(** [Array.prototype.sort] with the comparator [b.order - a.order]: the
    stable sort (ECMAScript 2019), written as a stable insertion sort.  An
    element goes in front of the first one whose order is not greater. *)
Fixpoint insert_route (r : Route) (l : list Route) : list Route :=
  match l with
  | [] => [r]
  | y :: ys =>
      if order y <=? order r then r :: y :: ys else y :: insert_route r ys
  end.

Fixpoint sort_routes (l : list Route) : list Route :=
  match l with
  | [] => []
  | r :: rs => insert_route r (sort_routes rs)
  end.

(** Where the stable sort leaves a route appended to a sorted list: behind
    every route whose order is at least its own. *)
Fixpoint insert_last (x : Route) (l : list Route) : list Route :=
  match l with
  | [] => [x]
  | y :: ys =>
      if order x <=? order y then y :: insert_last x ys else x :: y :: ys
  end.

(** The list is in descending order of [order]. *)
Definition desc (a b : Route) : Prop := order b <= order a.

(** What every state of the router satisfies: the routes are sorted, no
    route is as new as the next one to be made, and the default handler
    heads the error handlers. *)
Definition well_formed (api : Api) : Prop :=
  StronglySorted desc (paths api)
  /\ Forall (fun r => (rid r < allocated api)%nat) (paths api)
  /\ exists rest, errors api = DefaultError :: rest.

(** [_.findWhere(this.paths, { path: p })]. *)
Fixpoint findWhere (l : list Route) (p : string) : option Route :=
  match l with
  | [] => None
  | r :: rs => if String.eqb (path r) p then Some r else findWhere rs p
  end.

(** [_.without(this.paths, found)] compares by identity; with [undefined]
    nothing is removed. *)
Definition without (l : list Route) (found : option Route) : list Route :=
  match found with
  | None => l
  | Some r => List.filter (fun x => negb (Nat.eqb (rid x) (rid r))) l
  end.

(** [indx = l.indexOf(f); !!~indx && l.splice(indx, 1)]. *)
Fixpoint remove_first (f : Fn) (l : list Fn) : list Fn :=
  match l with
  | [] => []
  | g :: gs => if decide (g = f) then gs else g :: remove_first f gs
  end.

(** The first argument of [use] and [unuse]: a path or a function. *)
Inductive Target : Type :=
| Path (p : string)
| Func (f : Fn).

Section WithParser.

(** [pathToRegexp.parse], from the path-to-regexp package. *)
Variable parse : string -> list Token.

Definition route_order (p : string) : Z :=
  let tokens := parse p in
  let keys := regex_keys tokens in
  let order := staticRouteLength tokens * 5
               + requiredParamLength keys * 2
               + optionalParamLength keys in
  if 0 <? indexOf p "/config" then -10 else order.

Definition use (t : Target) (h : Fn) (api : Api) : Api :=
  match t with
  | Func f =>
      if Nat.eqb (fn_length f) 4
      then {| paths := paths api; all := all api;
              errors := errors api ++ [f]; allocated := allocated api |}
      else {| paths := paths api; all := all api ++ [f];
              errors := errors api; allocated := allocated api |}
  | Path p =>
      let r := {| rid := allocated api; path := p; order := route_order p;
                  handler := h; regex := parse p |} in
      {| paths := sort_routes (paths api ++ [r]); all := all api;
         errors := errors api; allocated := S (allocated api) |}
  end.

Definition unuse (t : Target) (api : Api) : Api :=
  match t with
  | Func f =>
      if Nat.eqb (fn_length f) 4
      then {| paths := paths api; all := all api;
              errors := remove_first f (errors api);
              allocated := allocated api |}
      else {| paths := paths api; all := remove_first f (all api);
              errors := errors api; allocated := allocated api |}
  | Path p =>
      {| paths := without (paths api) (findWhere (paths api) p);
         all := all api; errors := errors api; allocated := allocated api |}
  end.

(** The states an [Api] goes through. *)
Inductive Reachable : Api -> Prop :=
| Reachable_new : Reachable Api_new
| Reachable_use t h api : Reachable api -> Reachable (use t h api)
| Reachable_unuse t api : Reachable api -> Reachable (unuse t api).

End WithParser.

(** ** The handler chains of [listener] *)

(** What a handler has done to the response, and what was logged. *)
Record Response := mkResponse {
  res_statusCode : JValue;
  res_headers : Obj;
  res_body : string;
  res_ended : bool
}.

Record World := mkWorld {
  res : Response;
  logged : list Error
}.

(** How a handler leaves: it calls [next()], [next(err)] or neither. *)
Inductive Next : Type :=
| NoNext
| CallNext (err : option Error).

Definition log_prod (err : Error) (w : World) : World :=
  {| res := res w; logged := logged w ++ [err] |}.

Definition set_statusCode (v : JValue) (r : Response) : Response :=
  {| res_statusCode := v; res_headers := res_headers r;
     res_body := res_body r; res_ended := res_ended r |}.

Definition setHeader (k : string) (v : JValue) (r : Response) : Response :=
  {| res_statusCode := res_statusCode r; res_headers := set (res_headers r) k v;
     res_body := res_body r; res_ended := res_ended r |}.

(** [res.end(chunk)] and [res.end()]. *)
Definition end_ (chunk : option string) (r : Response) : Response :=
  {| res_statusCode := res_statusCode r; res_headers := res_headers r;
     res_body := match chunk with
                 | Some b => res_body r +:+ b
                 | None => res_body r
                 end;
     res_ended := true |}.

Section WithHandlers.

(** [JSON.stringify] and [Buffer.byteLength]. *)
Variable JSON_stringify : JValue -> string.
Variable byteLength : string -> Z.

(** What calling an application's function does: the first argument is
    the error for a four-parameter handler, and absent otherwise. *)
Variable call : Fn -> option Error -> World -> World * Next.

(** The function [defaultError()] returns. *)
Definition defaultError (err : Error) (w : World) : World :=
  let w := log_prod err w in
  let r := set_statusCode (or_ (statusCode err) (JNum 500)) (res w) in
  if truthy (json err) then
    let resBody := JSON_stringify (json err) in
    let r := setHeader "content-type" (JStr "application/json") r in
    let r := setHeader "content-length" (JNum (byteLength resBody)) r in
    {| res := end_ (Some resBody) r; logged := logged w |}
  else
    {| res := end_ None r; logged := logged w |}.

(** [errStack(i)(err)], on the handlers from index [i] on:
    [self.errors[i](err, req, res, errStack(++i))]. *)
Fixpoint errStack (handlers : list Fn) (err : option Error) (w : World)
  : Res World :=
  match handlers with
  | [] => Throw (TypeError "self.errors[i] is not a function")
  | DefaultError :: _ =>
      match err with
      | Some e => Ok (defaultError e w)
      | None => Throw (TypeError "Cannot read property 'statusCode' of undefined")
      end
  | f :: rest =>
      match call f err w with
      | (w', NoNext) => Ok w'
      | (w', CallNext e) => errStack rest e w'
      end
  end.

(** [doStack(i)(err)], on the stack from index [i] on: an error goes to
    [errStack(0)], otherwise [stack[i](req, res, doStack(++i))]. *)
Fixpoint doStack (errs stack : list Fn) (err : option Error) (w : World)
  : Res World :=
  match err with
  | Some e => errStack errs (Some e) w
  | None =>
      match stack with
      | [] => Throw (TypeError "stack[i] is not a function")
      | f :: rest =>
          match call f None w with
          | (w', NoNext) => Ok w'
          | (w', CallNext e) => doStack errs rest e w'
          end
      end
  end.

End WithHandlers.

(** An error as the HTTP layer produces it: the status, when there is one,
    is an HTTP status code, and the payload, when there is one, is a JSON
    object or array. *)
Definition http_error (err : Error) : Prop :=
  (statusCode err = JUndefined
   \/ exists n, statusCode err = JNum n /\ 100 <= n <= 599)
  /\ (json err = JUndefined
      \/ (exists o, json err = JObj o) \/ (exists l, json err = JArr l)).

(** ** A parser for the route grammar

    Modelled from the spec: path-to-regexp is a package, not part of the
    sources.  This is its [parse] on the route grammar of the design
    document: [:name] is a required key, [:name?] an optional one, a [/]
    or [.] in front of a key is the key's prefix and not literal text. *)

Definition is_word (c : ascii) : bool :=
  let n := nat_of_ascii c in
  ((48 <=? n) && (n <=? 57) || (65 <=? n) && (n <=? 90)
   || (97 <=? n) && (n <=? 122) || (n =? 95))%nat.

Fixpoint take_word (s : string) : string * string :=
  match s with
  | EmptyString => ("", "")
  | String c s' =>
      if is_word c
      then let (w, r) := take_word s' in (String c w, r)
      else ("", s)
  end.

Definition key_at (s : string) : option (Key * string) :=
  match s with
  | String ":" s' =>
      match take_word s' with
      | (EmptyString, _) => None
      | (w, String "?" r) => Some (mkKey w true, r)
      | (w, String "*" r) => Some (mkKey w true, r)
      | (w, String "+" r) => Some (mkKey w false, r)
      | (w, r) => Some (mkKey w false, r)
      end
  | _ => None
  end.

Definition flush (acc : string) : list Token :=
  if String.eqb acc "" then [] else [TStr acc].

Definition is_prefix_char (c : ascii) : bool :=
  Ascii.eqb c "/" || Ascii.eqb c ".".

Fixpoint parse_go (fuel : nat) (s acc : string) : list Token :=
  match fuel with
  | O => flush (acc +:+ s)
  | S fuel' =>
      match s with
      | EmptyString => flush acc
      | String c s' =>
          match (if is_prefix_char c then key_at s' else None) with
          | Some (k, r) => flush acc ++ TKey k :: parse_go fuel' r ""
          | None =>
              match key_at s with
              | Some (k, r) => flush acc ++ TKey k :: parse_go fuel' r ""
              | None => parse_go fuel' s' (acc +:+ String c "")
              end
          end
      end
  end.

Definition parseSimple (s : string) : list Token :=
  parse_go (String.length s) s "".

End Router.

(* ===================================================================== *)
(** * What the code calls but does not define *)
(* ===================================================================== *)

Module Externals.

(** What a provider hands to the callback of [load]:
    [(err, result, dsResponse)]. *)
Record Load := mkLoad {
  load_err : option Error;
  load_result : JValue;
  load_response : option JValue
}.

(** An [Event]: [this.page] and [this.name]. *)
Record Event := mkEvent {
  ev_page : option string;
  ev_name : string
}.

(** What a handler hands to its callback as [result]: a value of its own,
    or the object it was given as [data], the same object and not a copy
    of it. *)
Inductive Passed : Type :=
| Value (v : JValue)
| Given.

(** What loading an event's module and calling its handler does before
    the call returns: it throws (a missing file, a failing [require], a
    handler that crashes), or it calls back once and then returns or
    throws, or it returns without calling back. *)
Inductive Handler : Type :=
| Throws (e : Error)
| Calls (err : option Error) (result : Passed) (and_throws : option Error)
| Silent.

(** Library functions, the providers and the event handlers of a run. *)
Record Env := mkEnv {
  (** [url.parse(u, true).query] *)
  url_query : string -> Obj;
  (** [JSON.parse], which throws on malformed text *)
  JSON_parse : JValue -> Res JValue;
  (** [JSON.parse(JSON.stringify(filter).replace(paramRule, ...))] for
      the route params of the request: the filter with its
      ["{params.NAME}"] placeholders replaced, parsed again *)
  resolve_placeholders : Obj -> Obj -> Res Obj;
  (** [Number(v)], [parseInt(v)] and [encodeURIComponent(v)] *)
  Number_ : JValue -> JValue;
  parseInt_ : JValue -> JValue;
  encodeURIComponent : JValue -> JValue;
  (** [endpoint.replace(new RegExp('{' + field + '}', 'ig'), value)] *)
  replace_placeholder : string -> string -> JValue -> string;
  (** the filter of a chained datasource with the placeholder of its
      parent replaced by the query that holds the parameter, parsed again:
      [JSON.parse(filter.replace(placeholder, q))] *)
  splice_query : string -> Obj -> JValue -> JValue -> Res Obj;
  (** the answer of the provider of the datasource with this key *)
  load : string -> Load;
  (** the handler of an event, on the working data set it is given: the
      data set as the handler leaves it, and what the handler does *)
  behaviour : Event -> Obj -> Obj * Handler;
  (** the sentinel [loadEventData] computes for an event *)
  checkValue : string -> string;
  (** [help.timer.getStats()], [help.getVersion()],
      [template.getEngineInfo()] and the template engine *)
  stats : JValue;
  version : JValue;
  engineInfo : JValue;
  template_render : JValue -> Res JValue
}.

End Externals.
Export Externals.

(* ===================================================================== *)
(** * Datasources: [lib/datasource/index.js] *)
(* ===================================================================== *)

Module Datasource.

Abbreviation loc := nat.

(** The filter objects.  Several fields may hold the same location: a
    write through one is seen through the others. *)
Record Heap := mkHeap {
  cells : gmap loc Obj;
  next : loc
}.

Definition deref (h : Heap) (l : loc) : Obj := default [] (cells h !! l).

Definition store (h : Heap) (l : loc) (o : Obj) : Heap :=
  {| cells := <[l := o]> (cells h); next := next h |}.

Definition alloc (h : Heap) (o : Obj) : loc * Heap :=
  (next h, {| cells := <[next h := o]> (cells h); next := S (next h) |}).

(** An entry of [requestParams]. *)
Record RequestParam := mkRequestParam {
  rp_queryParam : option string;
  rp_param : option string;
  rp_field : option string;
  rp_target : option string;
  rp_type : option string
}.

(** [schema.datasource], with [source.endpoint], [source.type] and
    [source.modifiedEndpoint] of the [source] object it holds.
    [processRequest] works on a shallow clone of it, a record of the same
    shape. *)
Record Schema := mkSchema {
  key : string;
  paginate : JValue;
  page : JValue;
  cache : JValue;
  filter : loc;
  filterEventResult : JValue;
  requestParams : list RequestParam;
  source_type : string;
  source_endpoint : string;
  source_modifiedEndpoint : JValue
}.

Definition set_cache (v : JValue) (d : Schema) : Schema :=
  {| key := key d; paginate := paginate d; page := page d; cache := v;
     filter := filter d; filterEventResult := filterEventResult d;
     requestParams := requestParams d; source_type := source_type d;
     source_endpoint := source_endpoint d;
     source_modifiedEndpoint := source_modifiedEndpoint d |}.

Definition set_page (v : JValue) (d : Schema) : Schema :=
  {| key := key d; paginate := paginate d; page := v; cache := cache d;
     filter := filter d; filterEventResult := filterEventResult d;
     requestParams := requestParams d; source_type := source_type d;
     source_endpoint := source_endpoint d;
     source_modifiedEndpoint := source_modifiedEndpoint d |}.

Definition set_filter (l : loc) (d : Schema) : Schema :=
  {| key := key d; paginate := paginate d; page := page d; cache := cache d;
     filter := l; filterEventResult := filterEventResult d;
     requestParams := requestParams d; source_type := source_type d;
     source_endpoint := source_endpoint d;
     source_modifiedEndpoint := source_modifiedEndpoint d |}.

Definition set_filterEventResult (v : JValue) (d : Schema) : Schema :=
  {| key := key d; paginate := paginate d; page := page d; cache := cache d;
     filter := filter d; filterEventResult := v;
     requestParams := requestParams d; source_type := source_type d;
     source_endpoint := source_endpoint d;
     source_modifiedEndpoint := source_modifiedEndpoint d |}.

Definition set_requestParams (rps : list RequestParam) (d : Schema) : Schema :=
  {| key := key d; paginate := paginate d; page := page d; cache := cache d;
     filter := filter d; filterEventResult := filterEventResult d;
     requestParams := rps; source_type := source_type d;
     source_endpoint := source_endpoint d;
     source_modifiedEndpoint := source_modifiedEndpoint d |}.

Definition set_modifiedEndpoint (v : JValue) (d : Schema) : Schema :=
  {| key := key d; paginate := paginate d; page := page d; cache := cache d;
     filter := filter d; filterEventResult := filterEventResult d;
     requestParams := requestParams d; source_type := source_type d;
     source_endpoint := source_endpoint d;
     source_modifiedEndpoint := v |}.

(** What a datasource reads of its page. *)
Record Page := mkPage {
  page_name : string;
  passFilters : bool;
  passHeaders : bool;
  requiredDatasources : list string
}.

(** [chained.outputParam] and [chained]. *)
Record OutputParam := mkOutputParam {
  op_param : option string;
  op_type : option string;
  op_field : option string;
  op_query : JValue
}.

Record Chained := mkChained {
  chained_datasource : string;
  outputParam : option OutputParam
}.

(** A [Datasource] after [init].  [schema] is the shared schema object:
    [_.clone(ds)] copies the reference, so a write to the clone's
    [schema.datasource] is a write to this field of the original.
    [filterEvent] is the name of the event [init] builds, if any. *)
Record Datasource := mkDatasource {
  name : string;
  ds_page : Page;
  schema : Schema;
  originalFilter : loc;
  requestHeaders : JValue;
  chained : option Chained;
  filterEvent : option string
}.

Definition with_schema (d : Schema) (this : Datasource) : Datasource :=
  {| name := name this; ds_page := ds_page this; schema := d;
     originalFilter := originalFilter this;
     requestHeaders := requestHeaders this; chained := chained this;
     filterEvent := filterEvent this |}.

Definition with_requestHeaders (v : JValue) (this : Datasource) : Datasource :=
  {| name := name this; ds_page := ds_page this; schema := schema this;
     originalFilter := originalFilter this;
     requestHeaders := v; chained := chained this;
     filterEvent := filterEvent this |}.

(** What [processRequest] reads of the request. *)
Record Request := mkRequest {
  url : string;
  params : Obj;
  headers : JValue
}.

(** [if (!obj.target) obj.target = 'filter']: written into the shared
    [requestParams] entry. *)
Definition default_target (obj : RequestParam) : RequestParam :=
  if truthy_str (rp_target obj) then obj
  else {| rp_queryParam := rp_queryParam obj; rp_param := rp_param obj;
          rp_field := rp_field obj; rp_target := Some "filter";
          rp_type := rp_type obj |}.

(** [this.requestParams.find(obj => obj.queryParam === 'page' && obj.param)]. *)
Definition find_page_param (rps : list RequestParam) : option RequestParam :=
  List.find (fun obj => str_is (rp_queryParam obj) "page"
                        && truthy_str (rp_param obj)) rps.

(** The property key an object is converted to when it indexes another. *)
Definition object_as_key : string := "[object Object]".

Section WithEnv.

Variable env : Env.

(** [datasourceParams.page], inside the page-name / passFilters branch. *)
Definition resolve_page (rps : list RequestParam) (query reqParams : Obj)
  : JValue :=
  let requestParamsPage := find_page_param rps in
  or_ (get query "page")
    (or_ (match requestParamsPage with
          | Some _ => get reqParams object_as_key
          | None => JUndefined
          end)
       (or_ (get reqParams "page") (JNum 1))).

(** One round of [this.requestParams.forEach]: the heap (the per-request
    filter lives at [f]) and the endpoint so far. *)
Definition apply_requestParam (reqParams : Obj) (f : loc)
    (acc : Heap * string) (obj0 : RequestParam) : Heap * string :=
  let (h, endpoint) := acc in
  let obj := default_target obj0 in
  let paramValue :=
    if has reqParams (key_of (rp_param obj))
    then get reqParams (key_of (rp_param obj)) else JBool false in
  if truthy_str (rp_field obj) && truthy paramValue then
    let paramValue :=
      if str_is (rp_type obj) "Number" then Number_ env paramValue
      else encodeURIComponent env paramValue in
    if str_is (rp_target obj) "filter" then
      (store h f (set (deref h f) (key_of (rp_field obj)) paramValue), endpoint)
    else if str_is (rp_target obj) "endpoint" then
      (h, replace_placeholder env endpoint (key_of (rp_field obj)) paramValue)
    else (h, endpoint)
  else
    if str_is (rp_target obj) "filter"
       && truthy (get (deref h f) (key_of (rp_field obj)))
    then (store h f (delete (deref h f) (key_of (rp_field obj))), endpoint)
    else (h, endpoint).

(** [let datasourceParams = _.clone(this.schema.datasource)], with
    [filter] set to [this.originalFilter] and the cache flag taken from
    the query string. *)
Definition clone_params (this : Datasource) (query : Obj) : Schema :=
  let dp := set_filter (originalFilter this) (schema this) in
  if truthy (get query "cache") && is_str (get query "cache") "false"
  then set_cache (JBool false) dp
  else set_cache JUndefined dp.

(** The datasource is the page's own, or the page passes its filters
    on. *)
Definition page_gate (this : Datasource) (datasource : string) : bool :=
  negb (String.eqb (page_name (ds_page this)) "")
  && (0 <=? indexOf datasource (page_name (ds_page this)))
  || passFilters (ds_page this).

(** The branch behind [page_gate]: the page, the [id] and the [filter] of
    the query string.  [_.extend] writes into the object
    [datasourceParams.filter] names. *)
Definition merge_query (this : Datasource) (req : Request) (query : Obj)
    (dp : Schema) (h : Heap) : Res (Schema * Heap) :=
  let dp := if truthy (paginate dp)
            then set_page (resolve_page (requestParams (schema this))
                             query (params req)) dp
            else dp in
  let query := if truthy (get (params req) "id") || truthy (get query "id")
               then delete query "id" else query in
  if has query "filter" then
    let* parsed := JSON_parse env (get query "filter") in
    Ok (dp, store h (filter dp) (extend (deref h (filter dp)) parsed))
  else Ok (dp, h).

(** From the placeholders on: the filter is parsed into a new object, the
    request parameters are applied to it, and the result of the filter
    event is merged in. *)
Definition resolve_filter (this : Datasource) (req : Request)
    (dp : Schema) (h : Heap) : Res (Datasource * Heap * Schema) :=
  let* resolved :=
    resolve_placeholders env (params req) (deref h (filter dp)) in
  let (fresh, h) := alloc h resolved in
  let dp := set_filter fresh dp in
  let (h, endpoint) :=
    fold_left (apply_requestParam (params req) fresh)
      (requestParams (schema this)) (h, source_endpoint (schema this)) in
  let shared :=
    set_modifiedEndpoint (JStr endpoint)
      (set_requestParams (map default_target (requestParams (schema this)))
         (schema this)) in
  let h := if truthy (filterEventResult (schema this))
           then store h fresh
                  (extend (deref h fresh) (filterEventResult (schema this)))
           else h in
  (* the clone holds the same requestParams array and source object *)
  let dp := set_modifiedEndpoint (JStr endpoint)
              (set_requestParams (requestParams shared) dp) in
  Ok (with_schema shared this, h, dp).

(** [Datasource.prototype.processRequest].  Returns the datasource and the
    heap as the call leaves them, and [datasourceParams], the structure
    handed to the provider. *)
Definition processRequest (this : Datasource) (h : Heap)
    (datasource : string) (req : Request)
  : Res (Datasource * Heap * Schema) :=
  let query := url_query env (url req) in
  let dp := clone_params this query in
  let this := if passHeaders (ds_page this)
              then with_requestHeaders (headers req) this else this in
  let* dph := if page_gate this datasource
              then merge_query this req query dp h
              else Ok (dp, h) in
  resolve_filter this req (fst dph) (snd dph).

End WithEnv.

End Datasource.

(* ===================================================================== *)
(** * A request in progress: state, effects, exceptions *)
(* ===================================================================== *)

Module Run.
Import Datasource.

(** What a request does that can be observed. *)
Inductive Effect : Type :=
| LogError (module_ : string) (e : Error)
| LogWarn (module_ : string) (msg : string)
| PrimaryLoad (key : string) (r : Load)
| ChainedLoad (key : string) (r : Load)
| Done (err : option Error) (data : JValue) (dsResponse : option JValue)
| Next (err : option Error)
| Send (json_view : bool) (status : JValue) (payload : JValue).

(** The objects a request reads and writes: the working data set, the
    controller's datasources by key (what [self.datasources] holds, with
    the schema objects the per-request clones share), the filter objects,
    and the promise of the event being run (unsettled, or settled without
    or with an error).

    [loadEventData] has a variable [data] of its own, which names the
    data set of the request until an event hands back another object.
    While the events of a stage run, [data] is the object that variable
    names, and [kept] is the data set of the request once the variable
    names another object: [loadData] has that one back when the stage
    ends. *)
Record St := mkSt {
  data : Obj;
  datasources : list (string * Datasource);
  heap : Heap;
  settled : option (option Error);
  kept : option Obj
}.

Inductive Result (A : Type) : Type :=
| Ret (a : A) (st : St)
| Raise (e : Error) (st : St).
Arguments Ret {A} a st.
Arguments Raise {A} e st.

(** A computation: the effects so far, and the value or the exception. *)
Definition M (A : Type) : Type := St -> list Effect * Result A.

Definition ret {A} (a : A) : M A := fun st => ([], Ret a st).

Definition bindM {A B} (m : M A) (k : A -> M B) : M B :=
  fun st =>
    match m st with
    | (tr, Ret a st') => let (tr', r) := k a st' in (tr ++ tr', r)
    | (tr, Raise e st') => (tr, Raise e st')
    end.

Definition emit (e : Effect) : M unit := fun st => ([e], Ret tt st).

Definition throw {A} (e : Error) : M A := fun st => ([], Raise e st).

(** [try { m } catch (e) { h e }]. *)
Definition catch {A} (m : M A) (h : Error -> M A) : M A :=
  fun st =>
    match m st with
    | (tr, Ret a st') => (tr, Ret a st')
    | (tr, Raise e st') => let (tr', r) := h e st' in (tr ++ tr', r)
    end.

Definition lift {A} (r : Res A) : M A :=
  match r with
  | Ok a => ret a
  | Throw e => throw e
  end.

Definition get_st : M St := fun st => ([], Ret st st).

Definition with_data (d : Obj) (st : St) : St :=
  {| data := d; datasources := datasources st;
     heap := heap st; settled := settled st; kept := kept st |}.

Definition with_settled (s : option (option Error)) (st : St) : St :=
  {| data := data st; datasources := datasources st;
     heap := heap st; settled := s; kept := kept st |}.

Definition with_kept (k : option Obj) (st : St) : St :=
  {| data := data st; datasources := datasources st;
     heap := heap st; settled := settled st; kept := k |}.

Definition set_data (d : Obj) : M unit :=
  fun st => ([], Ret tt (with_data d st)).

Definition set_datasources (l : list (string * Datasource)) : M unit :=
  fun st => ([], Ret tt {| data := data st; datasources := l;
                           heap := heap st; settled := settled st;
                           kept := kept st |}).

Definition set_heap (h : Heap) : M unit :=
  fun st => ([], Ret tt {| data := data st; datasources := datasources st;
                           heap := h; settled := settled st;
                           kept := kept st |}).

Definition set_settled (s : option (option Error)) : M unit :=
  fun st => ([], Ret tt (with_settled s st)).

Definition set_kept (k : option Obj) : M unit :=
  fun st => ([], Ret tt (with_kept k st)).

(** The value of what a handler handed to its callback. *)
Definition passed_value (result : Passed) : M JValue :=
  match result with
  | Value v => ret v
  | Given => fun st => ([], Ret (JObj (data st)) st)
  end.

(** The effects of a run. *)
Definition trace {A} (m : M A) (st : St) : list Effect := fst (m st).

(** No effect of the trace is the answer of a primary datasource. *)
Definition quiet (tr : list Effect) : Prop :=
  Forall (fun e => match e with PrimaryLoad _ _ => False | _ => True end) tr.

(** The first primary datasource to fail is the last to be fetched: what
    follows its answer is [after e], for the error [e] it failed with. *)
Fixpoint fails_fast (after : Error -> list Effect) (tr : list Effect) : Prop :=
  match tr with
  | [] => True
  | PrimaryLoad _ r :: rest =>
      match load_err r with
      | Some e => rest = after e
      | None => fails_fast after rest
      end
  | _ :: rest => fails_fast after rest
  end.

(** A run with effects in front of it, and the state a run ends in. *)
Definition prefixed {A} (tr : list Effect) (x : list Effect * Result A)
  : list Effect * Result A :=
  (tr ++ fst x, snd x).

Definition state_of {A} (x : list Effect * Result A) : St :=
  match snd x with
  | Ret _ st => st
  | Raise _ st => st
  end.

(** The same of a computation, from every state. *)
Definition Quiet {A} (m : M A) : Prop := forall st, quiet (trace m st).

Definition FailsFast (after : Error -> list Effect) {A} (m : M A) : Prop :=
  forall st, fails_fast after (trace m st).

End Run.
Export Run.

Declare Scope eff_scope.
Notation "'let!' x ':=' m 'in' k" := (bindM m (fun x => k))
  (at level 10, x name, m at level 100, k at level 200) : eff_scope.
Notation "m1 ;; m2" := (bindM m1 (fun _ => m2))
  (at level 100, m2 at level 200, right associativity) : eff_scope.
Local Open Scope eff_scope.

(* ===================================================================== *)
(** * Events: [lib/event/index.js] *)
(* ===================================================================== *)

Module EventRun.

Section WithEnv.

Variable env : Env.

(** [Event.prototype.run]: the handler is loaded and called inside [try];
    its callback logs an error it is given and passes both arguments on;
    the [catch] block logs the exception and calls [done(null, null)]. *)
Definition run (ev : Event) (done : option Error -> Passed -> M unit)
  : M unit :=
  catch
    (let! st := get_st in
     let (data', handler) := behaviour env ev (data st) in
     set_data data' ;;
     match handler with
     | Throws e => throw e
     | Calls err result and_throws =>
         match err with
         | Some e => emit (LogError "event" e)
         | None => ret tt
         end ;;
         done err result ;;
         match and_throws with
         | Some e => throw e
         | None => ret tt
         end
     | Silent => ret tt
     end)
    (fun e => emit (LogError "event" e) ;; done None (Value JNull)).

End WithEnv.

End EventRun.

(* ===================================================================== *)
(** * The page controller: [lib/controller/index.js] *)
(* ===================================================================== *)

Module Controller.
Import Datasource.

(** The array index a property key stands for, below [n]. *)
Definition key_index (n : nat) (k : string) : option nat :=
  List.find (fun i => String.eqb (index_key i) k) (seq 0 n).

Definition char_at (s : string) (i : nat) : JValue :=
  match String.get i s with
  | Some c => JStr (String c "")
  | None => JUndefined
  end.

(** [v.hasOwnProperty(k)]: a [TypeError] on [undefined] and [null]. *)
Definition hasOwnProperty (v : JValue) (k : string) : Res bool :=
  match v with
  | JUndefined | JNull =>
      Throw (TypeError "Cannot read property 'hasOwnProperty' of undefined")
  | JObj o => Ok (has o k)
  | JArr l =>
      Ok (String.eqb k "length" || bool_decide (is_Some (key_index (length l) k)))
  | JStr s =>
      Ok (String.eqb k "length"
          || bool_decide (is_Some (key_index (String.length s) k)))
  | _ => Ok false
  end.

(** [v[k]]: a [TypeError] on [undefined] and [null]. *)
Definition prop (v : JValue) (k : string) : Res JValue :=
  match v with
  | JUndefined | JNull => Throw (TypeError "Cannot read property of undefined")
  | JObj o => Ok (get o k)
  | JArr l =>
      Ok (if String.eqb k "length" then JNum (Z.of_nat (length l))
          else match key_index (length l) k with
               | Some i => nth i l JUndefined
               | None => JUndefined
               end)
  | JStr s =>
      Ok (if String.eqb k "length" then JNum (Z.of_nat (String.length s))
          else match key_index (String.length s) k with
               | Some i => char_at s i
               | None => JUndefined
               end)
  | _ => Ok JUndefined
  end.

(** [v[k] = x] on the working data set handed to a callback. *)
Definition assign (v : JValue) (k : string) (x : JValue) : Res JValue :=
  match v with
  | JUndefined | JNull => Throw (TypeError "Cannot set property of undefined")
  | JObj o => Ok (JObj (set o k x))
  | _ => Ok v
  end.

(** [v !== 0]. *)
Definition differs_from_zero (v : JValue) : bool :=
  match v with
  | JNum n => negb (n =? 0)
  | _ => true
  end.

(** [_.every(list, predicate)] stops at the first element that fails. *)
Fixpoint every (p : string -> Res bool) (l : list string) : Res bool :=
  match l with
  | [] => Ok true
  | x :: xs => let* b := p x in if b then every p xs else Ok false
  end.

(** The predicate of [requiredDataPresent] for one required key. *)
Definition required_present (data : JValue) (datasource : string) : Res bool :=
  let* own := hasOwnProperty data datasource in
  if negb own then Ok false else
  let* entry := prop data datasource in
  let* own_results := hasOwnProperty entry "results" in
  if negb own_results then Ok false else
  let* results := prop entry "results" in
  let* len := prop results "length" in
  Ok (differs_from_zero len).

(** [Controller.prototype.requiredDataPresent]. *)
Definition requiredDataPresent (required : list string) (data : JValue)
  : Res bool :=
  match required with
  | [] => Ok true
  | _ => every (required_present data) required
  end.

(** The check as the design document words it: the data set holds the
    key, with a non-empty [results] list. *)
Definition nonempty_list (v : JValue) : bool :=
  match v with
  | JArr (_ :: _) => true
  | _ => false
  end.

Definition has_results_list (data : Obj) (k : string) : bool :=
  has data k
  && match get data k with
     | JObj o => has o "results" && nonempty_list (get o "results")
     | _ => false
     end.

(** A value whose [length] can be read and is not 0: a list or a string
    that is not empty, an object that has no [length] of 0, a number or a
    boolean, which have no [length] at all. *)
Definition length_not_zero (v : JValue) : bool :=
  match v with
  | JUndefined | JNull => false
  | JArr l => negb (Nat.eqb (length l) 0)
  | JStr s => negb (String.eqb s "")
  | JObj o => match get o "length" with
              | JNum 0 => false
              | _ => true
              end
  | JBool _ | JNum _ | JNaN => true
  end.

(** The data set holds the key, with an object that has [results], with
    a [length] that is not 0. *)
Definition has_results (data : Obj) (k : string) : bool :=
  has data k
  && match get data k with
     | JObj o => has o "results" && length_not_zero (get o "results")
     | _ => false
     end.

(** What a [Controller] holds besides its datasources. *)
Record Controller := mkController {
  page : Page;
  preloadEvents : list Event;
  events : list Event
}.

(** The message of the error for a chained datasource without the data
    of its parent. *)
Definition missing_parent_message (name parent : string) : string :=
  "Chained datasource '" +:+ name
  +:+ "' expected to find data from datasource '" +:+ parent +:+ "'.".

Definition missing_parent_error (name parent : string) : Error :=
  {| message := missing_parent_message name parent;
     statusCode := JUndefined; json := JUndefined |}.

(** [s] holds [sub]. *)
Definition mentions (s sub : string) : Prop :=
  exists before after, s = before +:+ sub +:+ after.

Fixpoint find_ds (l : list (string * Datasource)) (k : string)
  : option Datasource :=
  match l with
  | [] => None
  | (k', ds) :: l' => if String.eqb k' k then Some ds else find_ds l' k
  end.

Fixpoint update_ds (l : list (string * Datasource)) (k : string)
    (ds : Datasource) : list (string * Datasource) :=
  match l with
  | [] => []
  | (k', ds') :: l' =>
      if String.eqb k' k then (k', ds) :: l' else (k', ds') :: update_ds l' k ds
  end.

(** The keys of the primary and of the chained datasources, in the order
    of [self.datasources]. *)
Definition primary_keys (l : list (string * Datasource)) : list string :=
  map fst (List.filter (fun kd => negb (bool_decide (is_Some (chained (snd kd))))) l).

Definition chained_keys (l : list (string * Datasource)) : list string :=
  map fst (List.filter (fun kd => bool_decide (is_Some (chained (snd kd)))) l).

Section WithEnv.

Variable env : Env.
Variable self : Controller.
Variable req : Request.

(** The datasource under a key, with the schema as it is now. *)
Definition the_datasource (k : string) : M Datasource :=
  let! st := get_st in
  match find_ds (datasources st) k with
  | Some ds => ret ds
  | None => throw (TypeError "Cannot read property 'schema' of undefined")
  end.

(** A write to [ds.schema.datasource] through a clone. *)
Definition write_schema (k : string) (d : Schema) : M unit :=
  let! st := get_st in
  match find_ds (datasources st) k with
  | Some ds => set_datasources (update_ds (datasources st) k (with_schema d ds))
  | None => ret tt
  end.

(** [result.checkValue && result.checkValue === checkValue] for an
    object. *)
Definition carries (o : Obj) (checkValue : string) : bool :=
  truthy (get o "checkValue") && is_str (get o "checkValue") checkValue.

(** [data = result] in the callback of [loadEventData], for an object
    that is not the one the variable names: from here on the variable
    names the object handed back, and the data set of the request stays
    as it is. *)
Definition rebind (o : Obj) : M unit :=
  let! st := get_st in
  match kept st with
  | None => set_kept (Some (data st))
  | Some _ => ret tt
  end ;;
  set_data o.

(** The end of a stage of events, for [loadData]: its data set is the
    object it built, whatever the variable of [loadEventData] names. *)
Definition leave_stage : M unit :=
  let! st := get_st in
  match kept st with
  | Some d => set_data d ;; set_kept None
  | None => ret tt
  end.

(** The callback [loadEventData] gives to [event.run].  With the object
    the handler was given for [result], [data = result] changes nothing;
    where that object no longer carries the sentinel it is stored under
    the name of the event, in itself. *)
Definition event_callback (ev : Event) (err : option Error) (result : Passed)
  : M unit :=
  let! st := get_st in
  let settle s :=
    match settled st with
    | None => set_settled (Some s)
    | Some _ => ret tt
    end in
  match err with
  | Some e => settle (Some e)
  | None =>
      match result with
      | Given =>
          if carries (data st) (checkValue env (ev_name ev))
          then ret tt
          else set_data (set (data st) (ev_name ev) (JObj (data st)))
      | Value (JObj o) =>
          if carries o (checkValue env (ev_name ev))
          then rebind o
          else set_data (set (data st) (ev_name ev) (JObj o))
      | Value v =>
          if truthy v
          then set_data (set (data st) (ev_name ev) v)
          else ret tt
      end ;;
      settle None
  end.

(** The promise chain of [loadEventData]: the events one after the other;
    a rejection ends the chain with [done(err)], a promise that never
    settles ends it without a word. *)
Fixpoint event_queue (evs : list Event) (done : option Error -> M unit)
  : M unit :=
  match evs with
  | [] => leave_stage ;; done None
  | ev :: rest =>
      set_settled None ;;
      let! st := get_st in
      set_data (set (data st) "checkValue" (JStr (checkValue env (ev_name ev)))) ;;
      EventRun.run env ev (event_callback ev) ;;
      let! st := get_st in
      match settled st with
      | None => leave_stage
      | Some (Some e) => leave_stage ;; done (Some e)
      | Some None => event_queue rest done
      end
  end.

(** [Controller.prototype.loadEventData]: its variable [data] names the
    data set it is called with. *)
Definition loadEventData (evs : list Event) (done : option Error -> M unit)
  : M unit :=
  match evs with
  | [] => done None
  | _ => set_kept None ;; event_queue evs done
  end.

(** The worker of the queue of primary datasources, for one datasource;
    [cb] starts the next one. *)
Definition primary_worker
    (done : option Error -> JValue -> option JValue -> M unit)
    (k : string) (cb : M unit) : M unit :=
  let! ds := the_datasource k in
  match filterEvent ds with
  | Some name =>
      EventRun.run env (mkEvent None name)
        (fun err filter =>
           match err with
           | Some e => done (Some e) JUndefined None
           | None =>
               let! filter := passed_value filter in
               let! ds := the_datasource k in
               write_schema k (set_filterEventResult filter (schema ds))
           end)
  | None => ret tt
  end ;;
  (* processSearchParameters(ds.schema.datasource.key, ds, req) *)
  let! ds := the_datasource k in
  let! st := get_st in
  let! r := lift (processRequest env ds (heap st) k req) in
  let '(ds', h', _) := r in
  set_heap h' ;;
  write_schema k (schema ds') ;;
  (* ds.provider.load(req.url, ...) *)
  let r := load env k in
  emit (PrimaryLoad k r) ;;
  match load_err r with
  | Some e => done (Some e) JUndefined None
  | None =>
      match load_response r with
      | Some dsResponse => done None (load_result r) (Some dsResponse)
      | None =>
          (if truthy (load_result r)
           then let! st := get_st in set_data (set (data st) k (load_result r))
           else ret tt) ;;
          cb
      end
  end.

(** The queue, of width 1: [drain] runs once the last task has called
    [cb]. *)
Fixpoint primary_queue
    (done : option Error -> JValue -> option JValue -> M unit)
    (keys : list string) (drain : M unit) : M unit :=
  match keys with
  | [] => drain
  | k :: rest => primary_worker done k (primary_queue done rest drain)
  end.

(** The value a chained datasource takes from the data of its parent:
    [param.split('.').reduce((o, x) => o ? o[x] : '', data[parent])]. *)
Definition extract (path : string) (parentData : JValue) : Res JValue :=
  fold_left
    (fun acc x =>
       let* o := acc in
       if truthy o then prop o x else Ok (JStr ""))
    (Router.split "." path) (Ok parentData).

Definition extract_param (c : Chained) (parentData : JValue) : Res JValue :=
  match outputParam c with
  | None => Throw (TypeError "Cannot read property 'param' of undefined")
  | Some op =>
      match op_param op with
      | None => Throw (TypeError "Cannot read property 'split' of undefined")
      | Some path => extract path parentData
      end
  end.

(** The body of [_.each] in [processChained] for one chained datasource,
    up to the call of [provider.load]: [true] when the fetch is started,
    [false] when [done] was called with an error instead. *)
Definition chained_prepare (done : option Error -> M unit) (k : string)
  : M bool :=
  let! ds := the_datasource k in
  match chained ds with
  | None => throw (TypeError "Cannot read property 'datasource' of null")
  | Some c =>
      let! st := get_st in
      let parentData := get (data st) (chained_datasource c) in
      if negb (truthy parentData) then
        emit (LogWarn "controller"
                (missing_parent_message (name ds) (chained_datasource c))) ;;
        done (Some (missing_parent_error (name ds) (chained_datasource c))) ;;
        ret false
      else
        match extract_param c parentData, outputParam c with
        | Throw e, _ => done (Some e) ;; ret false
        | Ok _, None => ret false
        | Ok param, Some op =>
            let param := if truthy_str (op_type op) && str_is (op_type op) "Number"
                         then parseInt_ env param
                         else encodeURIComponent env param in
            (* data.query.cache and data.query.page *)
            let! qcache := lift (prop (get (data st) "query") "cache") in
            let d := schema ds in
            let d := if is_str qcache "false" then set_cache (JBool false) d
                     else d in
            let! qpage := lift (prop (get (data st) "query") "page") in
            let d := if passFilters (page self) && truthy (paginate d)
                     then set_page (or_ qpage
                                      (or_ (get (params req) "page") (JNum 1))) d
                     else d in
            (if truthy_str (op_field op)
             then set_heap (store (heap st) (filter d)
                              (set (deref (heap st) (filter d))
                                 (key_of (op_field op)) param))
             else ret tt) ;;
            let! st := get_st in
            let! d :=
              (if truthy (op_query op) then
                 let! spliced :=
                   lift (splice_query env (chained_datasource c)
                           (deref (heap st) (filter d)) (op_query op) param) in
                 let (l, h) := alloc (heap st) spliced in
                 set_heap h ;; ret (set_filter l d)
               else ret d) in
            write_schema k d ;;
            ret true
        end
  end.

(** The loop of [_.each]: the keys whose fetch was started. *)
Fixpoint chained_each (done : option Error -> M unit) (keys : list string)
  : M (list string) :=
  match keys with
  | [] => ret []
  | k :: rest =>
      let! started := chained_prepare done k in
      let! others := chained_each done rest in
      ret (if started then k :: others else others)
  end.

(** The callbacks of [provider.load], in the order the fetches were
    started; [idx] counts them, [n] is the number of chained
    datasources. *)
Fixpoint chained_loaded (done : option Error -> M unit) (n : nat)
    (idx : nat) (started : list string) : M unit :=
  match started with
  | [] => ret tt
  | k :: rest =>
      let r := load env k in
      emit (ChainedLoad k r) ;;
      match load_err r with
      | Some e => emit (LogError "controller" e)
      | None => ret tt
      end ;;
      (if truthy (load_result r)
       then let! st := get_st in set_data (set (data st) k (load_result r))
       else ret tt) ;;
      (if Nat.eqb (S idx) n then done None else ret tt) ;;
      chained_loaded done n (S idx) rest
  end.

(** [Controller.prototype.processChained], on the keys of the chained
    datasources.  The providers answer after the loop has gone through
    every datasource. *)
Definition processChained (keys : list string) (done : option Error -> M unit)
  : M unit :=
  match keys with
  | [] => done None
  | _ =>
      let! started := chained_each done keys in
      chained_loaded done (length keys) 0 started
  end.

(** The callback a stage of [loadData] gives to the function it calls:
    [if (err) return done(err)], else the next stage. *)
Definition forward
    (done : option Error -> JValue -> option JValue -> M unit)
    (next_stage : M unit) (err : option Error) : M unit :=
  match err with
  | Some e => done (Some e) JUndefined None
  | None => next_stage
  end.

(** The last function of the waterfall: [done(err, data)]. *)
Definition finish
    (done : option Error -> JValue -> option JValue -> M unit) : M unit :=
  let! st := get_st in done None (JObj (data st)) None.

Definition postload
    (done : option Error -> JValue -> option JValue -> M unit) : M unit :=
  loadEventData (events self) (forward done (finish done)).

Definition run_chained
    (done : option Error -> JValue -> option JValue -> M unit)
    (keys : list string) : M unit :=
  processChained keys (forward done (postload done)).

(** The stage of the primary datasources:
    [if (!hasAttachedDatasources(self.datasources)) callback(null)], with
    no [return], and the queue. *)
Definition run_primary
    (done : option Error -> JValue -> option JValue -> M unit)
    (dss : list (string * Datasource)) : M unit :=
  match dss with
  | [] => run_chained done (chained_keys dss)
  | _ => ret tt
  end ;;
  match primary_keys dss with
  | [] => ret tt
  | keys => primary_queue done keys (run_chained done (chained_keys dss))
  end.

(** [Controller.prototype.loadData]. *)
Definition loadData
    (done : option Error -> JValue -> option JValue -> M unit) : M unit :=
  let! st0 := get_st in
  loadEventData (preloadEvents self)
    (forward done (run_primary done (datasources st0))).

(** The effects of the answers of the chained datasources, and the data
    set once they are all in. *)
Definition loaded_effects (keys : list string) : list Effect :=
  flat_map
    (fun k => ChainedLoad k (load env k)
              :: match load_err (load env k) with
                 | Some e => [LogError "controller" e]
                 | None => []
                 end) keys.

Definition loaded_state (keys : list string) (st : St) : St :=
  fold_left
    (fun st k => if truthy (load_result (load env k))
                 then with_data (set (data st) k (load_result (load env k))) st
                 else st) keys st.

(** The effects that follow a failed primary datasource in [process]:
    [next()] for a 404, [next(err)] otherwise. *)
Definition is_404 (e : Error) : bool :=
  truthy (statusCode e)
  && match statusCode e with JNum n => n =? 404 | _ => false end.

Definition after_failure (e : Error) : list Effect :=
  if is_404 e then [Next None] else [Next (Some e)].

(** Modelled from the spec: [lib/view/send] is not among the sources.  A
    stage that calls its continuation with an error hands the error to
    [next], as [help.sendBackJSON] and [help.sendBackHTML] do; otherwise
    the response is written with the status code. *)
Definition send (json_view : bool) (status : JValue)
    (err : option Error) (results : JValue) : M unit :=
  match err with
  | Some e => emit (Next (Some e))
  | None => emit (Send json_view status results)
  end.

(** The callback [process] gives to [loadData].  [json_view] is
    [data.json] of the initial view data, [status] is
    [res.statusCode || 200]. *)
Definition process_loaded (json_view : bool) (status : JValue)
    (err : option Error) (data : JValue) (dsResponse : option JValue)
  : M unit :=
  let! present := lift (requiredDataPresent (requiredDatasources (page self)) data) in
  if negb present then emit (Next None) else
  match err with
  | Some e =>
      if is_404 e then emit (Next None)
      else send json_view status (Some e) JUndefined
  | None =>
      let! accepted :=
        match dsResponse with
        | Some r => let! sc := lift (prop r "statusCode") in
                    ret (match sc with JNum n => n =? 202 | _ => false end)
        | None => ret false
        end in
      if accepted : bool then send true (JNum 202) None data else
      let! data := (if truthy data then lift (assign data "stats" (stats env))
                    else ret data) in
      let! data := (if truthy data then lift (assign data "version" (version env))
                    else ret data) in
      (* view.setData(data) *)
      let! data := lift (assign data "templatingEngine" (engineInfo env)) in
      let! j := lift (prop data "json") in
      if truthy j then send json_view status None data
      else if json_view then send json_view status None data
      else
        match template_render env data with
        | Ok output => send json_view status None output
        | Throw e => emit (Next (Some e))
        end
  end.

(** [Controller.prototype.process], from the initial view data in the
    state on. *)
Definition process (res_statusCode : JValue) : M unit :=
  let! st := get_st in
  let status := or_ res_statusCode (JNum 200) in
  let json_view := truthy (get (data st) "json") in
  loadData (process_loaded json_view status).

End WithEnv.

End Controller.

(* ===================================================================== *)
(** * The datasource cache gate: [lib/cache/datasource.js] *)
(* ===================================================================== *)

Module DatasourceCache.

(** The [directory] and [redis] blocks of the caching options.  A flag
    that is not set is [None]. *)
Record Dir := mkDir {
  dir_enabled : option bool;
  dir_path : option string
}.

Record Redis := mkRedis {
  redis_enabled : option bool
}.

(** [config.get('caching')], and [this.cacheOptions]. *)
Record CacheOptions := mkCacheOptions {
  directory : Dir;
  redis : Redis
}.

(** [schema.datasource.caching || {}]: either block may be missing. *)
Record CachingBlock := mkCachingBlock {
  block_directory : option Dir;
  block_redis : option Redis
}.

Record Config := mkConfig {
  debug : bool;
  caching : CacheOptions
}.

(** What [cachingEnabled] reads of a datasource. *)
Record CachedDatasource := mkCachedDatasource {
  provider_endpoint : option string;
  source_type : string;
  schema_caching : option CachingBlock
}.

Record DatasourceCache := mkDatasourceCache {
  enabled : bool;
  cacheOptions : CacheOptions
}.

Definition is_false (b : option bool) : bool :=
  match b with Some false => true | _ => false end.

Definition is_on (b : option bool) : bool :=
  match b with Some true => true | _ => false end.

(** [new DatasourceCache()]. *)
Definition DatasourceCache_new (cfg : Config) : DatasourceCache :=
  let directoryEnabled := dir_enabled (directory (caching cfg)) in
  let redisEnabled := redis_enabled (redis (caching cfg)) in
  {| enabled := negb (is_false directoryEnabled && is_false redisEnabled);
     cacheOptions := caching cfg |}.

Definition is_space (c : ascii) : bool :=
  let n := nat_of_ascii c in
  ((n =? 32) || (9 <=? n) && (n <=? 13))%nat.

Fixpoint all_space (s : string) : bool :=
  match s with
  | EmptyString => true
  | String c s' => is_space c && all_space s'
  end.

(** [s.isBlank(str)] of underscore.string. *)
Definition isBlank (s : option string) : bool :=
  match s with
  | None => true
  | Some s => all_space s
  end.

(** [_.extend(this.cacheOptions, options)]. *)
Definition extend_options (o : CacheOptions) (b : CachingBlock) : CacheOptions :=
  {| directory := default (directory o) (block_directory b);
     redis := default (redis o) (block_redis b) |}.

(** [DatasourceCache.prototype.getOptions]: the options, which are also
    what [this.cacheOptions] holds from then on. *)
Definition getOptions (cfg : Config) (o : CacheOptions) (ds : CachedDatasource)
  : CacheOptions :=
  let block := default (mkCachingBlock None None) (schema_caching ds) in
  let options := extend_options o block in
  if isBlank (dir_path (directory options))
  then {| directory := mkDir None (dir_path (directory (caching cfg)));
          redis := redis options |}
  else options.

Section WithUrl.

(** [url.parse(endpoint, true).query]. *)
Variable url_query : string -> Obj.

(** The test on the query string of the provider's endpoint. *)
Definition query_disables (ds : CachedDatasource) : bool :=
  match provider_endpoint ds with
  | Some endpoint =>
      let query := url_query endpoint in
      truthy (get query "cache") && is_str (get query "cache") "false"
  | None => false
  end.

(** [DatasourceCache.prototype.cachingEnabled]: the answer as its callers
    test it, and the cache with the options [getOptions] left. *)
Definition cachingEnabled (cfg : Config) (this : DatasourceCache)
    (ds : CachedDatasource) : bool * DatasourceCache :=
  let enabled0 := enabled this in
  let enabled1 := if query_disables ds then false else enabled0 in
  let enabled2 := if String.eqb (source_type ds) "static" then false
                  else enabled1 in
  let enabled3 := if debug cfg then false else enabled2 in
  let options := getOptions cfg (cacheOptions this) ds in
  (enabled3 && (is_on (dir_enabled (directory options))
                || is_on (redis_enabled (redis options))),
   {| enabled := enabled this; cacheOptions := options |}).

(** The store of a datasource: the block of its own caching settings
    where they have one for the store, the block of the cache's options
    otherwise. *)
Definition directory_of (o : CacheOptions) (ds : CachedDatasource) : Dir :=
  match schema_caching ds with
  | Some {| block_directory := Some d |} => d
  | _ => directory o
  end.

Definition redis_of (o : CacheOptions) (ds : CachedDatasource) : Redis :=
  match schema_caching ds with
  | Some {| block_redis := Some r |} => r
  | _ => redis o
  end.

(** The cache of a configuration, with [o] for its options. *)
Definition cache_with (cfg : Config) (o : CacheOptions) : DatasourceCache :=
  {| enabled := enabled (DatasourceCache_new cfg); cacheOptions := o |}.

(** The gate as the design document words it: a backing store is enabled
    in the configuration, the process is not in debug mode, the query
    string does not disable caching, the source type is not static. *)
Definition cachingEnabled_as_specified (cfg : Config) (ds : CachedDatasource)
  : bool :=
  (is_on (dir_enabled (directory (caching cfg)))
   || is_on (redis_enabled (redis (caching cfg))))
  && negb (debug cfg)
  && negb (query_disables ds)
  && negb (String.eqb (source_type ds) "static").

End WithUrl.

End DatasourceCache.

(* ===================================================================== *)
(** * A sample application *)
(* ===================================================================== *)

Module Sample.
Import Datasource Controller DatasourceCache.

(** The query string of a URL, as [key=value] pairs split at [&], with no
    decoding. *)
Definition pair_of (kv : string) : string * JValue :=
  match Router.split "=" kv with
  | k :: v :: _ => (k, JStr v)
  | k :: [] => (k, JStr "")
  | [] => ("", JStr "")
  end.

Definition query_of (u : string) : Obj :=
  match Router.split "?" u with
  | _ :: q :: _ => map pair_of (Router.split "&" q)
  | _ => []
  end.

(** The JSON text of the object with the one property [make: 'bmw']. *)
Definition dq : string := String (ascii_of_nat 34) "".

Definition make_bmw_text : string :=
  "{" +:+ dq +:+ "make" +:+ dq +:+ ":" +:+ dq +:+ "bmw" +:+ dq +:+ "}".

Definition not_found_error : Error :=
  {| message := "Not Found"; statusCode := JNum 404; json := JUndefined |}.

Definition timeout_error : Error :=
  {| message := "socket hang up"; statusCode := JUndefined; json := JUndefined |}.

Definition crash : Error :=
  {| message := "x is not defined"; statusCode := JUndefined; json := JUndefined |}.

(** [String(v)]; an array reads as its elements joined by commas, with
    nothing for [undefined] and [null], an object as [[object Object]]. *)
Fixpoint to_string (v : JValue) : string :=
  match v with
  | JUndefined => "undefined"
  | JNull => "null"
  | JBool b => if b then "true" else "false"
  | JNum n => NilZero.string_of_int (Z.to_int n)
  | JNaN => "NaN"
  | JStr s => s
  | JArr l =>
      (fix elements (l : list JValue) : string :=
         match l with
         | [] => ""
         | x :: l' =>
             match x with
             | JUndefined | JNull => ""
             | _ => to_string x
             end
             +:+ match l' with
                 | [] => ""
                 | _ => "," +:+ elements l'
                 end
         end) l
  | JObj _ => "[object Object]"
  end.

(** [encodeURIComponent(v)]: the text of [v], a string of UTF-8 bytes,
    with every byte but letters, digits and [-_.!~*'()] written as [%]
    and two hexadecimal digits. *)
Definition hex_digit (n : nat) : ascii :=
  match String.get n "0123456789ABCDEF" with
  | Some c => c
  | None => "0"%char
  end.

Definition unreserved (c : ascii) : bool :=
  let n := nat_of_ascii c in
  ((48 <=? n) && (n <=? 57) || (65 <=? n) && (n <=? 90)
   || (97 <=? n) && (n <=? 122))%nat
  || existsb (Ascii.eqb c) (list_ascii_of_string "-_.!~*'()").

Fixpoint percent_encode (s : string) : string :=
  match s with
  | EmptyString => ""
  | String c s' =>
      if unreserved c then String c (percent_encode s')
      else String "%"
             (String (hex_digit (nat_of_ascii c / 16))
                (String (hex_digit (nat_of_ascii c mod 16))
                   (percent_encode s')))
  end.

Definition encode_component (v : JValue) : JValue :=
  JStr (percent_encode (to_string v)).

(** The digits of a numeric literal, in a radix up to 36. *)
Definition digit_value (radix : nat) (c : ascii) : option Z :=
  let n := nat_of_ascii c in
  let d := if ((48 <=? n) && (n <=? 57))%nat then Some (n - 48)%nat
           else if ((97 <=? n) && (n <=? 122))%nat then Some (n - 87)%nat
           else if ((65 <=? n) && (n <=? 90))%nat then Some (n - 55)%nat
           else None in
  match d with
  | Some d => if (d <? radix)%nat then Some (Z.of_nat d) else None
  | None => None
  end.

(** The number the leading digits of [s] write, [None] when [s] starts
    with no digit, and what is behind them. *)
Fixpoint leading_digits (radix : nat) (s : string) (acc : option Z)
  : option Z * string :=
  match s with
  | EmptyString => (acc, "")
  | String c s' =>
      match digit_value radix c with
      | Some d =>
          leading_digits radix s'
            (Some (Z.of_nat radix * default 0 acc + d))
      | None => (acc, s)
      end
  end.

Fixpoint skip_space (s : string) : string :=
  match s with
  | EmptyString => ""
  | String c s' => if is_space c then skip_space s' else s
  end.

Definition signed (s : string) : bool * string :=
  match s with
  | String "-" s' => (true, s')
  | String "+" s' => (false, s')
  | _ => (false, s)
  end.

(** [parseInt(v)]: white space, a sign, [0x] for a hexadecimal number,
    and the digits up to the first character that is none. *)
Definition parse_int (v : JValue) : JValue :=
  let (negative, s) := signed (skip_space (to_string v)) in
  let (radix, s) :=
    match s with
    | String "0" (String x s') =>
        if Ascii.eqb x "x" || Ascii.eqb x "X" then (16, s') else (10, s)
    | _ => (10, s)
    end%nat in
  match fst (leading_digits radix s None) with
  | Some n => JNum (if negative : bool then - n else n)
  | None => JNaN
  end.

(** [Number(v)], on the integers: the text of a string, or of an object,
    is a number when, white space apart, it is empty, a decimal literal
    with or without a sign, or a literal with [0x], [0o] or [0b] in
    front.  A literal with a fraction or an exponent writes a number the
    values here do not hold, and reads [NaN]. *)
Definition literal (s : string) : JValue :=
  let s := skip_space s in
  if String.eqb s "" then JNum 0 else
  let prefixed :=
    match s with
    | String "0" (String x s') =>
        if Ascii.eqb x "x" || Ascii.eqb x "X" then Some (16, s')
        else if Ascii.eqb x "o" || Ascii.eqb x "O" then Some (8, s')
        else if Ascii.eqb x "b" || Ascii.eqb x "B" then Some (2, s')
        else None
    | _ => None
    end%nat in
  let '(negative, radix, s) :=
    match prefixed with
    | Some (radix, s') => (false, radix, s')
    | None => let (negative, s') := signed s in (negative, 10%nat, s')
    end in
  match leading_digits radix s None with
  | (Some n, rest) =>
      if all_space rest then JNum (if negative : bool then - n else n)
      else JNaN
  | (None, _) => JNaN
  end.

Definition to_number (v : JValue) : JValue :=
  match v with
  | JUndefined | JNaN => JNaN
  | JNull => JNum 0
  | JBool b => JNum (if b then 1 else 0)
  | JNum n => JNum n
  | _ => literal (to_string v)
  end.

(** An environment in which the datasource [cars] fails with a 404,
    [reviews] fails without a status, the others answer with one result,
    the event [boom] crashes and the others call back without a result. *)
Definition env : Env :=
  {| url_query := query_of;
     JSON_parse := fun v =>
       if is_str v make_bmw_text then Ok (JObj [("make", JStr "bmw")])
       else Throw (TypeError "Unexpected token");
     resolve_placeholders := fun _ f => Ok f;
     Number_ := to_number;
     parseInt_ := parse_int;
     encodeURIComponent := encode_component;
     replace_placeholder := fun endpoint _ _ => endpoint;
     splice_query := fun _ f _ _ => Ok f;
     load := fun k =>
       if String.eqb k "cars" then mkLoad (Some not_found_error) JUndefined None
       else if String.eqb k "reviews" then mkLoad (Some timeout_error) JUndefined None
       else mkLoad None (JObj [("results", JArr [JObj [("id", JNum 1)]])]) None;
     behaviour := fun ev d =>
       if String.eqb (ev_name ev) "boom" then (d, Throws crash)
       else (d, Calls None (Value JUndefined) None);
     checkValue := fun _ => "d41d8cd98f00b204e9800998ecf8427e";
     stats := JUndefined;
     version := JUndefined;
     engineInfo := JObj [("engine", JStr "dust")];
     template_render := fun _ => Ok (JStr "<html></html>") |}.

Definition page_cars : Page :=
  {| page_name := "cars"; passFilters := true; passHeaders := false;
     requiredDatasources := [] |}.

(** A schema whose filter object is at location [l]. *)
Definition schema_at (l : loc) (k : string) (rps : list RequestParam)
  : Schema :=
  {| key := k; paginate := JBool true; Datasource.page := JNum 1;
     cache := JUndefined; filter := l; filterEventResult := JUndefined;
     requestParams := rps; Datasource.source_type := "dadiapi";
     source_endpoint := "/1.0/cars/cars";
     source_modifiedEndpoint := JUndefined |}.

(** A primary datasource: the schema's filter object is at location [l],
    the clone [init] made of it, [originalFilter], at the next one. *)
Definition datasource_at (l : loc) (k : string) (rps : list RequestParam)
  : Datasource :=
  {| name := k; ds_page := page_cars; schema := schema_at l k rps;
     originalFilter := S l; requestHeaders := JUndefined;
     chained := None; filterEvent := None |}.

(** A datasource chained to [parent]: it takes [results.0.id] of the
    parent's data as the filter field [carId]. *)
Definition chained_at (l : loc) (k parent : string) : Datasource :=
  {| name := k; ds_page := page_cars; schema := schema_at l k [];
     originalFilter := S l; requestHeaders := JUndefined;
     chained := Some {| chained_datasource := parent;
                        outputParam := Some {| op_param := Some "results.0.id";
                                               op_type := None;
                                               op_field := Some "carId";
                                               op_query := JUndefined |} |};
     filterEvent := None |}.

(** Eight filter objects, all empty. *)
Definition heap0 : Heap :=
  {| cells := list_to_map (map (fun l => (l, [])) (seq 0 8)); next := 8%nat |}.

(** A request parameter that names the route parameter [p] as the alias
    of [page]. *)
Definition page_alias : RequestParam :=
  {| rp_queryParam := Some "page"; rp_param := Some "p"; rp_field := None;
     rp_target := None; rp_type := None |}.

Definition controller (required : list string) (pre post : list Event)
  : Controller :=
  {| Controller.page :=
       {| page_name := "cars"; passFilters := true; passHeaders := false;
          requiredDatasources := required |};
     preloadEvents := pre; events := post |}.

(** The initial view data of a request with this query string. *)
Definition view_data (query : Obj) : Obj :=
  [("query", JObj query); ("params", JObj query); ("json", JBool false)].

Definition state (dss : list (string * Datasource)) (query : Obj) : St :=
  {| data := view_data query; datasources := dss; heap := heap0;
     settled := None; kept := None |}.

End Sample.

(* ===================================================================== *)
(** * Dispatch: [listener], [_match] and [notFound] of [lib/api/index.js] *)
(* ===================================================================== *)

Module Listener.
Import Router.

Section WithRegex.

(** [regex.exec(path)] for the matcher of a route: [null], or the match
    array, which holds the text matched and then what each key captured,
    [undefined] for a key that took no part. *)
Variable exec : list Token -> string -> option (list JValue).

(** One round of [match.forEach(function (k, i) {...})]:
    [keyOpts = keys[i] || {}], and the assignment when [match[i + 1]] and
    [keyOpts.name] are both truthy. *)
Definition param_at (keys : list Key) (m : list JValue) (params : Obj)
    (i : nat) : Obj :=
  match nth_error keys i with
  | Some k =>
      if truthy (nth (S i) m JUndefined) && negb (String.eqb (key_name k) "")
      then set params (key_name k) (nth (S i) m JUndefined)
      else params
  | None => params
  end.

(** [req.params] after the loop over the match array, from [{}]. *)
Definition fill_params (keys : list Key) (m : list JValue) : Obj :=
  fold_left (param_at keys m) (seq 0 (length m)) [].

(** The loop of [_match]: it goes through [this.paths] in order, skips a
    route whose matcher fails and stops at the first whose matcher
    succeeds.  The result is the handlers it returns and the [req.params]
    it leaves. *)
Fixpoint match_loop (paths : list Route) (p : string) : list Fn * Obj :=
  match paths with
  | [] => ([], [])
  | r :: rest =>
      match exec (regex r) p with
      | None => match_loop rest p
      | Some m => ([handler r], fill_params (regex_keys (regex r)) m)
      end
  end.

(** [Api.prototype._match]. *)
Definition _match (api : Api) (p : string) : list Fn * Obj :=
  match_loop (paths api) p.

Variable JSON_stringify : JValue -> string.
Variable byteLength : string -> Z.
Variable call : Fn -> option Error -> World -> World * Next.

(** What a route's handler does when it is called with [(req, res)] only,
    as [notFound] calls the handler of the ['/404'] page. *)
Variable call_without_next : Fn -> World -> Res World.

Definition not_found_message : string :=
  "404: Ain't nothing here but you and me.".

(** The function [notFound(api, req, res)] returns. *)
Definition notFound (api : Api) (w : World) : Res World :=
  let w := {| res := set_statusCode (JNum 404) (res w); logged := logged w |} in
  match findWhere (paths api) "/404" with
  | Some r => call_without_next (handler r) w
  | None =>
      Ok {| res := end_ (Some not_found_message) (res w); logged := logged w |}
  end.

(** An entry of the stack of [listener]: a function of the application,
    or the 404 handler pushed last. *)
Inductive Entry : Type :=
| Middleware (f : Fn)
| NotFound.

(** [doStack(i)(err)] on the stack from index [i] on, with the 404 handler
    in it. *)
Fixpoint doStack (api : Api) (stack : list Entry) (err : option Error)
    (w : World) : Res World :=
  match err with
  | Some e => errStack JSON_stringify byteLength call (errors api) (Some e) w
  | None =>
      match stack with
      | [] => Throw (TypeError "stack[i] is not a function")
      | Middleware f :: rest =>
          match call f None w with
          | (w', NoNext) => Ok w'
          | (w', CallNext e) => doStack api rest e w'
          end
      | NotFound :: _ => notFound api w
      end
  end.

(** [Api.prototype.listener], for a request whose URL has the path
    [pathname]: the response, and [req.params]. *)
Definition listener (api : Api) (pathname : string) (w : World)
  : Res World * Obj :=
  let (matches, params) := _match api pathname in
  (doStack api (map Middleware (all api ++ matches) ++ [NotFound]) None w,
   params).

End WithRegex.

(** Where [unuse] leaves the routes: without the first one that has the
    path. *)
Fixpoint remove_path (p : string) (l : list Route) : list Route :=
  match l with
  | [] => []
  | r :: rs => if String.eqb (path r) p then rs else r :: remove_path p rs
  end.

(** The world after the functions of a stack have each passed the request
    on. *)
Definition passed_on (call : Fn -> option Error -> World -> World * Next)
    (fs : list Fn) (w : World) : World :=
  fold_left (fun w f => fst (call f None w)) fs w.

End Listener.

(* ===================================================================== *)
(** * Views and static files: [lib/view/index.js], [lib/view/public.js] *)
(* ===================================================================== *)

Module View.

(** [s.slice(0, e)]: a negative [e] counts from the end. *)
Definition slice_to (s : string) (e : Z) : string :=
  let len := Z.of_nat (String.length s) in
  let e := if e <? 0 then Z.max (len + e) 0 else Z.min e len in
  substring 0 (Z.to_nat e) s.

(** The name of a file up to its first dot,
    [file.slice(0, file.indexOf('.'))]: the template name of a view, and
    in [lib/index.js] the name of a page and of a middleware. *)
Definition name_of_file (file : string) : string :=
  slice_to file (indexOf file ".").

(** [this.templateName] of [new View(url, page, json)]. *)
Definition templateName (hostKey template : string) : string :=
  hostKey +:+ name_of_file template.

End View.

Module Public.
Import Router.

(** [s.replace(/\/+$/, '')]. *)
Fixpoint all_slashes (s : string) : bool :=
  match s with
  | EmptyString => true
  | String c s' => Ascii.eqb c "/" && all_slashes s'
  end.

Fixpoint strip_slashes (s : string) : string :=
  match s with
  | EmptyString => ""
  | String c s' => if all_slashes s then "" else String c (strip_slashes s')
  end.

(** [[...new Set(l)]]: the first occurrence of each element, in order. *)
Fixpoint uniq_from (seen l : list string) : list string :=
  match l with
  | [] => []
  | x :: l' =>
      if existsb (String.eqb x) seen then uniq_from seen l'
      else x :: uniq_from (x :: seen) l'
  end.

Definition uniq (l : list string) : list string := uniq_from [] l.

(** [l.join(sep)]. *)
Fixpoint join (sep : string) (l : list string) : string :=
  match l with
  | [] => ""
  | x :: rest =>
      match rest with
      | [] => x
      | _ => x +:+ sep +:+ join sep rest
      end
  end.

(** The text has no [sep] in it. *)
Fixpoint lacks (sep : ascii) (s : string) : bool :=
  match s with
  | EmptyString => true
  | String c s' => negb (Ascii.eqb c sep) && lacks sep s'
  end.

(** [l.map(f)] with a function that may throw. *)
Fixpoint map_res {A B} (f : A -> Res B) (l : list A) : Res (list B) :=
  match l with
  | [] => Ok []
  | x :: xs => let* y := f x in let* ys := map_res f xs in Ok (y :: ys)
  end.

(** An entry of [filteredFiles]. *)
Record File := mkFile {
  file_url : string;
  file_path : string;
  file_ext : string
}.

Section WithUrl.

(** [url.parse(i).pathname], [null] for a URL without a path, and
    [path.extname]. *)
Variable pathname : string -> option string.
Variable extname : string -> string.

Definition file_of (publicPath i : string) : File :=
  {| file_url := i;
     file_path := join "/" (uniq (split "/" publicPath ++ split "/" i));
     file_ext := extname i |}.

Definition stripped (i : string) : Res string :=
  match pathname i with
  | Some p => Ok (strip_slashes p)
  | None => Throw (TypeError "Cannot read property 'replace' of null")
  end.

(** [filteredFiles] of [Public.prototype.init]. *)
Definition filteredFiles (publicPath : string) (files : list string)
  : Res (list File) :=
  let* names := map_res stripped files in
  Ok (map (file_of publicPath)
        (List.filter (fun i => negb (String.eqb i "")) names)).

(** How [init] goes on: with [process] for each file, or with
    [next()]. *)
Inductive Started : Type :=
| Process (files : list File)
| CallsNext.

(** [Public.prototype.init]. *)
Definition init (publicPath : string) (files : list string) : Res Started :=
  let* filtered := filteredFiles publicPath files in
  match filtered with
  | [] => Ok CallsNext
  | _ => Ok (Process filtered)
  end.

End WithUrl.

End Public.

(* ===================================================================== *)
(** * Helpers: [lib/help.js] *)
(* ===================================================================== *)

Module Help.
Import Router.

(** ** [htmlEncode]

    The text is a sequence of UTF-16 code units, which is what the regular
    expression (it has no [u] flag) and [charCodeAt] work on. *)

Section HtmlEncode.

(** Under the [i] flag a code unit also matches the class when its
    canonical form is that of a member of the class; this says so for the
    code units outside the class. *)
Variable folds_into_class : N -> bool.

(** The class [[\u00A0-\u9999<>&]]. *)
Definition in_class (c : N) : bool :=
  ((160 <=? c) && (c <=? 39321) || (c =? 60) || (c =? 62) || (c =? 38))%N.

Definition matches (c : N) : bool := in_class c || folds_into_class c.

Fixpoint digits (d : Decimal.uint) : list N :=
  match d with
  | Decimal.Nil => []
  | Decimal.D0 d => 48%N :: digits d
  | Decimal.D1 d => 49%N :: digits d
  | Decimal.D2 d => 50%N :: digits d
  | Decimal.D3 d => 51%N :: digits d
  | Decimal.D4 d => 52%N :: digits d
  | Decimal.D5 d => 53%N :: digits d
  | Decimal.D6 d => 54%N :: digits d
  | Decimal.D7 d => 55%N :: digits d
  | Decimal.D8 d => 56%N :: digits d
  | Decimal.D9 d => 57%N :: digits d
  end.

(** ['&#' + i.charCodeAt(0) + ';']. *)
Definition entity (c : N) : list N :=
  [38%N; 35%N] ++ digits (N.to_uint c) ++ [59%N].

(** [input.replace(/[\u00A0-\u9999<>&]/gim, ...)]: every code unit that
    matches is replaced by its entity. *)
Definition htmlEncode (input : list N) : list N :=
  flat_map (fun c => if matches c then entity c else [c]) input.

End HtmlEncode.

(** What is safe to leave in markup: not [<], not [>], not in the range
    of the class. *)
Definition plain (c : N) : Prop :=
  c <> 60%N /\ c <> 62%N /\ ~ (160 <= c <= 39321)%N.

(** Every [&] is followed by [#]. *)
Fixpoint ampersands_escaped (l : list N) : bool :=
  match l with
  | [] => true
  | c :: rest =>
      (if (c =? 38)%N
       then match rest with
            | d :: _ => (d =? 35)%N
            | [] => false
            end
       else true)
      && ampersands_escaped rest
  end.

(** ** The [selectFields] mixin *)

(** The function given to [_.map]: [obj[arg] = item[arg]] for every
    [arg] of [args.split(',')]. *)
Definition select_item (fields : list string) (item : JValue) : Res Obj :=
  fold_left
    (fun acc arg =>
       let* obj := acc in
       let* v := Controller.prop item arg in
       Ok (set obj arg v))
    fields (Ok []).

(** [_.selectFields(list, args)]; [args] is [undefined] when the second
    argument is left out, and is only looked at once there is an item. *)
Definition selectFields (items : list JValue) (args : option string)
  : Res (list JValue) :=
  Public.map_res
    (fun item =>
       match args with
       | None => Throw (TypeError "Cannot read property 'split' of undefined")
       | Some a =>
           let* obj := select_item (split "," a) item in Ok (JObj obj)
       end)
    items.

(** What [item[arg]] gives, where it gives something, and the object that
    holds it for each of the fields. *)
Definition value_at (item : JValue) (arg : string) : JValue :=
  match Controller.prop item arg with
  | Ok v => v
  | Throw _ => JUndefined
  end.

Definition pick (item : JValue) (fields : list string) (acc : Obj) : Obj :=
  fold_left (fun obj arg => set obj arg (value_at item arg)) fields acc.

(** ** [clearCache] *)

(** [s.substr(-n) === suffix] for a suffix of [n] characters. *)
Definition ends_with (suffix s : string) : bool :=
  let n := String.length suffix in
  String.eqb (substring (String.length s - n) n s) suffix.

(** [_.extend(dst, src)] on two arrays: the elements of [src] take the
    places of the first elements of [dst]. *)
Definition overwrite {A} (dst src : list A) : list A :=
  src ++ skipn (length src) dst.

Section ClearCache.

(** [crypto.createHash('sha1').update(s).digest('hex')], [path.join] and
    the datasources of the page that
    [Cache().getEndpointMatchingRequest] finds for a URL. *)
Variable sha1 : string -> string.
Variable path_join : string -> string -> string.
Variable endpoint_datasources : string -> Res (list string).

(** The files whose name holds the hash of the datasource. *)
Definition cached_for (files : list string) (datasource : string)
  : list string :=
  List.filter (fun file => -1 <? indexOf file (sha1 datasource)) files.

(** [datasourceCachePaths] after the loop over the datasources. *)
Definition datasourceCachePaths (files datasources : list string)
  : list string :=
  fold_left (fun acc ds => overwrite acc (cached_for files ds)) datasources [].

(** What [clearCache] hands to [cache.flush]: [modelDir], then each of
    [datasourceCachePaths]. *)
Record Flush := mkFlush {
  modelDir : string;
  flushed : list string
}.

(** [clearCache] up to the calls of [cache.flush], for [req.body.path],
    [req.headers.host] and the files of the cache directory. *)
Definition clearCache_targets (pathname host cacheDir : string)
    (files : list string) : Res Flush :=
  if String.eqb pathname "*" then
    Ok {| modelDir := ".*";
          flushed := map (path_join cacheDir)
                       (List.filter (ends_with ".json") files) |}
  else
    let* datasources := endpoint_datasources (host +:+ pathname) in
    Ok {| modelDir := sha1 pathname;
          flushed := datasourceCachePaths files datasources |}.

(** Whether [clearCache] calls back, given which flushes resolve: at
    once without a cache; otherwise once the flush of [modelDir] has
    resolved and there is no file, or once the flush of the last file has
    resolved. *)
Definition clearCache_calls_back (has_cache : bool)
    (resolves : string -> bool) (f : Flush) : bool :=
  if has_cache then
    resolves (modelDir f)
    && match flushed f with
       | [] => true
       | _ => resolves (List.last (flushed f) "")
       end
  else true.

End ClearCache.

(** ** Request validation and the JSON response *)

(** What the helpers read of the configuration. *)
Record HelpConfig := mkHelpConfig {
  auth_clientId : string;
  auth_secret : string;
  server_name : JValue
}.

Section WithStrings.

(** [String.prototype.toLowerCase]. *)
Variable toLowerCase : string -> string.
(** [JSON.stringify(v, null, 2)] and [Buffer.byteLength]. *)
Variable JSON_stringify_pretty : JValue -> string.
Variable byteLength : string -> Z.

Variable config : HelpConfig.

(** [validateRequestMethod(req, res, allowedMethod)]; [req.method] may be
    missing. *)
Definition validateRequestMethod (req_method : option string)
    (allowedMethod : string) (r : Response) : bool * Response :=
  let method := match req_method with
                | Some m => if String.eqb m "" then Some m
                            else Some (toLowerCase m)
                | None => None
                end in
  if negb (str_is method (toLowerCase allowedMethod))
  then (false, end_ None (set_statusCode (JNum 405) r))
  else (true, r).

(** [validateRequestCredentials(req, res)], on [req.body]. *)
Definition validateRequestCredentials (body : JValue) (r : Response)
  : Res (bool * Response) :=
  let* clientId := Controller.prop body "clientId" in
  let* secret := Controller.prop body "secret" in
  if negb (truthy clientId) || negb (truthy secret) then
    Ok (false, end_ None (set_statusCode (JNum 401) r))
  else if negb (is_str clientId (auth_clientId config))
          || negb (is_str secret (auth_secret config)) then
    Ok (false, end_ None (set_statusCode (JNum 401) r))
  else Ok (true, r).

(** The function [sendBackJSON(successCode, res, next)] returns. *)
Definition sendBackJSON (successCode : JValue) (err : option Error)
    (results : JValue) (r : Response) : Response * Next :=
  match err with
  | Some e => (r, CallNext (Some e))
  | None =>
      let resBody := JSON_stringify_pretty results in
      let r := setHeader "Server" (server_name config) r in
      let r := set_statusCode successCode r in
      let r := setHeader "Content-Type" (JStr "application/json") r in
      let r := setHeader "content-length" (JNum (byteLength resBody)) r in
      (end_ (Some resBody) r, NoNext)
  end.

End WithStrings.

End Help.

(* ===================================================================== *)
(** * The server: [lib/index.js] *)
(* ===================================================================== *)

Module Server.
Import Router Help.

(** ** The cache flush endpoint of [loadApi] *)

(** How [help.clearCache] leaves for a request: it throws, it calls back
    (with no error), or it does not call back. *)
Inductive Cleared : Type :=
| ClearThrows (e : Error)
| ClearCallsBack
| ClearPending.

Definition flush_success : JValue :=
  JObj [("result", JStr "success"); ("message", JStr "Succeed to clear")].

Section WithHelpers.

Variable toLowerCase : string -> string.
Variable JSON_stringify_pretty : JValue -> string.
Variable byteLength : string -> Z.
Variable config : HelpConfig.
Variable clearCache : JValue -> Cleared.

(** The handler [loadApi] registers for ['/api/flush']. *)
Definition flush_handler (req_method : option string) (body : JValue)
    (r : Response) : Res (Response * Next) :=
  let (method_ok, r) := validateRequestMethod toLowerCase req_method "POST" r in
  if method_ok then
    let* checked := validateRequestCredentials config body r in
    let (credentials_ok, r) := checked : bool * Response in
    if credentials_ok then
      match clearCache body with
      | ClearThrows e => Throw e
      | ClearCallsBack =>
          Ok (sendBackJSON JSON_stringify_pretty byteLength config (JNum 200)
                None flush_success r)
      | ClearPending => Ok (r, NoNext)
      end
    else Ok (r, CallNext None)
  else Ok (r, CallNext None).

End WithHelpers.

(** ** Pages and middleware by file name *)

Section WithFiles.

(** [path.extname] and [path.join]. *)
Variable extname : string -> string.
Variable path_join : string -> string -> string.

(** The pages [updatePages] hands to [addRoute], as [name] and
    [filepath], for the entries of the directory. *)
Definition updatePages (directoryPath : string) (pages : list string)
  : list (string * string) :=
  map (fun page => (View.name_of_file page, path_join directoryPath page))
    (List.filter (fun page => String.eqb (extname page) ".json") pages).

(** The names of the middleware [loadMiddleware] makes. *)
Definition loadMiddleware (files : list string) : list string :=
  map View.name_of_file
    (List.filter (fun file => String.eqb (extname file) ".js") files).

End WithFiles.

(** ** Components *)

(** An entry of [page.routes]. *)
Record RouteSpec := mkRouteSpec {
  route_path : string;
  constraint : option string
}.

(** A controller, by identity, with the key of its page. *)
Record Component := mkComponent {
  controller : nat;
  page_key : string
}.

(** The argument of [addComponent]: [routes] is missing for a page
    without routes. *)
Record Options := mkOptions {
  routes : option (list RouteSpec);
  component : Component;
  filepath : string
}.

(** What a function made by [addComponent] holds: the one for the index
    route calls the component's method, the one for any other route
    validates the route first. *)
Inductive Closure : Type :=
| IndexHandler (c : Component)
| RouteHandler (c : Component) (route : RouteSpec) (file : string).

(** The server: [this.app], [this.components], the functions
    [addComponent] has made so far, by identity, and the calls of
    [app.Router.constrain].  [components] is the object used as a map
    from route paths; a path is not the name of a property every object
    inherits, which [this.components[path]] would find too. *)
Record Server := mkServer {
  app : Api;
  components : gmap string Component;
  closures : gmap nat Closure;
  made : nat;
  constrained : list (string * string)
}.

Definition Server_new : Server :=
  {| app := Api_new; components := empty; closures := empty; made := 0;
     constrained := [] |}.

(** The routes of a list that have the path. *)
Definition routes_at (p : string) (l : list Route) : list Route :=
  List.filter (fun r => String.eqb (path r) p) l.

(** The closure behind a handler. *)
Definition closure_of (s : Server) (h : Fn) : option Closure :=
  match h with
  | UserFn id _ => closures s !! id
  | DefaultError => None
  end.

Section WithParser.

Variable parse : string -> list Token.

(** [Server.prototype.removeComponent]. *)
Definition removeComponent (route : string) (s : Server) : Server :=
  {| app := unuse (Path route) (app s);
     components := base.delete route (components s);
     closures := closures s; made := made s;
     constrained := constrained s |}.

(** The body of the second [_.each] of [addComponent], for one route. *)
Definition add_route (options : Options) (s : Server) (route : RouteSpec)
  : Server :=
  match components s !! route_path route with
  | Some _ => s
  | None =>
      if String.eqb (route_path route) "/index" then
        {| app := use parse (Path "/") (UserFn (made s) 3) (app s);
           components := <[route_path route := component options]> (components s);
           closures := <[made s := IndexHandler (component options)]> (closures s);
           made := S (made s);
           constrained := constrained s |}
      else
        {| app := use parse (Path (route_path route)) (UserFn (made s) 3) (app s);
           components := <[route_path route := component options]> (components s);
           closures := <[made s := RouteHandler (component options) route
                                     (filepath options)]> (closures s);
           made := S (made s);
           constrained :=
             match constraint route with
             | Some c => if String.eqb c "" then constrained s
                         else constrained s ++ [(route_path route, c)]
             | None => constrained s
             end |}
  end.

(** [Server.prototype.addComponent]. *)
Definition addComponent (options : Options) (reload : bool) (s : Server)
  : Server :=
  match routes options with
  | None => s
  | Some rs =>
      let s := if reload
               then fold_left (fun s r => removeComponent (route_path r) s) rs s
               else s in
      fold_left (add_route options) rs s
  end.

(** The states of a server whose routes all come from [addComponent];
    functions registered without a path are middleware. *)
Inductive Running : Server -> Prop :=
| Running_new : Running Server_new
| Running_middleware f s :
    Running s ->
    Running {| app := use parse (Func f) f (app s);
               components := components s; closures := closures s;
               made := made s; constrained := constrained s |}
| Running_add options reload s :
    Running s -> Running (addComponent options reload s)
| Running_remove route s :
    Running s -> Running (removeComponent route s).

(** What [addComponent] and [removeComponent] keep: the table of
    components and the routes of the router agree on every path but ['/']
    and ['/index']. *)
Definition consistent (s : Server) : Prop :=
  Reachable parse (app s)
  /\ routes_at "/index" (paths (app s)) = []
  /\ Forall (fun r => order r = route_order parse (path r)) (paths (app s))
  /\ (forall id, (made s <= id)%nat -> closures s !! id = None)
  /\ (forall p, p <> "/" -> p <> "/index" ->
        match components s !! p with
        | None => routes_at p (paths (app s)) = []
        | Some c =>
            exists r id route file,
              routes_at p (paths (app s)) = [r]
              /\ handler r = UserFn id 3
              /\ closures s !! id = Some (RouteHandler c route file)
        end).

End WithParser.

End Server.

(* ===================================================================== *)
(** * The initial view data: [buildInitialViewData] of the controller *)
(* ===================================================================== *)

Module ViewData.

(** What [buildInitialViewData] reads of the configuration: [global] is
    [None] when [config.has('global')] is false. *)
Record ViewConfig := mkViewConfig {
  allowJsonView : bool;
  global : option JValue;
  debug : JValue;
  security_csrf : bool
}.

(** What it reads of the request: [url.parse(req.url, true)],
    [req.params], [req.headers.host] and [req.error]. *)
Record ViewRequest := mkViewRequest {
  url_query : Obj;
  url_pathname : string;
  req_params : Obj;
  req_host : JValue;
  req_error : JValue
}.

(** [v.toString() === 'true'] for a value of a parsed query string, a
    string or an array of strings: an array of one string reads as the
    string, a longer one has commas in it. *)
Definition reads_true (v : JValue) : bool :=
  match v with
  | JStr s => String.eqb s "true"
  | JArr [JStr s] => String.eqb s "true"
  | _ => false
  end.

(** [delete o[k][name]] for the object under the key [k]. *)
Definition delete_in (o : Obj) (k name : string) : Obj :=
  match get o k with
  | JObj inner => set o k (JObj (delete inner name))
  | _ => o
  end.

(** An object has each of its keys once. *)
Definition wf (o : Obj) : Prop := List.NoDup (map fst o).

Section WithRequest.

(** [decodeURIComponent], which throws on a malformed escape, and
    [req.csrfToken()]. *)
Variable decodeURIComponent : JValue -> Res JValue.
Variable csrfToken : Res JValue.

(** [Controller.prototype.buildInitialViewData], for the page with this
    name and [this.meta].  The helper functions [has] and [hasResults]
    it puts on the object are functions, not data, and are left out of
    the object. *)
Definition buildInitialViewData (cfg : ViewConfig) (meta : JValue)
    (page_name : string) (req : ViewRequest) : Res Obj :=
  let data := [] in
  let data := set data "query" (JObj (url_query req)) in
  let data := set data "params" (JObj []) in
  let data := set data "pathname" (JStr "") in
  let data := set data "host" (req_host req) in
  let data := set data "page" meta in
  let data := if negb (String.eqb (url_pathname req) "")
              then set data "pathname" (JStr (url_pathname req)) else data in
  let params := extend (extend [] (JObj (req_params req)))
                  (JObj (url_query req)) in
  let data := set data "params" (JObj params) in
  let data := if truthy (req_error req)
              then set data "error" (req_error req) else data in
  let* data :=
    (if truthy (get (req_params req) "id")
     then let* id := decodeURIComponent (get (req_params req) "id") in
          Ok (set data "id" id)
     else Ok data) in
  let json := allowJsonView cfg
              && truthy (get (url_query req) "json")
              && reads_true (get (url_query req) "json") in
  let data := set data "title" (JStr page_name) in
  let data := set data "global"
                (match global cfg with Some g => g | None => JObj [] end) in
  let data := set data "debug" (debug cfg) in
  let data := set data "json" (JBool json) in
  let* data :=
    (if security_csrf cfg
     then let* token := csrfToken in Ok (set data "csrfToken" token)
     else Ok data) in
  let data := delete_in data "query" "json" in
  let data := delete_in data "params" "json" in
  Ok data.

End WithRequest.

End ViewData.

(* ===================================================================== *)
(** * More of the sample application *)
(* ===================================================================== *)

Module Fixtures.
Import Router.

(** Modelled from the spec: path-to-regexp is a package, not part of the
    sources.  This is the matcher it compiles, on the route grammar of
    the design document: literal text matches itself, a key takes one
    segment behind a [/], an optional key may take none, and a trailing
    [/] is allowed. *)
Fixpoint take_segment (s : string) : string * string :=
  match s with
  | EmptyString => ("", "")
  | String c s' =>
      if Ascii.eqb c "/" then ("", s)
      else let (w, r) := take_segment s' in (String c w, r)
  end.

Fixpoint exec_from (tokens : list Token) (s : string)
  : option (list JValue) :=
  match tokens with
  | [] => if String.eqb s "" || String.eqb s "/" then Some [] else None
  | TStr lit :: rest =>
      if String.prefix lit s
      then exec_from rest (substring (String.length lit)
                             (String.length s - String.length lit) s)
      else None
  | TKey k :: rest =>
      let skip := if key_optional k
                  then option_map (cons JUndefined) (exec_from rest s)
                  else None in
      match s with
      | String "/" s' =>
          match take_segment s' with
          | (EmptyString, _) => skip
          | (w, r) => option_map (cons (JStr w)) (exec_from rest r)
          end
      | _ => skip
      end
  end.

Definition execSimple (tokens : list Token) (p : string)
  : option (list JValue) :=
  option_map (cons (JStr p)) (exec_from tokens p).

(** Handlers that pass the request on, and one that fails. *)
Definition failure : Error :=
  {| message := "no session"; statusCode := JNum 403; json := JUndefined |}.

Definition passes (f : Fn) (err : option Error) (w : World) : World * Next :=
  (w, CallNext None).

Definition fails_at (n : nat) (f : Fn) (err : option Error) (w : World)
  : World * Next :=
  match f with
  | UserFn id _ => if Nat.eqb id n then (w, CallNext (Some failure))
                   else (w, CallNext None)
  | DefaultError => (w, NoNext)
  end.

Definition blank : World :=
  {| res := mkResponse JUndefined [] "" false; logged := [] |}.

(** [toLowerCase] on the letters A to Z. *)
Definition lower (c : ascii) : ascii :=
  let n := nat_of_ascii c in
  if ((65 <=? n) && (n <=? 90))%nat then ascii_of_nat (n + 32) else c.

Fixpoint toLowerCase (s : string) : string :=
  match s with
  | EmptyString => ""
  | String c s' => String (lower c) (toLowerCase s')
  end.

(** Two routes: ['/cars'] scores 5, ['/:page'] scores 2. *)
Definition two_routes : Api :=
  use parseSimple (Path "/cars") (UserFn 2 3)
    (use parseSimple (Path "/:page") (UserFn 1 3) Api_new).

Definition page_route : Route :=
  {| rid := 0; path := "/:page"; order := 2; handler := UserFn 1 3;
     regex := parseSimple "/:page" |}.

(** A route with a required and an optional key, and a middleware in
    front of the two routes. *)
Definition cars_route : Route :=
  {| rid := 0; path := "/cars/:make/:model?"; order := 8;
     handler := UserFn 1 3; regex := parseSimple "/cars/:make/:model?" |}.

Definition cars_api : Api :=
  use parseSimple (Path "/cars/:make/:model?") (UserFn 1 3) Api_new.

Definition guarded : Api :=
  use parseSimple (Func (UserFn 7 3)) (UserFn 7 3) two_routes.

Definition help_config : Help.HelpConfig :=
  {| Help.auth_clientId := "web"; Help.auth_secret := "s3cret";
     Help.server_name := JStr "DADI (Web)" |}.

(** The sample environment with an event that reports an error, one that
    never calls back, two that crash after they have called back, [late]
    with an error and [tally] with a result, and a datasource whose
    provider answers with a response object. *)
Definition env : Env :=
  {| Externals.url_query := Externals.url_query Sample.env;
     JSON_parse := JSON_parse Sample.env;
     resolve_placeholders := resolve_placeholders Sample.env;
     Number_ := Number_ Sample.env;
     parseInt_ := parseInt_ Sample.env;
     encodeURIComponent := encodeURIComponent Sample.env;
     replace_placeholder := replace_placeholder Sample.env;
     splice_query := splice_query Sample.env;
     load := fun k =>
       if String.eqb k "jobs"
       then mkLoad None (JObj [("queued", JBool true)])
              (Some (JObj [("statusCode", JNum 202)]))
       else load Sample.env k;
     behaviour := fun ev d =>
       if String.eqb (ev_name ev) "denied"
       then (d, Calls (Some failure) (Value JUndefined) None)
       else if String.eqb (ev_name ev) "stuck" then (d, Silent)
       else if String.eqb (ev_name ev) "late"
       then (d, Calls (Some failure) (Value JUndefined) (Some Sample.crash))
       else if String.eqb (ev_name ev) "tally"
       then (d, Calls None (Value (JObj [("count", JNum 3)]))
                  (Some Sample.crash))
       else behaviour Sample.env ev d;
     checkValue := checkValue Sample.env;
     stats := stats Sample.env;
     version := version Sample.env;
     engineInfo := engineInfo Sample.env;
     template_render := template_render Sample.env |}.

(** What a handler reports. *)
Definition reports (err : option Error) (data : JValue)
    (dsResponse : option JValue) : M unit :=
  emit (Done err data dsResponse).

(** A request for [/cars/bmw?json=true&page=2]. *)
Definition view_request : ViewData.ViewRequest :=
  {| ViewData.url_query := [("json", JStr "true"); ("page", JStr "2")];
     ViewData.url_pathname := "/cars/bmw";
     ViewData.req_params := [("make", JStr "bmw"); ("page", JStr "1")];
     ViewData.req_host := JStr "www.example.com";
     ViewData.req_error := JUndefined |}.

Definition view_config : ViewData.ViewConfig :=
  {| ViewData.allowJsonView := true; ViewData.global := None;
     ViewData.debug := JBool false; ViewData.security_csrf := false |}.

End Fixtures.

(* ===================================================================== *)
(** * Properties *)
(* ===================================================================== *)

Module JsProps.

Lemma get_set_same o k v : get (set o k v) k = v.
Proof.
  induction o as [|[k' v'] o IH]; simpl.
  - now rewrite String.eqb_refl.
  - destruct (String.eqb k' k) eqn:E; simpl; rewrite E; auto.
Qed.

Lemma get_set_other o k k' v : k <> k' -> get (set o k v) k' = get o k'.
Proof.
  intros Hne. induction o as [|[k0 v0] o IH]; simpl.
  - destruct (String.eqb k k') eqn:E; auto.
    apply String.eqb_eq in E. contradiction.
  - destruct (String.eqb k0 k) eqn:E; simpl.
    + apply String.eqb_eq in E. subst k0.
      destruct (String.eqb k k') eqn:E'; auto.
      apply String.eqb_eq in E'. contradiction.
    + now rewrite IH.
Qed.

Lemma has_false_get o k : has o k = false -> get o k = JUndefined.
Proof.
  induction o as [|[k' v'] o IH]; simpl; auto.
  destruct (String.eqb k' k); simpl; [discriminate | auto].
Qed.

End JsProps.
Import JsProps.

Module RouterProps.
Import Router.

Lemma insert_route_In r l x : In x (insert_route r l) <-> x = r \/ In x l.
Proof.
  induction l as [|y ys IH]; simpl.
  - intuition.
  - destruct (order y <=? order r); simpl; [intuition|].
    rewrite IH. intuition.
Qed.

Lemma insert_route_sorted r l :
  StronglySorted desc l -> StronglySorted desc (insert_route r l).
Proof.
  induction 1 as [|y ys Hs IH Hall]; simpl.
  - repeat constructor.
  - destruct (order y <=? order r) eqn:E.
    + apply Z.leb_le in E. constructor; [now constructor|].
      constructor; [exact E|].
      eapply List.Forall_impl; [|exact Hall]. unfold desc. intros; lia.
    + apply Z.leb_gt in E. constructor; [exact IH|].
      apply List.Forall_forall. intros x Hx. apply insert_route_In in Hx.
      destruct Hx as [->|Hx]; [unfold desc; lia|].
      rewrite List.Forall_forall in Hall. now apply Hall.
Qed.

Lemma sort_routes_sorted l : StronglySorted desc (sort_routes l).
Proof.
  induction l; simpl; [constructor | now apply insert_route_sorted].
Qed.

Lemma insert_route_front r l :
  Forall (desc r) l -> insert_route r l = r :: l.
Proof.
  destruct 1 as [|y ys Hy _]; simpl; [reflexivity|].
  unfold desc in Hy. apply Z.leb_le in Hy. now rewrite Hy.
Qed.

Lemma insert_last_In x l y : In y (insert_last x l) <-> y = x \/ In y l.
Proof.
  induction l as [|z zs IH]; simpl.
  - intuition.
  - destruct (order x <=? order z); simpl; [rewrite IH|]; intuition.
Qed.

(** Sorting a sorted list with one route appended only inserts it. *)
Lemma sort_routes_snoc l x :
  StronglySorted desc l -> sort_routes (l ++ [x]) = insert_last x l.
Proof.
  induction 1 as [|y ys Hs IH Hall]; simpl; [reflexivity|].
  rewrite IH. destruct (order x <=? order y) eqn:E.
  - apply Z.leb_le in E. apply insert_route_front.
    apply List.Forall_forall. intros z Hz. apply insert_last_In in Hz.
    destruct Hz as [->|Hz]; [exact E|].
    rewrite List.Forall_forall in Hall. now apply Hall.
  - apply Z.leb_gt in E.
    assert (Hx : insert_last x ys = x :: ys).
    { destruct ys as [|z zs]; simpl; [reflexivity|].
      apply List.Forall_inv in Hall. unfold desc in Hall.
      destruct (order x <=? order z) eqn:E'; [|reflexivity].
      apply Z.leb_le in E'. lia. }
    rewrite Hx. simpl.
    destruct (order x <=? order y) eqn:E'; [apply Z.leb_le in E'; lia|].
    f_equal. now apply insert_route_front.
Qed.

Lemma findWhere_insert_last l x :
  findWhere l (path x) = None -> findWhere (insert_last x l) (path x) = Some x.
Proof.
  induction l as [|y ys IH]; simpl; intros H.
  - now rewrite String.eqb_refl.
  - destruct (String.eqb (path y) (path x)) eqn:E; [discriminate|].
    destruct (order x <=? order y); simpl.
    + rewrite E. now apply IH.
    + now rewrite String.eqb_refl.
Qed.

Lemma without_insert_last l x :
  Forall (fun r => (rid r < rid x)%nat) l ->
  without (insert_last x l) (Some x) = l.
Proof.
  unfold without. induction 1 as [|y ys Hy Hall IH]; simpl.
  - now rewrite Nat.eqb_refl.
  - assert (Ey : Nat.eqb (rid y) (rid x) = false) by (apply Nat.eqb_neq; lia).
    destruct (order x <=? order y); simpl.
    + rewrite Ey. simpl. now rewrite IH.
    + rewrite Nat.eqb_refl, Ey. simpl. f_equal.
      clear -Hall. induction Hall as [|z zs Hz _ IH]; simpl; [reflexivity|].
      assert (Ez : Nat.eqb (rid z) (rid x) = false) by (apply Nat.eqb_neq; lia).
      rewrite Ez. simpl. now rewrite IH.
Qed.

Section WithParser.

Variable parse : string -> list Token.

Lemma remove_first_keeps_default f rest :
  fn_length f = 4%nat ->
  exists rest', remove_first f (DefaultError :: rest) = DefaultError :: rest'.
Proof.
  intros Hf. simpl. destruct (decide (DefaultError = f)) as [<-|_].
  - discriminate.
  - eauto.
Qed.

Lemma StronglySorted_filter (f : Route -> bool) l :
  StronglySorted desc l -> StronglySorted desc (List.filter f l).
Proof.
  induction 1 as [|y ys Hs IH Hall]; simpl; [constructor|].
  destruct (f y); [|exact IH].
  constructor; [exact IH|].
  apply List.Forall_forall. intros z Hz. apply List.filter_In in Hz.
  rewrite List.Forall_forall in Hall. now apply Hall.
Qed.

Lemma Reachable_well_formed api : Reachable parse api -> well_formed api.
Proof.
  induction 1 as [|t h api _ (Hs & Hid & rest & He)|t api _ (Hs & Hid & rest & He)].
  - repeat split; simpl; [constructor|constructor|eauto].
  - destruct t as [p|f]; simpl.
    + repeat split; simpl.
      * apply sort_routes_sorted.
      * rewrite sort_routes_snoc by exact Hs.
        apply List.Forall_forall. intros x Hx. apply insert_last_In in Hx.
        destruct Hx as [->|Hx]; simpl; [lia|].
        rewrite List.Forall_forall in Hid. specialize (Hid x Hx). lia.
      * eauto.
    + destruct (Nat.eqb (fn_length f) 4); repeat split; simpl; eauto.
      rewrite He. simpl. eauto.
  - destruct t as [p|f]; simpl.
    + repeat split; simpl; eauto.
      * destruct (findWhere (paths api) p); simpl; [|exact Hs].
        now apply StronglySorted_filter.
      * destruct (findWhere (paths api) p); simpl; [|exact Hid].
        apply List.Forall_forall. intros x Hx. apply List.filter_In in Hx.
        rewrite List.Forall_forall in Hid. now apply Hid.
    + destruct (Nat.eqb (fn_length f) 4) eqn:E; repeat split; simpl; eauto.
      rewrite He. apply remove_first_keeps_default. now apply Nat.eqb_eq.
Qed.

(** The score of a pattern in which ['/config'] does not occur past the
    first character. *)
Lemma route_order_formula p :
  indexOf p "/config" <= 0 ->
  route_order parse p
  = staticRouteLength (parse p) * 5
    + requiredParamLength (regex_keys (parse p)) * 2
    + optionalParamLength (regex_keys (parse p)).
Proof.
  intros H. unfold route_order.
  destruct (0 <? indexOf p "/config") eqn:E; [|reflexivity].
  apply Z.ltb_lt in E. lia.
Qed.

Lemma route_order_nonneg p :
  indexOf p "/config" <= 0 -> 0 <= route_order parse p.
Proof.
  intros H. rewrite route_order_formula by exact H.
  unfold staticRouteLength, requiredParamLength, optionalParamLength.
  destruct (parse p) as [|[s|k] ts]; lia.
Qed.

Lemma route_order_config p :
  0 < indexOf p "/config" -> route_order parse p = -10.
Proof.
  intros H. unfold route_order. apply Z.ltb_lt in H. now rewrite H.
Qed.

(** After a registration the routes are in descending order, and a route
    registered into a sorted list lands behind the routes that tie. *)
Lemma use_sorted t h api : StronglySorted desc (paths api) ->
  StronglySorted desc (paths (use parse t h api)).
Proof.
  intros Hs. destruct t as [p|f]; simpl; [apply sort_routes_sorted|].
  now destruct (Nat.eqb (fn_length f) 4).
Qed.

(** C3 (as amended): registering a path that no route of the list has yet
    and then unregistering it restores the route list exactly. *)
Theorem use_unuse_restores api p h :
  Reachable parse api ->
  findWhere (paths api) p = None ->
  paths (unuse (Path p) (use parse (Path p) h api)) = paths api.
Proof.
  intros Hr Hnone. apply Reachable_well_formed in Hr.
  destruct Hr as (Hs & Hid & _). simpl.
  rewrite sort_routes_snoc by exact Hs.
  pose (r := {| rid := allocated api; path := p; order := route_order parse p;
                handler := h; regex := parse p |}).
  pose proof (findWhere_insert_last (paths api) r Hnone) as Hf.
  pose proof (without_insert_last (paths api) r Hid) as Hw.
  unfold r in Hf, Hw. simpl path in Hf. rewrite Hf. exact Hw.
Qed.

End WithParser.

(** The witness of C3: a fresh path on a router that holds one route. *)
Lemma use_unuse_restores_witness :
  paths (unuse (Path "/a")
           (use parseSimple (Path "/a") (UserFn 2 3)
              (use parseSimple (Path "/b/:id") (UserFn 1 3) Api_new)))
  = paths (use parseSimple (Path "/b/:id") (UserFn 1 3) Api_new).
Proof.
  apply (use_unuse_restores parseSimple
           (use parseSimple (Path "/b/:id") (UserFn 1 3) Api_new) "/a" (UserFn 2 3)).
  - apply Reachable_use, Reachable_new.
  - reflexivity.
Defined.

(** C3 (as stated) fails when the path is already registered: [unuse]
    looks the route up by path alone and removes the older entry, so the
    list ends up holding the new handler instead of the prior one. *)
Lemma use_unuse_registered_path :
  map handler (paths (use parseSimple (Path "/a") (UserFn 1 3) Api_new))
  = [UserFn 1 3]
  /\ map handler
       (paths (unuse (Path "/a")
                 (use parseSimple (Path "/a") (UserFn 2 3)
                    (use parseSimple (Path "/a") (UserFn 1 3) Api_new))))
     = [UserFn 2 3]
  /\ paths (unuse (Path "/a")
              (use parseSimple (Path "/a") (UserFn 2 3)
                 (use parseSimple (Path "/a") (UserFn 1 3) Api_new)))
     <> paths (use parseSimple (Path "/a") (UserFn 1 3) Api_new).
Proof.
  repeat split; try reflexivity.
  vm_compute. discriminate.
Qed.

(** C2 at the path ['/config']: [path.indexOf('/config')] is 0 there, the
    test [> 0] fails, the pattern keeps its computed score 5 and sorts in
    front of the non-config pattern ['/:page'] (score 2). *)
Theorem use_config_at_root_keeps_score :
  indexOf "/config" "/config" = 0
  /\ route_order parseSimple "/config" = 5
  /\ map (fun r => (path r, order r))
       (paths (use parseSimple (Path "/config") (UserFn 2 3)
                 (use parseSimple (Path "/:page") (UserFn 1 3) Api_new)))
     = [("/config", 5); ("/:page", 2)].
Proof. repeat split; reflexivity. Qed.

Section WithHandlers.

Variable parse : string -> list Token.
Variable JSON_stringify : JValue -> string.
Variable byteLength : string -> Z.
Variable call : Fn -> option Error -> World -> World * Next.

(** The handler at the head of the error chain is the default one, and
    no registration or removal changes that. *)
Lemma errors_head_default api :
  Reachable parse api -> exists rest, errors api = DefaultError :: rest.
Proof. intros H. now apply Reachable_well_formed in H as (_ & _ & ?). Qed.

(** A continuation called with an error goes to the error chain. *)
Lemma doStack_error errs stack e w :
  doStack JSON_stringify byteLength call errs stack (Some e) w
  = errStack JSON_stringify byteLength call errs (Some e) w.
Proof. now destruct stack. Qed.

(** C7: in every state of the router the error chain holds the default
    handler, which ends the chain: the status is the error's [statusCode]
    when it has one and 500 otherwise, the body is the serialized [json]
    payload when it has one and empty otherwise, and the response is
    ended. *)
Theorem defaultError_ends_chain api err w :
  Reachable parse api ->
  http_error err ->
  exists w',
    errStack JSON_stringify byteLength call (errors api) (Some err) w = Ok w'
    /\ res_statusCode (res w')
       = match statusCode err with JUndefined => JNum 500 | sc => sc end
    /\ res_body (res w')
       = match json err with
         | JUndefined => res_body (res w)
         | j => res_body (res w) +:+ JSON_stringify j
         end
    /\ res_ended (res w') = true
    /\ logged w' = logged w ++ [err].
Proof.
  intros Hr [Hsc Hj]. destruct (errors_head_default api Hr) as [rest ->].
  exists (defaultError JSON_stringify byteLength err w). split; [reflexivity|].
  unfold defaultError.
  assert (Hstatus : or_ (statusCode err) (JNum 500)
                    = match statusCode err with JUndefined => JNum 500 | sc => sc end).
  { destruct Hsc as [->|(n & -> & Hn)]; [reflexivity|].
    unfold or_. simpl. destruct (n =? 0) eqn:E; [|reflexivity].
    apply Z.eqb_eq in E. lia. }
  destruct Hj as [Hu|[[o Ho]|[l Hl]]].
  - rewrite Hu. simpl. now rewrite Hstatus.
  - rewrite Ho. simpl. now rewrite Hstatus.
  - rewrite Hl. simpl. now rewrite Hstatus.
Qed.

(** A status code of 0 and a payload that is not an object or an array
    are outside [http_error]: the handler falls back to 500 and to an
    empty body for every status and payload that is falsy. *)
Lemma defaultError_falsy err w :
  truthy (statusCode err) = false ->
  truthy (json err) = false ->
  res (defaultError JSON_stringify byteLength err w)
  = end_ None (set_statusCode (JNum 500) (res w)).
Proof.
  intros Hs Hj. unfold defaultError, or_. now rewrite Hs, Hj.
Qed.

End WithHandlers.

(** The witness of C7: a 404 error with a JSON payload on a new router. *)
Lemma defaultError_ends_chain_witness :
  exists w',
    errStack (fun _ => "{}") (fun _ => 2) (fun _ _ w => (w, NoNext))
      (errors Api_new)
      (Some (mkError "not found" (JNum 404) (JObj [("ok", JBool false)])))
      (mkWorld (mkResponse JUndefined [] "" false) []) = Ok w'
    /\ res_statusCode (res w') = JNum 404
    /\ res_body (res w') = "{}"
    /\ res_ended (res w') = true
    /\ logged w'
       = [mkError "not found" (JNum 404) (JObj [("ok", JBool false)])].
Proof.
  apply (defaultError_ends_chain parseSimple (fun _ => "{}") (fun _ => 2)
           (fun _ _ w => (w, NoNext)) Api_new
           (mkError "not found" (JNum 404) (JObj [("ok", JBool false)]))
           (mkWorld (mkResponse JUndefined [] "" false) [])).
  - apply Reachable_new.
  - split; simpl.
    + right. exists 404. split; [reflexivity | lia].
    + right. left. now eexists.
Defined.

End RouterProps.

Module DatasourceCacheProps.
Import DatasourceCache.

(** ** The options in force for a datasource *)

Lemma is_on_true b : is_on b = true <-> b = Some true.
Proof. destruct b as [[|]|]; simpl; intuition congruence. Qed.

Lemma is_false_true b : is_false b = true <-> b = Some false.
Proof. destruct b as [[|]|]; simpl; intuition congruence. Qed.

(** [_.extend] puts the blocks of the datasource over those of the
    cache. *)
Lemma extend_options_of o ds :
  extend_options o (default (mkCachingBlock None None) (schema_caching ds))
  = {| directory := directory_of o ds; redis := redis_of o ds |}.
Proof.
  unfold extend_options, directory_of, redis_of.
  destruct (schema_caching ds) as [[[d|] [r|]]|]; reflexivity.
Qed.

(** A directory block without a path is replaced by one that has the
    path of the configuration and no [enabled] flag. *)
Lemma getOptions_directory cfg o ds :
  is_on (dir_enabled (directory (getOptions cfg o ds)))
  = is_on (dir_enabled (directory_of o ds))
    && negb (isBlank (dir_path (directory_of o ds))).
Proof.
  unfold getOptions. rewrite extend_options_of. simpl.
  destruct (isBlank (dir_path (directory_of o ds))); simpl.
  - now rewrite andb_false_r.
  - now rewrite andb_true_r.
Qed.

Lemma getOptions_redis cfg o ds :
  redis (getOptions cfg o ds) = redis_of o ds.
Proof.
  unfold getOptions. rewrite extend_options_of. simpl.
  now destruct (isBlank (dir_path (directory_of o ds))).
Qed.

Lemma query_disables_false url_query ds :
  query_disables url_query ds = false
  <-> forall endpoint,
        provider_endpoint ds = Some endpoint ->
        get (url_query endpoint) "cache" <> JStr "false".
Proof.
  unfold query_disables. destruct (provider_endpoint ds) as [endpoint|].
  - destruct (get (url_query endpoint) "cache") as [| |b|n| |s|l|f] eqn:E;
      simpl; try (split; [intros _ ? [= <-]; rewrite E; discriminate
                         | reflexivity]).
    + split; [intros _ ? [= <-]; rewrite E; discriminate|].
      intros _. apply andb_false_r.
    + split; [intros _ ? [= <-]; rewrite E; discriminate|].
      intros _. apply andb_false_r.
    + destruct (String.eqb s "false") eqn:Es.
      * apply String.eqb_eq in Es. subst s. simpl. split; [discriminate|].
        intros H. now destruct (H endpoint eq_refl).
      * rewrite andb_false_r. split; [|reflexivity].
        intros _ ? [= <-]. rewrite E. intros [= ->].
        now rewrite String.eqb_refl in Es.
  - split; [discriminate | reflexivity].
Qed.

(** C9 (as amended): a cache made from the configuration, whatever
    options it holds, treats caching as enabled for a datasource exactly
    when the configuration does not set both stores to disabled; the
    directory store of the datasource is enabled and has a path that is
    not blank, or its redis store is enabled, each store being that of
    the datasource's own caching block where the block has it and that of
    the cache's options otherwise; the process is not in debug mode; the
    query string of the provider's endpoint does not carry [cache=false];
    and the source type is not [static]. *)
Theorem cachingEnabled_iff
    (url_query : string -> Obj) (cfg : Config) (o : CacheOptions)
    (ds : CachedDatasource) :
  fst (cachingEnabled url_query cfg (cache_with cfg o) ds) = true
  <-> (~ (dir_enabled (directory (caching cfg)) = Some false
          /\ redis_enabled (redis (caching cfg)) = Some false)
       /\ (dir_enabled (directory_of o ds) = Some true
           /\ isBlank (dir_path (directory_of o ds)) = false
           \/ redis_enabled (redis_of o ds) = Some true)
       /\ debug cfg = false
       /\ (forall endpoint,
             provider_endpoint ds = Some endpoint ->
             get (url_query endpoint) "cache" <> JStr "false")
       /\ source_type ds <> "static").
Proof.
  unfold cachingEnabled, cache_with, DatasourceCache_new.
  cbn [fst enabled cacheOptions].
  rewrite getOptions_directory, getOptions_redis.
  rewrite <- query_disables_false, <- String.eqb_neq.
  rewrite <- !is_on_true, <- !is_false_true.
  destruct (is_false (dir_enabled (directory (caching cfg)))),
    (is_false (redis_enabled (redis (caching cfg)))),
    (debug cfg), (query_disables url_query ds),
    (String.eqb (source_type ds) "static"),
    (is_on (dir_enabled (directory_of o ds))),
    (isBlank (dir_path (directory_of o ds))),
    (is_on (redis_enabled (redis_of o ds)));
    simpl; intuition congruence.
Qed.

(** The options the gate leaves in the cache are the merged ones: the
    block of one datasource stays in force for the next call. *)
Lemma cachingEnabled_keeps_options url_query cfg this ds :
  cacheOptions (snd (cachingEnabled url_query cfg this ds))
  = getOptions cfg (cacheOptions this) ds.
Proof. reflexivity. Qed.

(** Without a caching block of its own, and with a directory path in the
    options, a datasource is gated by the cache's options as they are. *)
Lemma getOptions_no_block cfg o ds :
  schema_caching ds = None ->
  isBlank (dir_path (directory o)) = false ->
  getOptions cfg o ds = o.
Proof.
  intros Hb Hp. unfold getOptions. rewrite Hb. simpl.
  unfold extend_options. simpl. rewrite Hp. now destruct o.
Qed.

(** C9 (as stated) fails for a datasource with a caching block of its
    own.  Where the block turns the directory store off, a store is
    enabled in the configuration, the process is not in debug mode, the
    endpoint has no query string and the source is not static, and yet
    caching is not enabled.  Where the configuration turns both stores off
    and the block turns the directory store on, a store is enabled in the
    options in force for the datasource, and caching is not enabled
    either. *)
Lemma cachingEnabled_block_disables :
  (cachingEnabled_as_specified Sample.query_of
     (mkConfig false (mkCacheOptions (mkDir (Some true) (Some "./cache/web"))
                        (mkRedis (Some false))))
     (mkCachedDatasource (Some "http://127.0.0.1:3000/1.0/cars/makes") "dadiapi"
        (Some (mkCachingBlock (Some (mkDir (Some false) (Some "./cache/web")))
                 None)))
   = true
   /\ fst (cachingEnabled Sample.query_of
             (mkConfig false (mkCacheOptions (mkDir (Some true) (Some "./cache/web"))
                                (mkRedis (Some false))))
             (DatasourceCache_new
                (mkConfig false (mkCacheOptions (mkDir (Some true) (Some "./cache/web"))
                                   (mkRedis (Some false)))))
             (mkCachedDatasource (Some "http://127.0.0.1:3000/1.0/cars/makes")
                "dadiapi"
                (Some (mkCachingBlock (Some (mkDir (Some false) (Some "./cache/web")))
                         None))))
      = false)
  /\ (is_on (dir_enabled (directory
               (getOptions
                  (mkConfig false (mkCacheOptions (mkDir (Some false) (Some "./cache/web"))
                                     (mkRedis (Some false))))
                  (mkCacheOptions (mkDir (Some false) (Some "./cache/web"))
                     (mkRedis (Some false)))
                  (mkCachedDatasource (Some "http://127.0.0.1:3000/1.0/cars/makes")
                     "dadiapi"
                     (Some (mkCachingBlock
                              (Some (mkDir (Some true) (Some "./cache/web")))
                              None))))))
      = true
      /\ query_disables Sample.query_of
           (mkCachedDatasource (Some "http://127.0.0.1:3000/1.0/cars/makes")
              "dadiapi"
              (Some (mkCachingBlock (Some (mkDir (Some true) (Some "./cache/web")))
                       None)))
         = false
      /\ fst (cachingEnabled Sample.query_of
                (mkConfig false (mkCacheOptions (mkDir (Some false) (Some "./cache/web"))
                                   (mkRedis (Some false))))
                (DatasourceCache_new
                   (mkConfig false (mkCacheOptions (mkDir (Some false) (Some "./cache/web"))
                                      (mkRedis (Some false)))))
                (mkCachedDatasource (Some "http://127.0.0.1:3000/1.0/cars/makes")
                   "dadiapi"
                   (Some (mkCachingBlock (Some (mkDir (Some true) (Some "./cache/web")))
                            None))))
         = false).
Proof. repeat split; reflexivity. Qed.

End DatasourceCacheProps.

Module DatasourceProps.
Import Datasource.

(** The alias of [page] is looked up under the key an object converts to,
    so the route parameter it names is never read: when the route has no
    parameter of that name the page is the query's, else the route's
    [page], else 1. *)
Lemma resolve_page_without_alias rps query reqParams :
  has reqParams object_as_key = false ->
  resolve_page rps query reqParams
  = or_ (get query "page") (or_ (get reqParams "page") (JNum 1)).
Proof.
  intros H. unfold resolve_page. rewrite (has_false_get _ _ H).
  destruct (find_page_param rps); reflexivity.
Qed.

Lemma deref_store_other h f o l : l <> f -> deref (store h f o) l = deref h l.
Proof. intros. unfold deref, store. simpl. now rewrite lookup_insert_ne. Qed.

Lemma deref_store_same h f o : deref (store h f o) f = o.
Proof. unfold deref, store. simpl. now rewrite lookup_insert_eq. Qed.

Lemma apply_requestParam_elsewhere env reqParams f l acc obj :
  l <> f ->
  deref (fst (apply_requestParam env reqParams f acc obj)) l = deref (fst acc) l.
Proof.
  intros Hne. destruct acc as [h endpoint]. unfold apply_requestParam.
  repeat match goal with
         | |- context [if ?b then _ else _] => destruct b
         end; simpl; auto using deref_store_other.
Qed.

Lemma fold_requestParams_elsewhere env reqParams f l rps acc :
  l <> f ->
  deref (fst (fold_left (apply_requestParam env reqParams f) rps acc)) l
  = deref (fst acc) l.
Proof.
  intros Hne. revert acc.
  induction rps as [|obj rps IH]; intros acc; simpl; [reflexivity|].
  rewrite IH. now apply apply_requestParam_elsewhere.
Qed.

Lemma merge_query_filter env this req query dp h r :
  merge_query env this req query dp h = Ok r -> filter (fst r) = filter dp.
Proof.
  unfold merge_query.
  destruct (has _ "filter").
  - destruct (JSON_parse env _); simpl; [|discriminate].
    intros [= <-]. simpl. now destruct (truthy (paginate dp)).
  - intros [= <-]. simpl. now destruct (truthy (paginate dp)).
Qed.

Lemma resolve_filter_elsewhere env this req dp h r l :
  resolve_filter env this req dp h = Ok r ->
  (l < next h)%nat ->
  deref (snd (fst r)) l = deref h l.
Proof.
  unfold resolve_filter. intros H Hlt.
  destruct (resolve_placeholders env _ _) as [resolved|]; simpl in H;
    [|discriminate].
  unfold alloc in H.
  match type of H with
  | context [fold_left ?f ?rps ?acc] =>
      pose proof (fold_requestParams_elsewhere env (params req) (next h) l rps acc)
        as Hfold;
      destruct (fold_left f rps acc) as [h1 endpoint]
  end.
  assert (Hne : l <> next h) by lia. specialize (Hfold Hne).
  injection H as <-. simpl in *.
  transitivity (deref h1 l).
  - destruct (truthy _); [now apply deref_store_other | reflexivity].
  - rewrite Hfold. unfold deref. simpl. now rewrite lookup_insert_ne.
Qed.

(** A [filter] in the query string of a request the gate lets through is
    written into the object [originalFilter] names: the template of every
    later request. *)
Lemma processRequest_extends_originalFilter env this h datasource req parsed r :
  passFilters (ds_page this) = true ->
  get (params req) "id" = JUndefined ->
  get (url_query env (url req)) "id" = JUndefined ->
  has (url_query env (url req)) "filter" = true ->
  JSON_parse env (get (url_query env (url req)) "filter") = Ok parsed ->
  (originalFilter this < next h)%nat ->
  processRequest env this h datasource req = Ok r ->
  deref (snd (fst r)) (originalFilter this)
  = extend (deref h (originalFilter this)) parsed.
Proof.
  intros Hgate Hid1 Hid2 Hhas Hparse Hlt. unfold processRequest.
  set (query := url_query env (url req)) in *.
  set (this' := if passHeaders (ds_page this) then _ else this).
  assert (Hg : page_gate this' datasource = true).
  { unfold page_gate, this'. destruct (passHeaders (ds_page this)); simpl;
      rewrite Hgate; apply orb_true_r. }
  rewrite Hg.
  assert (Hm : merge_query env this' req query (clone_params this query) h
               = Ok (if truthy (paginate (clone_params this query))
                     then set_page (resolve_page (requestParams (schema this'))
                                      query (params req))
                            (clone_params this query)
                     else clone_params this query,
                     store h (originalFilter this)
                       (extend (deref h (originalFilter this)) parsed))).
  { unfold merge_query. rewrite Hid1, Hid2. simpl. rewrite Hhas, Hparse. simpl.
    assert (Hf : filter (clone_params this query) = originalFilter this).
    { unfold clone_params. now destruct (_ && _). }
    destruct (truthy (paginate (clone_params this query))); simpl;
      now rewrite Hf. }
  rewrite Hm. simpl bind. intros Hr.
  rewrite (resolve_filter_elsewhere _ _ _ _ _ _ (originalFilter this) Hr)
    by exact Hlt.
  apply deref_store_same.
Qed.

(** C8 on a route [/cars/:p] whose parameter [p] is declared the alias
    of [page]: for the request [/cars/3], with no [page] in the query
    string, the provider is given page 1, not 3. *)
Theorem processRequest_page_alias_unread :
  find_page_param [Sample.page_alias] = Some Sample.page_alias
  /\ page_gate (Sample.datasource_at 0 "cars" [Sample.page_alias]) "cars" = true
  /\ match processRequest Sample.env
             (Sample.datasource_at 0 "cars" [Sample.page_alias])
             Sample.heap0 "cars"
             (mkRequest "/cars/3" [("p", JStr "3")] JUndefined) with
     | Ok (_, _, datasourceParams) => page datasourceParams = JNum 1
     | Throw _ => False
     end.
Proof. repeat split. Qed.

End DatasourceProps.

Module ControllerProps.
Import Datasource Controller.

(** ** The monad *)

Lemma trace_bind {A B} (m : M A) (k : A -> M B) st :
  trace (bindM m k) st
  = trace m st ++ match snd (m st) with
                  | Ret a st' => trace (k a) st'
                  | Raise _ _ => []
                  end.
Proof.
  unfold trace, bindM. destruct (m st) as [tr [a st'|e st']]; simpl.
  - now destruct (k a st').
  - now rewrite app_nil_r.
Qed.

Lemma bindM_assoc {A B C} (m : M A) (k : A -> M B) (k' : B -> M C) st :
  bindM (bindM m k) k' st = bindM m (fun a => bindM (k a) k') st.
Proof.
  unfold bindM. destruct (m st) as [tr [a st'|e st']]; [|reflexivity].
  destruct (k a st') as [tr' [b st''|e st'']]; [|reflexivity].
  destruct (k' b st'') as [tr'' r]. now rewrite app_assoc.
Qed.

Lemma bindM_ret_l {A B} (a : A) (k : A -> M B) st : bindM (ret a) k st = k a st.
Proof. unfold bindM, ret. now destruct (k a st). Qed.

Lemma prefixed_nil {A} (x : list Effect * Result A) : prefixed [] x = x.
Proof. now destruct x. Qed.

Lemma prefixed_app {A} t1 t2 (x : list Effect * Result A) :
  prefixed t1 (prefixed t2 x) = prefixed (t1 ++ t2) x.
Proof. unfold prefixed. simpl. now rewrite app_assoc. Qed.

Lemma bindM_run {A B} (m : M A) (f : A -> M B) st tr a st' :
  m st = (tr, Ret a st') -> bindM m f st = prefixed tr (f a st').
Proof.
  intros H. unfold bindM, prefixed. rewrite H. now destruct (f a st').
Qed.

Lemma bindM_ext_on {A B} (m : M A) (k k' : A -> M B) st :
  (forall tr a st', m st = (tr, Ret a st') -> k a st' = k' a st') ->
  bindM m k st = bindM m k' st.
Proof.
  intros H. unfold bindM. destruct (m st) as [tr [a st'|e st']]; [|reflexivity].
  now rewrite (H tr a st' eq_refl).
Qed.

Lemma bindM_ext {A B} (m : M A) (k k' : A -> M B) st :
  (forall a st', k a st' = k' a st') -> bindM m k st = bindM m k' st.
Proof. intros H. apply bindM_ext_on. intros. apply H. Qed.

Lemma bindM_prefixed {A B} (m m' : M A) (k : A -> M B) st st1 tr :
  m st = prefixed tr (m' st1) ->
  bindM m k st = prefixed tr (bindM m' k st1).
Proof.
  intros H. unfold bindM, prefixed in *. rewrite H.
  destruct (m' st1) as [t [a s|e s]]; simpl; [|reflexivity].
  destruct (k a s). simpl. now rewrite app_assoc.
Qed.

Lemma bindM_emit {B} e (k : unit -> M B) st :
  bindM (emit e) k st = prefixed [e] (k tt st).
Proof. now apply bindM_run. Qed.

Lemma bindM_raise {A B} (m : M A) (f : A -> M B) st tr e st' :
  m st = (tr, Raise e st') -> bindM m f st = (tr, Raise e st').
Proof. intros H. unfold bindM. now rewrite H. Qed.

(** ** The gating check *)

Lemma index_key_not_results i : String.eqb (index_key i) "results" = false.
Proof.
  unfold index_key, NilZero.string_of_uint.
  destruct (Nat.to_uint i); reflexivity.
Qed.

Lemma key_index_results n : key_index n "results" = None.
Proof.
  unfold key_index. generalize 0%nat.
  induction n as [|n IH]; intros i; simpl; [reflexivity|].
  now rewrite index_key_not_results.
Qed.

Lemma every_true p l :
  every p l = Ok true <-> Forall (fun k => p k = Ok true) l.
Proof.
  induction l as [|x xs IH]; simpl.
  - split; [constructor | reflexivity].
  - destruct (p x) as [[|]|e] eqn:E; simpl.
    + rewrite IH. split; [now constructor | now inversion 1].
    + split; [discriminate | inversion 1; congruence].
    + split; [discriminate | inversion 1; congruence].
Qed.

Lemma required_present_true data k :
  required_present (JObj data) k = Ok true <-> has_results data k = true.
Proof.
  unfold required_present, has_results. simpl.
  destruct (has data k); simpl; [|split; discriminate].
  destruct (get data k) as [| |b|n| |s|l|o]; simpl;
    rewrite ?key_index_results; simpl; try (split; discriminate).
  destruct (has o "results"); simpl; [|split; discriminate].
  destruct (get o "results") as [| |b|n| |s|l|o']; simpl;
    try (split; (discriminate || reflexivity)).
  - destruct s; simpl; split; (discriminate || reflexivity).
  - destruct l; simpl; split; (discriminate || reflexivity).
  - destruct (get o' "length") as [| |b|[|n|n]| |s|l|o'']; simpl;
      split; (discriminate || reflexivity).
Qed.

(** Where the check throws: at a key that holds [undefined] or [null],
    or an object whose [results] is [undefined] or [null]. *)
Lemma required_present_throws data k e :
  required_present (JObj data) k = Throw e ->
  has data k = true
  /\ (get data k = JUndefined \/ get data k = JNull
      \/ exists o, get data k = JObj o /\ has o "results" = true
                   /\ (get o "results" = JUndefined \/ get o "results" = JNull)).
Proof.
  unfold required_present. simpl.
  destruct (has data k); simpl; [|discriminate].
  intros H. split; [reflexivity|].
  destruct (get data k) as [| |b|n| |s|l|o]; simpl in H;
    rewrite ?key_index_results in H; simpl in H;
    try discriminate; auto.
  right. right. exists o. split; [reflexivity|].
  destruct (has o "results"); simpl in H; [|discriminate].
  split; [reflexivity|].
  destruct (get o "results") as [| |b|n| |s|l|o']; simpl in H;
    try discriminate; auto.
Qed.

Lemma process_loaded_absent env self json_view status err data dsResponse st :
  requiredDataPresent (requiredDatasources (page self)) data = Ok false ->
  process_loaded env self json_view status err data dsResponse st
  = ([Next None], Ret tt st).
Proof. intros H. unfold process_loaded. rewrite H. reflexivity. Qed.

Lemma process_loaded_throws env self json_view status err data dsResponse st e :
  requiredDataPresent (requiredDatasources (page self)) data = Throw e ->
  process_loaded env self json_view status err data dsResponse st
  = ([], Raise e st).
Proof. intros H. unfold process_loaded. rewrite H. reflexivity. Qed.

(** With an error [loadData] hands over no data set, and the check reads
    the first required key from it. *)
Lemma process_loaded_no_data env self json_view status err dsResponse st :
  requiredDatasources (page self) <> [] ->
  process_loaded env self json_view status err JUndefined dsResponse st
  = ([], Raise (TypeError "Cannot read property 'hasOwnProperty' of undefined")
           st).
Proof.
  intros H. apply process_loaded_throws. unfold requiredDataPresent.
  destruct (requiredDatasources (page self)); [contradiction | reflexivity].
Qed.

(** C4 (as amended): on a data set, the check passes exactly when every
    required key is in it with an object that has [results] with a
    [length] that is not 0, which a non-empty list has and so has an
    object or a number; it throws only at a key that holds [undefined] or
    [null] or whose [results] is [undefined] or [null].  Whenever the
    check fails, the callback of [process] calls [next()] and does
    nothing else: it sends no response and hands no error on; whenever
    the check throws, so does the callback, which then has called nothing
    and sent nothing. *)
Theorem required_data_gates_render env self json_view status :
  (forall data,
     requiredDataPresent (requiredDatasources (page self)) (JObj data) = Ok true
     <-> forallb (has_results data) (requiredDatasources (page self)) = true)
  /\ (forall data e,
        requiredDataPresent (requiredDatasources (page self)) (JObj data)
        = Throw e ->
        exists k,
          In k (requiredDatasources (page self)) /\ has data k = true
          /\ (get data k = JUndefined \/ get data k = JNull
              \/ exists o,
                   get data k = JObj o /\ has o "results" = true
                   /\ (get o "results" = JUndefined
                       \/ get o "results" = JNull)))
  /\ (forall err data dsResponse st,
        requiredDataPresent (requiredDatasources (page self)) data = Ok false ->
        process_loaded env self json_view status err data dsResponse st
        = ([Next None], Ret tt st))
  /\ (forall err data dsResponse st e,
        requiredDataPresent (requiredDatasources (page self)) data = Throw e ->
        process_loaded env self json_view status err data dsResponse st
        = ([], Raise e st)).
Proof.
  split; [|split; [|split]].
  - intros data. unfold requiredDataPresent.
    destruct (requiredDatasources (page self)) as [|k0 ks] eqn:Er.
    + split; reflexivity.
    + rewrite every_true, forallb_forall, List.Forall_forall.
      split; intros H k Hk; apply required_present_true; now apply H.
  - intros data e. unfold requiredDataPresent.
    destruct (requiredDatasources (page self)) as [|k0 ks]; [discriminate|].
    generalize (k0 :: ks). intros l. induction l as [|k l IH]; [discriminate|].
    simpl. destruct (required_present (JObj data) k) as [[|]|e'] eqn:Ek; simpl.
    + intros H. destruct (IH H) as (k' & Hin & Hk'). exists k'. auto.
    + discriminate.
    + intros _. exists k. split; [now left|].
      now apply (required_present_throws data k e').
  - intros. now apply process_loaded_absent.
  - intros. now apply process_loaded_throws.
Qed.

(** The witness of C4: a page that requires [reviews], a data set in
    which [reviews] came back without results, and one in which the key
    is missing. *)
Lemma required_data_gates_render_witness :
  (requiredDataPresent ["reviews"]
     (JObj [("reviews", JObj [("results", JArr [JObj [("id", JNum 7)]])])])
   = Ok true
   <-> forallb (has_results
                  [("reviews", JObj [("results", JArr [JObj [("id", JNum 7)]])])])
         ["reviews"] = true)
  /\ process_loaded Sample.env (Sample.controller ["reviews"] [] []) false (JNum 200)
       None (JObj [("reviews", JObj [("results", JArr [])])]) None
       (Sample.state [] [])
     = ([Next None], Ret tt (Sample.state [] []))
  /\ process_loaded Sample.env (Sample.controller ["reviews"] [] []) false (JNum 200)
       None (JObj (Sample.view_data [])) None (Sample.state [] [])
     = ([Next None], Ret tt (Sample.state [] []))
  /\ process_loaded Sample.env (Sample.controller ["reviews"] [] []) false (JNum 200)
       None (JObj [("reviews", JNull)]) None (Sample.state [] [])
     = ([], Raise (TypeError "Cannot read property 'hasOwnProperty' of undefined")
              (Sample.state [] [])).
Proof.
  destruct (required_data_gates_render Sample.env
              (Sample.controller ["reviews"] [] []) false (JNum 200))
    as (Hiff & _ & Hfail & Hthrow).
  split; [|split; [|split]].
  - apply (Hiff [("reviews", JObj [("results", JArr [JObj [("id", JNum 7)]])])]).
  - apply Hfail. reflexivity.
  - apply Hfail. reflexivity.
  - apply Hthrow. reflexivity.
Defined.

(** C4 (as stated) fails for a [results] that is no list: the check
    tests its [length] against 0 and nothing else.  With the empty
    object for the [results] of [reviews], which the page requires, no
    required key has a non-empty list, the check passes all the same, and
    the callback of [process] renders the page and sends it with the
    status 200. *)
Lemma required_results_need_no_list :
  forallb (has_results_list [("reviews", JObj [("results", JObj [])])])
    ["reviews"] = false
  /\ requiredDataPresent ["reviews"]
       (JObj [("reviews", JObj [("results", JObj [])])]) = Ok true
  /\ trace (process_loaded Sample.env (Sample.controller ["reviews"] [] [])
              false (JNum 200) None
              (JObj [("reviews", JObj [("results", JObj [])])]) None)
       (Sample.state [] [])
     = [Send false (JNum 200) (JStr "<html></html>")].
Proof. repeat split; reflexivity. Qed.

(** ** Events *)

Lemma run_throws env ev e done st data' :
  behaviour env ev (data st) = (data', Throws e) ->
  EventRun.run env ev done st
  = (emit (LogError "event" e) ;; done None (Value JNull)) (with_data data' st).
Proof.
  intros H. unfold EventRun.run, catch, bindM, get_st at 1.
  rewrite H. simpl. now destruct (done None (Value JNull) (with_data data' st)).
Qed.

Lemma run_silent env ev k st d' :
  behaviour env ev (data st) = (d', Silent) ->
  EventRun.run env ev k st = ([], Ret tt (with_data d' st)).
Proof.
  intros H. unfold EventRun.run, catch, bindM, get_st at 1.
  rewrite H. reflexivity.
Qed.

(** [run] with the callback of [loadEventData], for a handler that calls
    back with an error and then returns or throws: the second call, from
    the [catch] block, finds the promise settled. *)
Lemma run_reports_error env ev st d' e result t :
  behaviour env ev (data st) = (d', Calls (Some e) result t) ->
  settled st = None ->
  EventRun.run env ev (event_callback env ev) st
  = (LogError "event" e
     :: match t with Some x => [LogError "event" x] | None => [] end,
     Ret tt (with_settled (Some (Some e)) (with_data d' st))).
Proof.
  intros H Hs. unfold EventRun.run, catch, bindM at 1, get_st at 1.
  rewrite H.
  unfold set_data, emit, event_callback, bindM, get_st, set_settled, ret, throw.
  simpl. rewrite Hs. now destruct t.
Qed.

(** The same for a handler that calls back with a result that is truthy
    and is no object with the sentinel: the result is stored under the
    name of the event. *)
Lemma run_stores_result env ev st d' v t :
  behaviour env ev (data st) = (d', Calls None (Value v) t) ->
  settled st = None ->
  truthy v = true ->
  (forall o, v = JObj o -> carries o (checkValue env (ev_name ev)) = false) ->
  EventRun.run env ev (event_callback env ev) st
  = (match t with Some x => [LogError "event" x] | None => [] end,
     Ret tt (with_settled (Some None)
               (with_data (set d' (ev_name ev) v) st))).
Proof.
  intros H Hs Hv Ho. unfold EventRun.run, catch, bindM at 1, get_st at 1.
  rewrite H.
  destruct v as [| |b|n| |s|l|o]; try discriminate;
    unfold set_data, emit, event_callback, bindM, get_st, set_settled, ret,
      throw;
    cbn [data settled with_data fst snd]; rewrite Hs;
    try rewrite (Ho _ eq_refl); try rewrite Hv;
    destruct t; reflexivity.
Qed.

(** The queue, up to the run of its first event. *)
Lemma event_queue_cons env ev rest done st :
  event_queue env (ev :: rest) done st
  = (EventRun.run env ev (event_callback env ev) ;;
     let! st := get_st in
     match settled st with
     | None => leave_stage
     | Some (Some e) => leave_stage ;; done (Some e)
     | Some None => event_queue env rest done
     end)
      (with_data (set (data st) "checkValue"
                    (JStr (checkValue env (ev_name ev))))
         (with_settled None st)).
Proof.
  cbn [event_queue].
  rewrite (bindM_run (set_settled None) _ st [] tt (with_settled None st) eq_refl).
  rewrite prefixed_nil.
  rewrite (bindM_run get_st _ _ [] (with_settled None st) (with_settled None st)
             eq_refl), prefixed_nil.
  rewrite (bindM_run (set_data _) _ _ [] tt _ eq_refl), prefixed_nil.
  reflexivity.
Qed.

Lemma loadEventData_cons env ev rest done st :
  loadEventData env (ev :: rest) done st
  = event_queue env (ev :: rest) done (with_kept None st).
Proof.
  unfold loadEventData.
  now rewrite (bindM_run (set_kept None) _ st [] tt (with_kept None st) eq_refl),
    prefixed_nil.
Qed.

(** [loadEventData] on a first event that calls back with an error, on
    one that calls back with a result, and on one that never calls
    back. *)
Lemma loadEventData_error env ev rest done st d' e result t :
  behaviour env ev
    (set (data st) "checkValue" (JStr (checkValue env (ev_name ev))))
  = (d', Calls (Some e) result t) ->
  loadEventData env (ev :: rest) done st
  = prefixed (LogError "event" e
              :: match t with Some x => [LogError "event" x] | None => [] end)
      (done (Some e)
         (with_settled (Some (Some e)) (with_data d' (with_kept None st)))).
Proof.
  intros H. rewrite loadEventData_cons, event_queue_cons.
  erewrite bindM_run; [|apply (run_reports_error _ _ _ d' e result t);
                          [exact H | reflexivity]].
  f_equal.
  rewrite (bindM_run get_st _ _ [] _ _ eq_refl), prefixed_nil.
  cbn [settled with_settled].
  erewrite (bindM_run leave_stage); [|reflexivity].
  now rewrite prefixed_nil.
Qed.

Lemma loadEventData_result env ev rest done st d' v t :
  behaviour env ev
    (set (data st) "checkValue" (JStr (checkValue env (ev_name ev))))
  = (d', Calls None (Value v) t) ->
  truthy v = true ->
  (forall o, v = JObj o -> carries o (checkValue env (ev_name ev)) = false) ->
  loadEventData env (ev :: rest) done st
  = prefixed (match t with Some x => [LogError "event" x] | None => [] end)
      (event_queue env rest done
         (with_settled (Some None)
            (with_data (set d' (ev_name ev) v) (with_kept None st)))).
Proof.
  intros H Hv Ho. rewrite loadEventData_cons, event_queue_cons.
  erewrite bindM_run; [|apply (run_stores_result _ _ _ d' v t);
                          [exact H | reflexivity | exact Hv | exact Ho]].
  f_equal.
  now rewrite (bindM_run get_st _ _ [] _ _ eq_refl), prefixed_nil.
Qed.

Lemma loadEventData_silent env ev rest done st d' :
  behaviour env ev
    (set (data st) "checkValue" (JStr (checkValue env (ev_name ev))))
  = (d', Silent) ->
  loadEventData env (ev :: rest) done st
  = ([], Ret tt (with_data d' (with_settled None (with_kept None st)))).
Proof.
  intros H. rewrite loadEventData_cons, event_queue_cons.
  erewrite bindM_run; [|apply (run_silent _ _ _ _ d'); exact H].
  rewrite prefixed_nil.
  now rewrite (bindM_run get_st _ _ [] _ _ eq_refl), prefixed_nil.
Qed.

(** C10 (as amended): when loading or calling the handler of an event
    throws, [run] catches the exception, logs it and calls
    [done(null, null)].  Where the handler throws before it has called
    back, the promise of the event in [loadEventData] is then resolved,
    nothing is stored under the name of the event, and the queue goes on
    to the next event.  Where the handler has called back before it
    throws, [run] calls [done] a second time, and in [loadEventData] it
    is the first call that counts: an error it passed is what
    [loadEventData] calls back with, and no later event is run; a truthy
    result it passed is stored under the name of the event, and the
    queue goes on. *)
Theorem run_catches_crash env ev e :
  (forall done st data',
     behaviour env ev (data st) = (data', Throws e) ->
     EventRun.run env ev done st
     = (emit (LogError "event" e) ;; done None (Value JNull))
         (with_data data' st))
  /\ (forall rest done st data',
        behaviour env ev
          (set (data st) "checkValue" (JStr (checkValue env (ev_name ev))))
        = (data', Throws e) ->
        event_queue env (ev :: rest) done st
        = (emit (LogError "event" e) ;; event_queue env rest done)
            (with_settled (Some None) (with_data data' st)))
  /\ (forall done st data' err result tr st1,
        behaviour env ev (data st) = (data', Calls err result (Some e)) ->
        done err result (with_data data' st) = (tr, Ret tt st1) ->
        EventRun.run env ev done st
        = (match err with Some e' => [LogError "event" e'] | None => [] end
           ++ tr ++ LogError "event" e :: fst (done None (Value JNull) st1),
           snd (done None (Value JNull) st1)))
  /\ (forall rest done st data' e' result,
        behaviour env ev
          (set (data st) "checkValue" (JStr (checkValue env (ev_name ev))))
        = (data', Calls (Some e') result (Some e)) ->
        loadEventData env (ev :: rest) done st
        = prefixed [LogError "event" e'; LogError "event" e]
            (done (Some e')
               (with_settled (Some (Some e'))
                  (with_data data' (with_kept None st)))))
  /\ (forall rest done st data' v,
        behaviour env ev
          (set (data st) "checkValue" (JStr (checkValue env (ev_name ev))))
        = (data', Calls None (Value v) (Some e)) ->
        truthy v = true ->
        (forall o, v = JObj o ->
                   carries o (checkValue env (ev_name ev)) = false) ->
        loadEventData env (ev :: rest) done st
        = prefixed [LogError "event" e]
            (event_queue env rest done
               (with_settled (Some None)
                  (with_data (set data' (ev_name ev) v)
                     (with_kept None st))))).
Proof.
  split; [|split; [|split; [|split]]].
  - intros done st data' H. now apply run_throws.
  - intros rest done st data' H. rewrite event_queue_cons.
    unfold bindM at 1.
    rewrite (run_throws env ev e (event_callback env ev)
               (with_data (set (data st) "checkValue"
                             (JStr (checkValue env (ev_name ev))))
                  (with_settled None st)) data' H).
    unfold bindM, emit, event_callback, get_st, set_settled. simpl.
    unfold with_data, with_settled. simpl.
    now destruct (event_queue env rest done _).
  - intros done st data' err result tr st1 H Hd.
    unfold EventRun.run, catch, bindM, get_st at 1. rewrite H. simpl.
    destruct err as [e'|]; simpl; rewrite Hd; simpl;
      destruct (done None (Value JNull) st1) as [tr' r]; simpl;
      now rewrite ?app_nil_r.
  - intros rest done st data' e' result H.
    apply (loadEventData_error env ev rest done st data' e' result (Some e) H).
  - intros rest done st data' v H Hv Ho.
    apply (loadEventData_result env ev rest done st data' v (Some e) H Hv Ho).
Qed.

(** The witness of C10: the event [boom] of the sample application
    crashes; the preload queue logs it and goes on to [after]. *)
Lemma run_catches_crash_witness :
  EventRun.run Sample.env (mkEvent None "boom")
    (fun err result =>
       let! result := passed_value result in emit (Done err result None))
    (Sample.state [] [])
  = ([LogError "event" Sample.crash; Done None JNull None],
     Ret tt (Sample.state [] []))
  /\ event_queue Sample.env [mkEvent None "boom"; mkEvent None "after"]
       (fun err => emit (Done err JUndefined None)) (Sample.state [] [])
     = (emit (LogError "event" Sample.crash) ;;
        event_queue Sample.env [mkEvent None "after"]
          (fun err => emit (Done err JUndefined None)))
         (with_settled (Some None)
            (with_data
               (set (Sample.view_data []) "checkValue"
                  (JStr "d41d8cd98f00b204e9800998ecf8427e"))
               (Sample.state [] [])))
  /\ loadEventData Fixtures.env [mkEvent None "tally"; mkEvent None "after"]
       (fun err => emit (Done err JUndefined None)) (Sample.state [] [])
     = prefixed [LogError "event" Sample.crash]
         (event_queue Fixtures.env [mkEvent None "after"]
            (fun err => emit (Done err JUndefined None))
            (with_settled (Some None)
               (with_data
                  (set (set (Sample.view_data []) "checkValue"
                          (JStr "d41d8cd98f00b204e9800998ecf8427e"))
                     "tally" (JObj [("count", JNum 3)]))
                  (with_kept None (Sample.state [] []))))).
Proof.
  destruct (run_catches_crash Sample.env (mkEvent None "boom") Sample.crash)
    as (Hrun & Hqueue & _).
  destruct (run_catches_crash Fixtures.env (mkEvent None "tally") Sample.crash)
    as (_ & _ & _ & _ & Hresult).
  split; [|split].
  - apply (Hrun (fun err result =>
                   let! result := passed_value result in
                   emit (Done err result None))
             (Sample.state [] []) (Sample.view_data [])).
    reflexivity.
  - apply (Hqueue [mkEvent None "after"]
             (fun err => emit (Done err JUndefined None)) (Sample.state [] [])).
    reflexivity.
  - apply (Hresult [mkEvent None "after"]
             (fun err => emit (Done err JUndefined None)) (Sample.state [] [])).
    + reflexivity.
    + reflexivity.
    + intros o [= <-]. reflexivity.
Defined.

(** C10 (as stated) fails for a handler that throws after it has called
    back.  The handler of [late] calls back with an error and then
    crashes: [run] catches and logs the crash, and yet the error reaches
    [next(err)], and the event [after] behind it is not run.  The handler
    of [tally] calls back with a result and then crashes: the result is
    in the data set under the name of the event. *)
Lemma crash_after_callback_counts :
  behaviour Fixtures.env (mkEvent None "late") (Sample.view_data [])
  = (Sample.view_data [],
     Calls (Some Fixtures.failure) (Value JUndefined) (Some Sample.crash))
  /\ trace (process Fixtures.env
              (Sample.controller [] [mkEvent None "late"; mkEvent None "after"] [])
              (mkRequest "/cars" [] JUndefined) JUndefined)
       (Sample.state [] [])
     = [LogError "event" Fixtures.failure; LogError "event" Sample.crash;
        Next (Some Fixtures.failure)]
  /\ get (data (state_of
                  (loadEventData Fixtures.env [mkEvent None "tally"]
                     (fun err => emit (Done err JUndefined None))
                     (Sample.state [] []))))
       "tally"
     = JObj [("count", JNum 3)].
Proof. repeat split; reflexivity. Qed.

(** ** Chained datasources *)

Lemma append_assoc (a b c : string) : (a +:+ b) +:+ c = a +:+ b +:+ c.
Proof.
  induction a as [|x a IH]; [reflexivity|].
  change (String x ((a +:+ b) +:+ c) = String x (a +:+ b +:+ c)).
  now rewrite IH.
Qed.

Lemma missing_parent_mentions name parent :
  mentions (missing_parent_message name parent) name
  /\ mentions (missing_parent_message name parent) parent.
Proof.
  unfold mentions, missing_parent_message. split.
  - now exists "Chained datasource '",
             ("' expected to find data from datasource '" +:+ parent +:+ "'.").
  - exists ("Chained datasource '" +:+ name
            +:+ "' expected to find data from datasource '"), "'.".
    now rewrite !append_assoc.
Qed.

Lemma chained_prepare_missing_parent env self req done k st ds c :
  find_ds (datasources st) k = Some ds ->
  chained ds = Some c ->
  has (data st) (chained_datasource c) = false ->
  chained_prepare env self req done k st
  = (emit (LogWarn "controller"
             (missing_parent_message (name ds) (chained_datasource c))) ;;
     done (Some (missing_parent_error (name ds) (chained_datasource c))) ;;
     ret false) st.
Proof.
  intros Hds Hc Hp. unfold chained_prepare, the_datasource.
  unfold bindM at 1. unfold bindM at 1. unfold get_st at 1.
  rewrite Hds. unfold ret at 1. simpl. rewrite Hc.
  unfold bindM at 1. unfold get_st at 1.
  rewrite (has_false_get _ _ Hp). simpl.
  now destruct (bindM _ _ st).
Qed.

Lemma trace_bind_ret {A B} (m : M A) (f : A -> B) st :
  trace (bindM m (fun a => ret (f a))) st = trace m st.
Proof.
  rewrite trace_bind. destruct (snd (m st)); simpl; apply app_nil_r.
Qed.

(** The loop over the keys that follow, once the keys in front have
    been gone through. *)
Lemma chained_each_app env self req done pre l : forall st tr started st1,
  chained_each env self req done pre st = (tr, Ret started st1) ->
  chained_each env self req done (pre ++ l) st
  = prefixed tr
      ((let! others := chained_each env self req done l in
        ret (started ++ others)) st1).
Proof.
  induction pre as [|k pre IH]; intros st tr started st1 H.
  - injection H as <- <- <-. rewrite prefixed_nil. simpl.
    unfold bindM. now destruct (chained_each env self req done l st)
      as [t [o s|e s]]; simpl; rewrite ?app_nil_r.
  - simpl in H |- *.
    destruct (chained_prepare env self req done k st) as [t0 [b st0|e st0]]
      eqn:E0; [|rewrite (bindM_raise _ _ _ _ _ _ E0) in H; discriminate].
    rewrite (bindM_run _ _ _ _ _ _ E0) in H.
    rewrite (bindM_run _ _ _ _ _ _ E0).
    destruct (chained_each env self req done pre st0) as [t1 [o st1'|e st1']]
      eqn:E1; [|rewrite (bindM_raise _ _ _ _ _ _ E1) in H; discriminate].
    rewrite (bindM_run _ _ _ _ _ _ E1) in H.
    unfold prefixed, ret in H. simpl in H. injection H as <- <- <-.
    rewrite (bindM_prefixed _ _ _ _ _ _ (IH st0 t1 o st1' E1)).
    rewrite prefixed_app, app_nil_r. f_equal.
    rewrite bindM_assoc. apply bindM_ext. intros others st'.
    rewrite bindM_ret_l. now destruct b.
Qed.

Lemma chained_each_length env self req done keys : forall st tr started st1,
  chained_each env self req done keys st = (tr, Ret started st1) ->
  (length started <= length keys)%nat.
Proof.
  induction keys as [|k keys IH]; intros st tr started st1 H; simpl in H.
  - injection H as _ <- _. simpl. lia.
  - destruct (chained_prepare env self req done k st) as [t0 [b st0|e st0]]
      eqn:E0; [|rewrite (bindM_raise _ _ _ _ _ _ E0) in H; discriminate].
    rewrite (bindM_run _ _ _ _ _ _ E0) in H.
    destruct (chained_each env self req done keys st0) as [t1 [o st1'|e st1']]
      eqn:E1; [|rewrite (bindM_raise _ _ _ _ _ _ E1) in H; discriminate].
    rewrite (bindM_run _ _ _ _ _ _ E1) in H.
    unfold prefixed, ret in H. simpl in H. injection H as _ <- _.
    specialize (IH _ _ _ _ E1). destruct b; simpl; lia.
Qed.

(** The answers of fewer fetches than there are chained datasources do
    not lead to a call of [done]. *)
Lemma chained_loaded_short env done done' n started : forall idx st,
  (idx + length started < n)%nat ->
  chained_loaded env done n idx started st
  = chained_loaded env done' n idx started st.
Proof.
  induction started as [|k rest IH]; intros idx st Hlen; [reflexivity|].
  cbn [chained_loaded]. simpl in Hlen.
  assert (Hn : Nat.eqb (S idx) n = false) by (apply Nat.eqb_neq; lia).
  rewrite Hn.
  repeat (apply bindM_ext; intros).
  apply IH. lia.
Qed.

Lemma bindM_chained_prepare_missing {B} env self req done k st ds c
    (F : bool -> M B) :
  find_ds (datasources st) k = Some ds ->
  chained ds = Some c ->
  has (data st) (chained_datasource c) = false ->
  bindM (chained_prepare env self req done k) F st
  = prefixed [LogWarn "controller"
                (missing_parent_message (name ds) (chained_datasource c))]
      ((done (Some (missing_parent_error (name ds) (chained_datasource c))) ;;
        F false) st).
Proof.
  intros Hds Hc Hp. unfold bindM at 1.
  rewrite (chained_prepare_missing_parent _ _ _ _ _ _ _ _ Hds Hc Hp).
  unfold bindM, emit, ret, prefixed. simpl.
  destruct (done _ st) as [t [[] s|e s]]; simpl; [|reflexivity].
  destruct (F false s). simpl. now rewrite app_nil_r.
Qed.




(** ** Fail-fast primary datasources *)

Lemma quiet_app t1 t2 : quiet t1 -> quiet t2 -> quiet (t1 ++ t2).
Proof. unfold quiet. intros. now apply List.Forall_app. Qed.

Lemma fails_fast_app after t1 t2 :
  quiet t1 -> fails_fast after t2 -> fails_fast after (t1 ++ t2).
Proof.
  intros Hq H2. induction Hq as [|e t1 He _ IH]; simpl; [exact H2|].
  destruct e; try exact IH. contradiction.
Qed.

Lemma fails_fast_quiet after t : quiet t -> fails_fast after t.
Proof.
  intros Hq. rewrite <- (app_nil_r t). now apply fails_fast_app.
Qed.

Lemma Quiet_ret {A} (a : A) : Quiet (ret a).
Proof. intros st. constructor. Qed.

Lemma Quiet_throw {A} e : Quiet (@throw A e).
Proof. intros st. constructor. Qed.

Lemma Quiet_lift {A} (r : Res A) : Quiet (lift r).
Proof. destruct r; [apply Quiet_ret | apply Quiet_throw]. Qed.

Lemma Quiet_get_st : Quiet get_st.
Proof. intros st. constructor. Qed.

Lemma Quiet_set_data d : Quiet (set_data d).
Proof. intros st. constructor. Qed.

Lemma Quiet_set_datasources l : Quiet (set_datasources l).
Proof. intros st. constructor. Qed.

Lemma Quiet_set_heap h : Quiet (set_heap h).
Proof. intros st. constructor. Qed.

Lemma Quiet_set_settled s : Quiet (set_settled s).
Proof. intros st. constructor. Qed.

Lemma Quiet_set_kept k : Quiet (set_kept k).
Proof. intros st. constructor. Qed.

Lemma Quiet_passed_value r : Quiet (passed_value r).
Proof. destruct r; intros st; constructor. Qed.

Lemma Quiet_emit e :
  match e with PrimaryLoad _ _ => False | _ => True end -> Quiet (emit e).
Proof. intros H st. repeat constructor. exact H. Qed.

Lemma Quiet_bind {A B} (m : M A) (k : A -> M B) :
  Quiet m -> (forall a, Quiet (k a)) -> Quiet (bindM m k).
Proof.
  intros Hm Hk st. rewrite trace_bind. apply quiet_app; [apply Hm|].
  destruct (snd (m st)); [apply Hk | constructor].
Qed.

Lemma Quiet_catch {A} (m : M A) (h : Error -> M A) :
  Quiet m -> (forall e, Quiet (h e)) -> Quiet (catch m h).
Proof.
  intros Hm Hh st. unfold trace, catch. specialize (Hm st). unfold trace in Hm.
  destruct (m st) as [tr [a st'|e st']]; [exact Hm|].
  specialize (Hh e st'). unfold trace in Hh.
  destruct (h e st') as [tr' r]. now apply quiet_app.
Qed.

Lemma FailsFast_bind after {A B} (m : M A) (k : A -> M B) :
  Quiet m -> (forall a, FailsFast after (k a)) -> FailsFast after (bindM m k).
Proof.
  intros Hm Hk st. rewrite trace_bind. apply fails_fast_app; [apply Hm|].
  destruct (snd (m st)); [apply Hk | exact I].
Qed.

Lemma FailsFast_Quiet after {A} (m : M A) : Quiet m -> FailsFast after m.
Proof. intros H st. apply fails_fast_quiet, H. Qed.

Create HintDb quiet.

#[local] Hint Resolve Quiet_ret Quiet_throw Quiet_lift Quiet_get_st
  Quiet_set_data Quiet_set_datasources Quiet_set_heap Quiet_set_settled
  Quiet_set_kept Quiet_passed_value
  : quiet.

(** Goes through a computation that has no answer of a primary
    datasource among its effects. *)
Ltac quiet :=
  repeat first
    [ progress intros
    | progress cbv zeta
    | solve [auto with quiet]
    | apply Quiet_emit; exact I
    | apply Quiet_bind
    | apply Quiet_catch
    | match goal with
      | |- Quiet (match ?x with _ => _ end) => destruct x
      end ].

Section FailFast.

Variable env : Env.
Variable self : Controller.
Variable req : Request.

Lemma Quiet_the_datasource k : Quiet (the_datasource k).
Proof. unfold the_datasource. quiet. Qed.

Lemma Quiet_write_schema k d : Quiet (write_schema k d).
Proof. unfold write_schema. quiet. Qed.

#[local] Hint Resolve Quiet_the_datasource Quiet_write_schema : quiet.

Lemma Quiet_run ev done :
  (forall err r, Quiet (done err r)) -> Quiet (EventRun.run env ev done).
Proof. intros H. unfold EventRun.run. quiet. Qed.

Lemma Quiet_rebind o : Quiet (rebind o).
Proof. unfold rebind. quiet. Qed.

Lemma Quiet_leave_stage : Quiet leave_stage.
Proof. unfold leave_stage. quiet. Qed.

#[local] Hint Resolve Quiet_rebind Quiet_leave_stage : quiet.

Lemma Quiet_event_callback ev err r : Quiet (event_callback env ev err r).
Proof. unfold event_callback. quiet. Qed.

#[local] Hint Resolve Quiet_run Quiet_event_callback : quiet.

Lemma Quiet_event_queue evs done :
  (forall err, Quiet (done err)) -> Quiet (event_queue env evs done).
Proof.
  intros H. induction evs as [|ev evs IH]; simpl; quiet.
Qed.

Lemma FailsFast_event_queue after evs done :
  (forall err, FailsFast after (done err)) ->
  FailsFast after (event_queue env evs done).
Proof.
  intros H. induction evs as [|ev evs IH]; simpl.
  { apply FailsFast_bind; [quiet | intro; apply H]. }
  repeat (apply FailsFast_bind; [quiet|intro]).
  destruct (settled _) as [[e|]|]; auto.
  - apply FailsFast_bind; [quiet | intro; apply H].
  - apply FailsFast_Quiet. quiet.
Qed.

Lemma Quiet_loadEventData evs done :
  (forall err, Quiet (done err)) -> Quiet (loadEventData env evs done).
Proof.
  intros H. destruct evs; [apply H|].
  unfold loadEventData. apply Quiet_bind; [quiet|].
  intros _. now apply Quiet_event_queue.
Qed.

Lemma FailsFast_loadEventData after evs done :
  (forall err, FailsFast after (done err)) ->
  FailsFast after (loadEventData env evs done).
Proof.
  intros H. destruct evs; [apply H|].
  unfold loadEventData. apply FailsFast_bind; [quiet|].
  intros _. now apply FailsFast_event_queue.
Qed.

Lemma Quiet_chained_prepare done k :
  (forall err, Quiet (done err)) -> Quiet (chained_prepare env self req done k).
Proof. intros H. unfold chained_prepare. quiet. Qed.

Lemma Quiet_chained_each done keys :
  (forall err, Quiet (done err)) -> Quiet (chained_each env self req done keys).
Proof.
  intros H. induction keys as [|k keys IH]; simpl; quiet.
Qed.

Lemma Quiet_chained_loaded done n idx started :
  (forall err, Quiet (done err)) -> Quiet (chained_loaded env done n idx started).
Proof.
  intros H. revert idx. induction started as [|k l IH]; intros idx; simpl; quiet.
Qed.

Lemma Quiet_processChained keys done :
  (forall err, Quiet (done err)) -> Quiet (processChained env self req keys done).
Proof.
  intros H. unfold processChained. destruct keys; [apply H|].
  apply Quiet_bind; [now apply Quiet_chained_each|].
  intros. now apply Quiet_chained_loaded.
Qed.

Section WithCallback.

Variable done : option Error -> JValue -> option JValue -> M unit.
Variable after : Error -> list Effect.
Hypothesis done_quiet : forall err d r, Quiet (done err d r).
Hypothesis done_failure :
  forall e st, trace (done (Some e) JUndefined None) st = after e.

Lemma Quiet_forward next_stage err :
  Quiet next_stage -> Quiet (forward done next_stage err).
Proof using done_quiet. intros H. unfold forward. destruct err; auto. Qed.

Lemma Quiet_run_chained keys : Quiet (run_chained env self req done keys).
Proof using done_quiet.
  unfold run_chained. apply Quiet_processChained. intros err.
  apply Quiet_forward. unfold postload. apply Quiet_loadEventData.
  intros err'. apply Quiet_forward. unfold finish. quiet.
Qed.

Lemma FailsFast_primary_worker k cb :
  FailsFast after cb -> FailsFast after (primary_worker env req done k cb).
Proof using done_quiet done_failure.
  intros Hcb. unfold primary_worker.
  apply FailsFast_bind; [quiet|]. intros ds.
  apply FailsFast_bind.
  { destruct (filterEvent ds); [|quiet]. apply Quiet_run. quiet. }
  intros _.
  apply FailsFast_bind; [quiet|]. intros ds1.
  apply FailsFast_bind; [quiet|]. intros st1.
  apply FailsFast_bind; [quiet|]. intros [[ds' h'] dp].
  apply FailsFast_bind; [quiet|]. intros _.
  apply FailsFast_bind; [quiet|]. intros _.
  intros st. rewrite trace_bind. unfold emit at 1, trace at 1. simpl.
  destruct (load_err (load env k)) as [e|] eqn:Ee.
  - apply done_failure.
  - destruct (load_response (load env k)).
    + apply fails_fast_quiet, done_quiet.
    + apply FailsFast_bind; [quiet | intros; apply Hcb].
Qed.

Lemma FailsFast_primary_queue keys drain :
  FailsFast after drain ->
  FailsFast after (primary_queue env req done keys drain).
Proof using done_quiet done_failure.
  intros H. induction keys as [|k keys IH]; simpl; [exact H|].
  now apply FailsFast_primary_worker.
Qed.

(** Once a primary datasource has failed, [loadData] does one thing
    more: it calls [done] with the error. *)
Lemma FailsFast_loadData : FailsFast after (loadData env self req done).
Proof using done_quiet done_failure.
  unfold loadData. apply FailsFast_bind; [quiet|]. intros st0.
  apply FailsFast_loadEventData. intros [e|]; simpl.
  - apply FailsFast_Quiet, done_quiet.
  - unfold run_primary. apply FailsFast_bind.
    + destruct (datasources st0); [apply Quiet_run_chained | quiet].
    + intros _. destruct (primary_keys (datasources st0)); [quiet; apply FailsFast_Quiet; quiet|].
      apply FailsFast_primary_queue, FailsFast_Quiet, Quiet_run_chained.
Qed.

End WithCallback.

Lemma Quiet_process_loaded json_view status err d r :
  Quiet (process_loaded env self json_view status err d r).
Proof. unfold process_loaded, send. quiet. Qed.

Lemma process_loaded_failure json_view status e st :
  requiredDatasources (page self) = [] ->
  trace (process_loaded env self json_view status (Some e) JUndefined None) st
  = after_failure e.
Proof.
  intros H. unfold process_loaded, after_failure, trace. rewrite H. simpl.
  unfold bindM, ret, send. now destruct (is_404 e).
Qed.

(** The answers of the chained datasources: whatever they are, each is
    recorded, an error is logged, and [done] is called once, without an
    error, after the last. *)
Lemma chained_loaded_all done n started : forall idx st,
  started <> [] ->
  (idx + length started = n)%nat ->
  chained_loaded env done n idx started st
  = prefixed (loaded_effects env started)
      ((done None ;; ret tt) (loaded_state env started st)).
Proof.
  induction started as [|k rest IH]; intros idx st Hne Hlen; [contradiction|].
  simpl chained_loaded. simpl loaded_effects. simpl loaded_state.
  set (r := load env k).
  set (st' := if truthy (load_result r)
              then with_data (set (data st) k (load_result r)) st else st).
  assert (Hhead : forall (m : M unit),
             (emit (ChainedLoad k r) ;;
              match load_err r with
              | Some e => emit (LogError "controller" e)
              | None => ret tt
              end ;;
              (if truthy (load_result r)
               then let! st := get_st in set_data (set (data st) k (load_result r))
               else ret tt) ;; m) st
             = prefixed (ChainedLoad k r
                         :: match load_err r with
                            | Some e => [LogError "controller" e]
                            | None => []
                            end) (m st')).
  { intros m. unfold prefixed, bindM, emit, ret, get_st, set_data, st'.
    destruct (load_err r), (truthy (load_result r)); simpl;
      now destruct (m _). }
  rewrite Hhead. clear Hhead.
  change (match n with 0%nat => false | S m' => (idx =? m')%nat end)
    with (Nat.eqb (S idx) n).
  destruct rest as [|k' rest'].
  - simpl in Hlen. replace (S idx) with n by lia. rewrite Nat.eqb_refl.
    simpl. unfold prefixed. simpl. rewrite app_nil_r.
    unfold bindM. destruct (done None st') as [tr [[] st2|e st2]]; reflexivity.
  - assert (Hn : Nat.eqb (S idx) n = false).
    { apply Nat.eqb_neq. simpl in Hlen. lia. }
    rewrite Hn. rewrite bindM_ret_l.
    assert (Hlen' : (S idx + length (k' :: rest'))%nat = n)
      by (simpl in Hlen |- *; lia).
    rewrite (IH (S idx) st' ltac:(discriminate) Hlen').
    unfold prefixed. cbn [fst snd]. f_equal.
    cbn [app]. f_equal. apply app_assoc.
Qed.

Lemma processChained_all done keys st tr st1 :
  keys <> [] ->
  chained_each env self req done keys st = (tr, Ret keys st1) ->
  processChained env self req keys done st
  = prefixed (tr ++ loaded_effects env keys)
      ((done None ;; ret tt) (loaded_state env keys st1)).
Proof.
  intros Hne Heach. unfold processChained.
  destruct keys as [|k ks] eqn:Ek; [contradiction|]. rewrite <- Ek in *.
  unfold bindM at 1. rewrite Heach.
  rewrite (chained_loaded_all done (length keys) keys 0 st1 Hne eq_refl).
  unfold prefixed. simpl. now rewrite app_assoc.
Qed.

(** Once the fetch of a primary datasource has failed, its worker is done
    with calling [done]: what it was to go on with, the rest of the
    queue and behind it the chained datasources and the postload events,
    is left out. *)
Lemma primary_worker_failure done k cb cb' e st :
  load_err (load env k) = Some e ->
  primary_worker env req done k cb st = primary_worker env req done k cb' st.
Proof.
  intros H. unfold primary_worker. cbv zeta. rewrite H. reflexivity.
Qed.


End FailFast.



(** On a page with required datasources the callback of [process] reads
    them from the data set before it looks at the error, and [loadData]
    hands over no data set with an error: the callback throws. *)
Lemma primary_failure_with_required_throws :
  process Sample.env (Sample.controller ["reviews"] [] [])
    (mkRequest "/cars" [] JUndefined) JUndefined
    (Sample.state [("reviews", Sample.datasource_at 0 "reviews" [])] [])
  = ([PrimaryLoad "reviews" (load Sample.env "reviews")],
     Raise (TypeError "Cannot read property 'hasOwnProperty' of undefined")
       (state_of
          (process Sample.env (Sample.controller ["reviews"] [] [])
             (mkRequest "/cars" [] JUndefined) JUndefined
             (Sample.state [("reviews", Sample.datasource_at 0 "reviews" [])] [])))).
Proof. vm_compute. reflexivity. Qed.

(** C1 on a request with a [filter] in its query string, and on a request
    with [cache=false] to a page with a chained datasource: the object
    [originalFilter] names holds the filter of the request afterwards, so
    that the next request, which has no filter, hands it to the provider
    all the same; and the shared schema of the chained datasource has its
    [cache] and [page] set and the parameter in its [filter]. *)
Theorem request_handling_mutates_templates :
  deref Sample.heap0 (originalFilter (Sample.datasource_at 0 "cars" [])) = []
  /\ match processRequest Sample.env (Sample.datasource_at 0 "cars" [])
             Sample.heap0 "cars"
             (mkRequest ("/cars?filter=" +:+ Sample.make_bmw_text) [] JUndefined)
     with
     | Ok (cars, h, _) =>
         deref h (originalFilter (Sample.datasource_at 0 "cars" []))
         = [("make", JStr "bmw")]
         /\ match processRequest Sample.env cars h "cars"
                   (mkRequest "/cars" [] JUndefined) with
            | Ok (_, h', datasourceParams) =>
                deref h' (filter datasourceParams) = [("make", JStr "bmw")]
            | Throw _ => False
            end
     | Throw _ => False
     end
  /\ (cache (schema (Sample.chained_at 2 "models" "makes")),
      Datasource.page (schema (Sample.chained_at 2 "models" "makes")),
      deref Sample.heap0 (filter (schema (Sample.chained_at 2 "models" "makes"))))
     = (JUndefined, JNum 1, [])
  /\ match find_ds
             (datasources
                (state_of
                   (process Sample.env (Sample.controller [] [] [])
                      (mkRequest "/cars?cache=false&page=3" [] JUndefined)
                      JUndefined
                      (Sample.state
                         [("makes", Sample.datasource_at 0 "makes" []);
                          ("models", Sample.chained_at 2 "models" "makes")]
                         [("cache", JStr "false"); ("page", JStr "3")]))))
             "models"
     with
     | Some ds =>
         (cache (schema ds), Datasource.page (schema ds),
          deref (heap
                   (state_of
                      (process Sample.env (Sample.controller [] [] [])
                         (mkRequest "/cars?cache=false&page=3" [] JUndefined)
                         JUndefined
                         (Sample.state
                            [("makes", Sample.datasource_at 0 "makes" []);
                             ("models", Sample.chained_at 2 "models" "makes")]
                            [("cache", JStr "false"); ("page", JStr "3")]))))
            (filter (schema ds)))
         = (JBool false, JStr "3", [("carId", JStr "1")])
     | None => False
     end.
Proof. repeat split; vm_compute; reflexivity. Qed.

End ControllerProps.

Module ListenerProps.
Import JsProps Router Listener RouterProps.

Lemma has_set o k v k' : has (set o k v) k' = String.eqb k k' || has o k'.
Proof.
  induction o as [|[k0 v0] o IH]; simpl.
  - now rewrite orb_false_r.
  - destruct (String.eqb k0 k) eqn:E; simpl.
    + apply String.eqb_eq in E. subst k0.
      now destruct (String.eqb k k').
    + rewrite IH. destruct (String.eqb k0 k'), (String.eqb k k'); reflexivity.
Qed.

Section WithRegex.

Variable parse : string -> list Token.
Variable exec : list Token -> string -> option (list JValue).
Variable JSON_stringify : JValue -> string.
Variable byteLength : string -> Z.
Variable call : Fn -> option Error -> World -> World * Next.
Variable call_without_next : Fn -> World -> Res World.

(** What the loop of [_match] finds: nothing, or the first route in the
    list whose matcher succeeds. *)
Lemma match_loop_first l p :
  (Forall (fun r => exec (regex r) p = None) l
   /\ match_loop exec l p = ([], []))
  \/ exists pre r m post,
       l = pre ++ r :: post
       /\ Forall (fun x => exec (regex x) p = None) pre
       /\ exec (regex r) p = Some m
       /\ match_loop exec l p
          = ([handler r], fill_params (regex_keys (regex r)) m).
Proof.
  induction l as [|r rs IH]; simpl.
  - left. split; constructor.
  - destruct (exec (regex r) p) as [m|] eqn:E.
    + right. exists [], r, m, rs. repeat split; auto.
    + destruct IH as [[Hall Hm]|(pre & r0 & m & post & -> & Hpre & Hr & Hm)].
      * left. split; [constructor; auto | exact Hm].
      * right. exists (r :: pre), r0, m, post. repeat split; auto.
Qed.

(** X1: on a router in any state it can reach, when some route matches
    the path of a request, [_match] returns exactly one handler, that of a
    route which matches and whose score no matching route exceeds. *)
Theorem match_prefers_highest_order api p r' :
  Reachable parse api ->
  In r' (paths api) ->
  exec (regex r') p <> None ->
  exists r,
    In r (paths api)
    /\ exec (regex r) p <> None
    /\ fst (_match exec api p) = [handler r]
    /\ order r' <= order r.
Proof.
  intros Hr Hin Hm. apply Reachable_well_formed in Hr as (Hs & _ & _).
  unfold _match.
  destruct (match_loop_first (paths api) p)
    as [[Hall _]|(pre & r & m & post & Hl & Hpre & Hex & Heq)].
  - rewrite List.Forall_forall in Hall. now specialize (Hall r' Hin).
  - exists r. rewrite Heq, Hl. repeat split.
    + apply in_or_app. right. now left.
    + congruence.
    + rewrite Hl in Hin, Hs. apply in_app_or in Hin.
      destruct Hin as [Hin|[<-|Hin]].
      * rewrite List.Forall_forall in Hpre. now specialize (Hpre r' Hin).
      * lia.
      * clear -Hs Hin. induction pre as [|x pre IH]; simpl in Hs.
        -- apply StronglySorted_inv in Hs as [_ Hall].
           rewrite List.Forall_forall in Hall. now apply Hall.
        -- apply StronglySorted_inv in Hs as [Hs _]. now apply IH.
Qed.

(** Only the keys of the route give [req.params] its names. *)
Lemma fold_param_has keys m name js acc :
  has (fold_left (param_at keys m) js acc) name = true ->
  has acc name = true \/ In name (map key_name keys).
Proof.
  revert acc. induction js as [|j js IH]; simpl; intros acc H; [now left|].
  apply IH in H as [H|H]; [|now right].
  unfold param_at in H. destruct (nth_error keys j) as [k|] eqn:Ek; [|now left].
  destruct (truthy (nth (S j) m JUndefined) && negb (String.eqb (key_name k) ""));
    [|now left].
  rewrite has_set in H. apply orb_true_iff in H as [H|H]; [|now left].
  apply String.eqb_eq in H. subst name. right.
  apply in_map. eapply nth_error_In; eauto.
Qed.

(** A round for another index leaves the name of the key at [i] alone. *)
Lemma param_at_other keys m acc i j k :
  List.NoDup (map key_name keys) ->
  nth_error keys i = Some k -> j <> i ->
  get (param_at keys m acc j) (key_name k) = get acc (key_name k).
Proof.
  intros Hnd Hi Hne. unfold param_at.
  destruct (nth_error keys j) as [kj|] eqn:Ej; [|reflexivity].
  destruct (truthy (nth (S j) m JUndefined) && negb (String.eqb (key_name kj) ""));
    [|reflexivity].
  apply get_set_other. intros Heq. apply Hne.
  rewrite List.NoDup_nth_error in Hnd. symmetry. apply Hnd.
  - rewrite length_map. apply nth_error_Some. congruence.
  - rewrite !nth_error_map, Hi, Ej. simpl. now rewrite Heq.
Qed.

Lemma fold_param_get keys m i k js acc :
  List.NoDup (map key_name keys) ->
  nth_error keys i = Some k -> key_name k <> "" ->
  List.NoDup js ->
  get (fold_left (param_at keys m) js acc) (key_name k)
  = if existsb (Nat.eqb i) js && truthy (nth (S i) m JUndefined)
    then nth (S i) m JUndefined
    else get acc (key_name k).
Proof.
  intros Hnd Hi Hname. revert acc.
  induction js as [|j js IH]; intros acc Hjs.
  - reflexivity.
  - apply List.NoDup_cons_iff in Hjs as [Hj Hjs]. cbn [fold_left existsb].
    rewrite IH by exact Hjs.
    destruct (Nat.eqb i j) eqn:Eij.
    + apply Nat.eqb_eq in Eij. subst j.
      assert (Hnot : existsb (Nat.eqb i) js = false).
      { destruct (existsb (Nat.eqb i) js) eqn:E; [|reflexivity].
        apply existsb_exists in E as (x & Hx & Ex).
        apply Nat.eqb_eq in Ex. now subst x. }
      rewrite Hnot. simpl. unfold param_at. rewrite Hi.
      apply String.eqb_neq in Hname. rewrite Hname. simpl.
      rewrite andb_true_r.
      destruct (truthy (nth (S i) m JUndefined)); [|reflexivity].
      apply get_set_same.
    + apply Nat.eqb_neq in Eij.
      rewrite (param_at_other keys m acc i j k Hnd Hi) by congruence.
      reflexivity.
Qed.

(** X2: when the first route whose matcher succeeds has keys with distinct
    names, [req.params] holds under the name of each key what the key
    captured, when that is truthy, and nothing when it is falsy; it holds
    nothing under any other name, whatever an earlier request left. *)
Theorem match_params_from_captures api p pre r m post :
  paths api = pre ++ r :: post ->
  Forall (fun x => exec (regex x) p = None) pre ->
  exec (regex r) p = Some m ->
  List.NoDup (map key_name (regex_keys (regex r))) ->
  (forall i k,
     nth_error (regex_keys (regex r)) i = Some k ->
     key_name k <> "" -> (S i < length m)%nat ->
     get (snd (_match exec api p)) (key_name k)
     = if truthy (nth (S i) m JUndefined)
       then nth (S i) m JUndefined else JUndefined)
  /\ (forall name,
        ~ In name (map key_name (regex_keys (regex r))) ->
        has (snd (_match exec api p)) name = false).
Proof.
  intros Hl Hpre Hex Hnd.
  assert (Hm : match_loop exec (paths api) p
               = ([handler r], fill_params (regex_keys (regex r)) m)).
  { rewrite Hl. clear Hl. induction Hpre as [|x pre Hx _ IH]; simpl.
    - now rewrite Hex.
    - now rewrite Hx. }
  unfold _match. rewrite Hm. simpl. split.
  - intros i k Hi Hname Hlen. unfold fill_params.
    rewrite (fold_param_get _ m i k) by (auto; apply List.seq_NoDup).
    assert (Hin : existsb (Nat.eqb i) (seq 0 (length m)) = true).
    { apply existsb_exists. exists i. split; [apply in_seq; lia|].
      apply Nat.eqb_refl. }
    now rewrite Hin.
  - intros name Hnot. unfold fill_params.
    destruct (has (fold_left _ _ _) name) eqn:E; [|reflexivity].
    apply fold_param_has in E as [E|E]; [discriminate | contradiction].
Qed.

(** The stack up to the 404 handler, when every function passes the
    request on. *)
Lemma doStack_passed_on api fs w :
  (forall f w0, In f fs -> snd (call f None w0) = CallNext None) ->
  doStack JSON_stringify byteLength call call_without_next api
    (map Middleware fs ++ [NotFound]) None w
  = notFound call_without_next api (passed_on call fs w).
Proof.
  revert w. induction fs as [|f fs IH]; intros w H; [reflexivity|].
  simpl. pose proof (H f w (or_introl eq_refl)) as Hf.
  destruct (call f None w) as [w' n] eqn:E. simpl in Hf. subst n.
  rewrite IH by (intros; apply H; now right).
  reflexivity.
Qed.

(** X3: when every function on the stack of a request passes it on with
    [next()] and no ['/404'] route is registered, [listener] sets the
    status 404, writes the fixed message behind what was written and ends
    the response. *)
Theorem unanswered_request_gets_404 api p w :
  findWhere (paths api) "/404" = None ->
  (forall f w0, In f (all api ++ fst (_match exec api p)) ->
                snd (call f None w0) = CallNext None) ->
  exists w',
    fst (listener exec JSON_stringify byteLength call call_without_next
           api p w) = Ok w'
    /\ res_statusCode (res w') = JNum 404
    /\ res_ended (res w') = true
    /\ res_body (res w')
       = res_body (res (passed_on call (all api ++ fst (_match exec api p)) w))
         +:+ not_found_message
    /\ logged w'
       = logged (passed_on call (all api ++ fst (_match exec api p)) w).
Proof.
  intros H404 Hpass. unfold listener.
  destruct (_match exec api p) as [matches params] eqn:Em. simpl in *.
  rewrite doStack_passed_on by exact Hpass.
  unfold notFound. rewrite H404. eexists. split; [reflexivity|].
  repeat split.
Qed.

(** The stack up to a function that passes an error on. *)
Lemma doStack_error_at api pre f post rest e w :
  (forall g w0, In g pre -> snd (call g None w0) = CallNext None) ->
  snd (call f None (passed_on call pre w)) = CallNext (Some e) ->
  doStack JSON_stringify byteLength call call_without_next api
    (map Middleware (pre ++ f :: post) ++ rest) None w
  = errStack JSON_stringify byteLength call (errors api) (Some e)
      (fst (call f None (passed_on call pre w))).
Proof.
  revert w. induction pre as [|g pre IH]; intros w Hpre Hf.
  - simpl in *. destruct (call f None w) as [w' n]. simpl in *. subst n.
    now destruct (map Middleware post ++ rest) as [|[]].
  - simpl. pose proof (Hpre g w (or_introl eq_refl)) as Hg.
    destruct (call g None w) as [w' n] eqn:E. simpl in Hg. subst n.
    unfold passed_on in Hf. simpl in Hf. rewrite E in Hf. simpl in Hf.
    rewrite (IH w') by (auto; intros; apply Hpre; now right).
    reflexivity.
Qed.

(** X4: when a function on the stack of a request passes an error on, the
    functions behind it are not called and the response is exactly that of
    the default error handler: whatever error handlers the application
    registered, none of them is called. *)
Theorem error_reaches_default_handler_only api p w pre f post e :
  Reachable parse api ->
  all api ++ fst (_match exec api p) = pre ++ f :: post ->
  (forall g w0, In g pre -> snd (call g None w0) = CallNext None) ->
  snd (call f None (passed_on call pre w)) = CallNext (Some e) ->
  fst (listener exec JSON_stringify byteLength call call_without_next api p w)
  = Ok (defaultError JSON_stringify byteLength e
          (fst (call f None (passed_on call pre w)))).
Proof.
  intros Hr Hstack Hpre Hf. unfold listener.
  destruct (_match exec api p) as [matches params]. simpl in *.
  rewrite Hstack, (doStack_error_at api pre f post [NotFound] e w Hpre Hf).
  now destruct (errors_head_default parse api Hr) as [rest ->].
Qed.

(** No two routes of a router are the same object. *)
Lemma insert_last_rids x l :
  ~ In (rid x) (map rid l) -> List.NoDup (map rid l) ->
  List.NoDup (map rid (insert_last x l)).
Proof.
  induction l as [|y ys IH]; simpl; intros Hx Hnd.
  - repeat constructor. auto.
  - apply List.NoDup_cons_iff in Hnd as [Hy Hnd].
    destruct (order x <=? order y); simpl.
    + constructor.
      * rewrite in_map_iff. intros (z & Hz & Hin).
        apply insert_last_In in Hin as [->|Hin]; [intuition|].
        apply Hy. rewrite in_map_iff. eauto.
      * apply IH; intuition.
    + constructor; [exact Hx|]. constructor; auto.
Qed.

Lemma filter_rids (f : Route -> bool) l :
  List.NoDup (map rid l) -> List.NoDup (map rid (List.filter f l)).
Proof.
  induction l as [|y ys IH]; simpl; intros Hnd; [constructor|].
  apply List.NoDup_cons_iff in Hnd as [Hy Hnd].
  destruct (f y); simpl; [|auto].
  constructor; [|auto]. rewrite in_map_iff. intros (z & Hz & Hin).
  apply List.filter_In in Hin as [Hin _].
  apply Hy. rewrite in_map_iff. eauto.
Qed.

Lemma Reachable_rids api : Reachable parse api -> List.NoDup (map rid (paths api)).
Proof.
  induction 1 as [|t h api Hr IH|t api Hr IH]; simpl.
  - constructor.
  - apply Reachable_well_formed in Hr as (Hs & Hid & _).
    destruct t as [p|f]; simpl.
    + rewrite sort_routes_snoc by exact Hs.
      apply insert_last_rids; [|exact IH]. simpl.
      rewrite in_map_iff. intros (z & Hz & Hin).
      rewrite List.Forall_forall in Hid. specialize (Hid z Hin). lia.
    + now destruct (Nat.eqb (fn_length f) 4).
  - destruct t as [p|f]; simpl.
    + destruct (findWhere (paths api) p); simpl; [|exact IH].
      now apply filter_rids.
    + now destruct (Nat.eqb (fn_length f) 4).
Qed.

Lemma without_remove_path l p :
  List.NoDup (map rid l) -> without l (findWhere l p) = remove_path p l.
Proof.
  induction l as [|y ys IH]; simpl; intros Hnd; [reflexivity|].
  apply List.NoDup_cons_iff in Hnd as [Hy Hnd].
  destruct (String.eqb (path y) p) eqn:E; simpl.
  - rewrite Nat.eqb_refl. simpl.
    clear -Hy. induction ys as [|z zs IH]; simpl; [reflexivity|].
    simpl in Hy.
    destruct (Nat.eqb (rid z) (rid y)) eqn:Ez.
    + apply Nat.eqb_eq in Ez. intuition.
    + simpl. f_equal. apply IH. intuition.
  - specialize (IH Hnd). destruct (findWhere ys p) as [r|] eqn:Ef; simpl in *.
    + assert (Hin : In r ys).
      { clear -Ef. induction ys as [|z zs IH]; simpl in Ef; [discriminate|].
        destruct (String.eqb (path z) p); [left; congruence | right; auto]. }
      destruct (Nat.eqb (rid y) (rid r)) eqn:Ey.
      * apply Nat.eqb_eq in Ey. exfalso. apply Hy. rewrite Ey.
        now apply in_map.
      * simpl. now rewrite IH.
    + now rewrite <- IH.
Qed.

(** X5: [unuse(path)] removes one route, the first in dispatch order that
    has the path, and leaves every other route in place. *)
Theorem unuse_removes_first_route_of_path api p :
  Reachable parse api ->
  paths (unuse (Path p) api) = remove_path p (paths api).
Proof.
  intros Hr. simpl. apply without_remove_path. now apply Reachable_rids.
Qed.

End WithRegex.

(** The witness of X1: ['/cars'] and ['/:page'] both match the path
    [/cars]; the handler returned is that of ['/cars'], which scores 5. *)
Lemma match_prefers_highest_order_witness :
  exists r,
    In r (paths Fixtures.two_routes)
    /\ Fixtures.execSimple (regex r) "/cars" <> None
    /\ fst (_match Fixtures.execSimple Fixtures.two_routes "/cars")
       = [handler r]
    /\ order Fixtures.page_route <= order r.
Proof.
  apply (match_prefers_highest_order parseSimple Fixtures.execSimple
           Fixtures.two_routes "/cars" Fixtures.page_route).
  - apply Reachable_use, Reachable_use, Reachable_new.
  - right. left. reflexivity.
  - vm_compute. discriminate.
Defined.

(** The witness of X2: [/cars/bmw] on the route ['/cars/:make/:model?'];
    [make] captures [bmw], [model] captures nothing. *)
Lemma match_params_from_captures_witness :
  (forall i k,
     nth_error (regex_keys (regex Fixtures.cars_route)) i = Some k ->
     key_name k <> "" ->
     (S i < length [JStr "/cars/bmw"; JStr "bmw"; JUndefined])%nat ->
     get (snd (_match Fixtures.execSimple Fixtures.cars_api "/cars/bmw"))
       (key_name k)
     = if truthy (nth (S i) [JStr "/cars/bmw"; JStr "bmw"; JUndefined] JUndefined)
       then nth (S i) [JStr "/cars/bmw"; JStr "bmw"; JUndefined] JUndefined
       else JUndefined)
  /\ (forall name,
        ~ In name (map key_name (regex_keys (regex Fixtures.cars_route))) ->
        has (snd (_match Fixtures.execSimple Fixtures.cars_api "/cars/bmw")) name
        = false).
Proof.
  apply (match_params_from_captures Fixtures.execSimple Fixtures.cars_api
           "/cars/bmw" [] Fixtures.cars_route
           [JStr "/cars/bmw"; JStr "bmw"; JUndefined] []).
  - reflexivity.
  - constructor.
  - reflexivity.
  - vm_compute. repeat constructor; simpl; intuition discriminate.
Defined.

(** The witness of X3: no route matches [/nothing/here], and the one
    middleware passes the request on. *)
Lemma unanswered_request_gets_404_witness :
  exists w',
    fst (listener Fixtures.execSimple (fun _ => "{}") (fun _ => 2)
           Fixtures.passes (fun _ w => Ok w) Fixtures.guarded
           "/nothing/here" Fixtures.blank) = Ok w'
    /\ res_statusCode (res w') = JNum 404
    /\ res_ended (res w') = true
    /\ res_body (res w')
       = res_body
           (res (passed_on Fixtures.passes
                   (all Fixtures.guarded
                    ++ fst (_match Fixtures.execSimple Fixtures.guarded
                              "/nothing/here")) Fixtures.blank))
         +:+ not_found_message
    /\ logged w'
       = logged (passed_on Fixtures.passes
                   (all Fixtures.guarded
                    ++ fst (_match Fixtures.execSimple Fixtures.guarded
                              "/nothing/here")) Fixtures.blank).
Proof.
  apply (unanswered_request_gets_404 Fixtures.execSimple (fun _ => "{}")
           (fun _ => 2) Fixtures.passes (fun _ w => Ok w) Fixtures.guarded
           "/nothing/here" Fixtures.blank).
  - reflexivity.
  - intros f w0 _. reflexivity.
Defined.

(** The witness of X4: the middleware in front of the routes refuses the
    request for [/cars]; the route's handler is not called. *)
Lemma error_reaches_default_handler_only_witness :
  fst (listener Fixtures.execSimple (fun _ => "{}") (fun _ => 2)
         (Fixtures.fails_at 7) (fun _ w => Ok w) Fixtures.guarded "/cars"
         Fixtures.blank)
  = Ok (defaultError (fun _ => "{}") (fun _ => 2) Fixtures.failure
          (fst (Fixtures.fails_at 7 (UserFn 7 3) None
                  (passed_on (Fixtures.fails_at 7) [] Fixtures.blank)))).
Proof.
  apply (error_reaches_default_handler_only parseSimple Fixtures.execSimple
           (fun _ => "{}") (fun _ => 2) (Fixtures.fails_at 7) (fun _ w => Ok w)
           Fixtures.guarded "/cars" Fixtures.blank [] (UserFn 7 3)
           [UserFn 2 3] Fixtures.failure).
  - apply Reachable_use, Reachable_use, Reachable_use, Reachable_new.
  - reflexivity.
  - intros g w0 [].
  - reflexivity.
Defined.

(** The witness of X5: of the two routes, [unuse('/cars')] leaves
    ['/:page']. *)
Lemma unuse_removes_first_route_of_path_witness :
  paths (unuse (Path "/cars") Fixtures.two_routes)
  = remove_path "/cars" (paths Fixtures.two_routes).
Proof.
  apply (unuse_removes_first_route_of_path parseSimple Fixtures.two_routes
           "/cars").
  apply Reachable_use, Reachable_use, Reachable_new.
Defined.

End ListenerProps.

Module ServerProps.
Import JsProps Router Listener RouterProps ListenerProps Server.

Lemma routes_at_insert_last_other p x l :
  path x <> p -> routes_at p (insert_last x l) = routes_at p l.
Proof.
  intros Hne. apply String.eqb_neq in Hne.
  induction l as [|y ys IH]; simpl.
  - now rewrite Hne.
  - destruct (order x <=? order y); simpl.
    + now rewrite IH.
    + now rewrite Hne.
Qed.

Lemma routes_at_insert_last_new x l :
  routes_at (path x) l = [] -> routes_at (path x) (insert_last x l) = [x].
Proof.
  induction l as [|y ys IH]; simpl; intros H.
  - now rewrite String.eqb_refl.
  - destruct (String.eqb (path y) (path x)) eqn:E; [discriminate|].
    destruct (order x <=? order y); simpl.
    + rewrite E. auto.
    + now rewrite String.eqb_refl, E, H.
Qed.

Lemma routes_at_remove_other p q l :
  q <> p -> routes_at p (remove_path q l) = routes_at p l.
Proof.
  intros Hne. induction l as [|y ys IH]; simpl; [reflexivity|].
  destruct (String.eqb (path y) q) eqn:E; simpl.
  - apply String.eqb_eq in E.
    destruct (String.eqb (path y) p) eqn:E'; [|reflexivity].
    apply String.eqb_eq in E'. congruence.
  - now rewrite IH.
Qed.

Lemma routes_at_remove_same p l :
  (length (routes_at p l) <= 1)%nat -> routes_at p (remove_path p l) = [].
Proof.
  induction l as [|y ys IH]; simpl; intros H; [reflexivity|].
  destruct (String.eqb (path y) p) eqn:E; simpl in *.
  - destruct (routes_at p ys); [reflexivity | simpl in H; lia].
  - rewrite E. auto.
Qed.

Section WithParser.

Variable parse : string -> list Token.

Lemma paths_use_path api p h :
  Reachable parse api ->
  paths (use parse (Path p) h api)
  = insert_last {| rid := allocated api; path := p;
                   order := route_order parse p; handler := h;
                   regex := parse p |} (paths api).
Proof.
  intros Hr. apply Reachable_well_formed in Hr as (Hs & _).
  simpl. now apply sort_routes_snoc.
Qed.

Lemma consistent_new : consistent parse Server_new.
Proof.
  repeat split; simpl; try constructor.
Qed.

Lemma consistent_remove q s : consistent parse s -> consistent parse (removeComponent q s).
Proof.
  intros (Hr & Hidx & Hord & Hfresh & Hc).
  assert (Hp : paths (unuse (Path q) (app s)) = remove_path q (paths (app s))).
  { simpl. apply without_remove_path. now apply (Reachable_rids parse). }
  unfold consistent, removeComponent. cbn [app components closures made].
  rewrite Hp. repeat split.
  - now constructor.
  - destruct (String.eqb q "/index") eqn:E.
    + apply String.eqb_eq in E. subst q.
      apply routes_at_remove_same. rewrite Hidx. simpl. lia.
    + apply String.eqb_neq in E. now rewrite routes_at_remove_other.
  - clear -Hord. induction Hord as [|y ys Hy Hys IH]; simpl; [constructor|].
    destruct (String.eqb (path y) q); [assumption|].
    constructor; assumption.
  - exact Hfresh.
  - intros p Hp1 Hp2. specialize (Hc p Hp1 Hp2).
    destruct (decide (q = p)) as [->|Hne].
    + rewrite lookup_delete_eq. apply routes_at_remove_same.
      destruct (components s !! p).
      * destruct Hc as (r & id & route & file & -> & _). simpl. lia.
      * rewrite Hc. simpl. lia.
    + rewrite lookup_delete_ne by exact Hne.
      now rewrite routes_at_remove_other.
Qed.

Lemma insert_last_orders x l :
  order x = route_order parse (path x) ->
  Forall (fun r => order r = route_order parse (path r)) l ->
  Forall (fun r => order r = route_order parse (path r)) (insert_last x l).
Proof.
  intros Hx Hl. apply List.Forall_forall. intros y Hy.
  apply insert_last_In in Hy as [->|Hy]; [exact Hx|].
  rewrite List.Forall_forall in Hl. now apply Hl.
Qed.

Lemma consistent_add_route options s route :
  consistent parse s -> consistent parse (add_route parse options s route).
Proof.
  intros Hs. pose proof Hs as (Hr & Hidx & Hord & Hfresh & Hc).
  unfold add_route.
  destruct (components s !! route_path route) eqn:Hlook; [exact Hs|].
  assert (Hold : forall id c, closures s !! id = Some c -> id <> made s).
  { intros id c Hid ->. rewrite Hfresh in Hid by lia. discriminate. }
  destruct (String.eqb (route_path route) "/index") eqn:Eidx.
  - apply String.eqb_eq in Eidx.
    unfold consistent. cbn [app components closures made].
    rewrite paths_use_path by exact Hr. repeat split.
    + now constructor.
    + rewrite routes_at_insert_last_other by (simpl; discriminate). exact Hidx.
    + now apply insert_last_orders.
    + intros id Hid. rewrite lookup_insert_ne by lia. apply Hfresh. lia.
    + intros p Hp1 Hp2. specialize (Hc p Hp1 Hp2).
      rewrite lookup_insert_ne by congruence.
      rewrite routes_at_insert_last_other by (simpl; congruence).
      destruct (components s !! p); [|exact Hc].
      destruct Hc as (r & id & rt & file & H1 & H2 & H3).
      exists r, id, rt, file. repeat split; auto.
      rewrite lookup_insert_ne; [exact H3|]. intros <-. now apply (Hold _ _ H3).
  - apply String.eqb_neq in Eidx.
    unfold consistent. cbn [app components closures made].
    rewrite paths_use_path by exact Hr. repeat split.
    + now constructor.
    + rewrite routes_at_insert_last_other by (simpl; congruence). exact Hidx.
    + now apply insert_last_orders.
    + intros id Hid. rewrite lookup_insert_ne by lia. apply Hfresh. lia.
    + intros p Hp1 Hp2. specialize (Hc p Hp1 Hp2).
      destruct (decide (route_path route = p)) as [<-|Hne].
      * rewrite (lookup_insert_eq (components s)). rewrite Hlook in Hc.
        eexists _, (made s), route, (filepath options). repeat split.
        -- now apply (routes_at_insert_last_new
                        {| rid := allocated (app s); path := route_path route;
                           order := route_order parse (route_path route);
                           handler := UserFn (made s) 3;
                           regex := parse (route_path route) |}).
        -- reflexivity.
        -- now rewrite (lookup_insert_eq (closures s)).
      * rewrite lookup_insert_ne by exact Hne.
        rewrite routes_at_insert_last_other by (simpl; congruence).
        destruct (components s !! p); [|exact Hc].
        destruct Hc as (r & id & rt & file & H1 & H2 & H3).
        exists r, id, rt, file. repeat split; auto.
        rewrite lookup_insert_ne; [exact H3|]. intros <-. now apply (Hold _ _ H3).
Qed.

Lemma consistent_addComponent options reload s :
  consistent parse s -> consistent parse (addComponent parse options reload s).
Proof.
  intros Hs. unfold addComponent. destruct (routes options) as [rs|]; [|exact Hs].
  assert (Hrem : forall l s0, consistent parse s0 ->
            consistent parse (fold_left (fun s r => removeComponent (route_path r) s) l s0)).
  { induction l as [|r l IH]; simpl; intros s0 H0; [exact H0|].
    apply IH. now apply consistent_remove. }
  assert (Hadd : forall l s0, consistent parse s0 ->
            consistent parse (fold_left (add_route parse options) l s0)).
  { induction l as [|r l IH]; simpl; intros s0 H0; [exact H0|].
    apply IH. now apply consistent_add_route. }
  apply Hadd. destruct reload; [now apply Hrem | exact Hs].
Qed.

Lemma Running_consistent s : Running parse s -> consistent parse s.
Proof.
  induction 1 as [|f s _ IH|options reload s _ IH|route s _ IH].
  - apply consistent_new.
  - destruct IH as (Hr & Hidx & Hord & Hfresh & Hc).
    unfold consistent. cbn [app components closures made].
    assert (Hp : paths (use parse (Func f) f (app s)) = paths (app s)).
    { simpl. now destruct (Nat.eqb (fn_length f) 4). }
    rewrite Hp. repeat split; auto. now constructor.
  - now apply consistent_addComponent.
  - now apply consistent_remove.
Qed.

(** X6: in a server whose routes all come from [addComponent], every path
    under which [components] holds a component, ['/'] and ['/index']
    apart, has exactly one route in the router, and the handler of that
    route is the function made for that component. *)
Theorem component_routes_agree s p c :
  Running parse s ->
  components s !! p = Some c ->
  p <> "/" -> p <> "/index" ->
  exists r route file,
    routes_at p (paths (app s)) = [r]
    /\ closure_of s (handler r) = Some (RouteHandler c route file).
Proof.
  intros Hrun Hlook Hp1 Hp2.
  apply Running_consistent in Hrun as (_ & _ & _ & _ & Hc).
  specialize (Hc p Hp1 Hp2). rewrite Hlook in Hc.
  destruct Hc as (r & id & route & file & H1 & H2 & H3).
  exists r, route, file. split; [exact H1|]. now rewrite H2.
Qed.

Lemma routes_at_findWhere p l : routes_at p l = [] -> findWhere l p = None.
Proof.
  induction l as [|y ys IH]; simpl; [reflexivity|].
  destruct (String.eqb (path y) p); [discriminate | exact IH].
Qed.

(** A route registered under a path that is taken goes behind the route
    that has the path. *)
Lemma findWhere_insert_last_behind x l r :
  StronglySorted desc l ->
  findWhere l (path x) = Some r -> order r = order x ->
  findWhere (insert_last x l) (path x) = Some r.
Proof.
  induction 1 as [|y ys Hs IH Hall]; simpl; intros Hf Ho; [discriminate|].
  destruct (String.eqb (path y) (path x)) eqn:E.
  - injection Hf as <-. rewrite Ho, Z.leb_refl. simpl. now rewrite E.
  - destruct (order x <=? order y) eqn:El; simpl.
    + rewrite E. now apply IH.
    + exfalso. apply Z.leb_gt in El.
      assert (Hin : In r ys).
      { clear -Hf. induction ys as [|z zs IH]; simpl in Hf; [discriminate|].
        destruct (String.eqb (path z) (path x)); [left; congruence | right; auto]. }
      rewrite List.Forall_forall in Hall. specialize (Hall r Hin).
      unfold desc in Hall. lia.
Qed.

(** X7: reloading the component of the index route does not replace its
    handler.  [removeComponent('/index')] finds no route, the route being
    registered as ['/']; the new handler is registered behind the old
    one: [components] holds the new component under ['/index'], and the
    first route for ['/'] still calls the old one. *)
Theorem reload_keeps_first_index_handler s c1 c2 k1 k2 f1 f2 :
  Running parse s ->
  components s !! "/index" = None ->
  findWhere (paths (app s)) "/" = None ->
  exists r,
    findWhere
      (paths (app (addComponent parse
                     (mkOptions (Some [mkRouteSpec "/index" k2]) c2 f2) true
                     (addComponent parse
                        (mkOptions (Some [mkRouteSpec "/index" k1]) c1 f1)
                        false s)))) "/" = Some r
    /\ closure_of
         (addComponent parse
            (mkOptions (Some [mkRouteSpec "/index" k2]) c2 f2) true
            (addComponent parse
               (mkOptions (Some [mkRouteSpec "/index" k1]) c1 f1) false s))
         (handler r) = Some (IndexHandler c1)
    /\ components
         (addComponent parse
            (mkOptions (Some [mkRouteSpec "/index" k2]) c2 f2) true
            (addComponent parse
               (mkOptions (Some [mkRouteSpec "/index" k1]) c1 f1) false s))
       !! "/index" = Some c2.
Proof.
  intros Hrun Hnone Hroot.
  pose proof (Running_consistent s Hrun) as (Hr & Hidx & Hord & Hfresh & _).
  set (r1 := {| rid := allocated (app s); path := "/";
                order := route_order parse "/"; handler := UserFn (made s) 3;
                regex := parse "/" |}).
  set (o1 := mkOptions (Some [mkRouteSpec "/index" k1]) c1 f1).
  set (o2 := mkOptions (Some [mkRouteSpec "/index" k2]) c2 f2).
  assert (E1 : addComponent parse o1 false s
               = {| app := use parse (Path "/") (UserFn (made s) 3) (app s);
                    components := <["/index" := c1]> (components s);
                    closures := <[made s := IndexHandler c1]> (closures s);
                    made := S (made s); constrained := constrained s |}).
  { unfold addComponent, o1. cbn [routes fold_left]. unfold add_route.
    cbn [route_path]. now rewrite Hnone. }
  set (s1 := addComponent parse o1 false s) in *.
  assert (Hrun1 : Running parse s1) by now constructor.
  pose proof (Running_consistent s1 Hrun1) as (Hr1 & Hidx1 & _).
  assert (Hp1 : paths (app s1) = insert_last r1 (paths (app s))).
  { rewrite E1. cbn [app]. now apply paths_use_path. }
  assert (Hf1 : findWhere (paths (app s1)) "/" = Some r1).
  { rewrite Hp1. now apply (findWhere_insert_last (paths (app s)) r1). }
  assert (Hu : paths (unuse (Path "/index") (app s1)) = paths (app s1)).
  { simpl. now rewrite (routes_at_findWhere _ _ Hidx1). }
  assert (Hr1' : Reachable parse (unuse (Path "/index") (app s1)))
    by now constructor.
  set (r2 := {| rid := allocated (unuse (Path "/index") (app s1)); path := "/";
                order := route_order parse "/"; handler := UserFn (made s1) 3;
                regex := parse "/" |}).
  assert (E2 : addComponent parse o2 true s1
               = {| app := use parse (Path "/") (UserFn (made s1) 3)
                             (unuse (Path "/index") (app s1));
                    components := <["/index" := c2]>
                                    (base.delete "/index" (components s1));
                    closures := <[made s1 := IndexHandler c2]> (closures s1);
                    made := S (made s1); constrained := constrained s1 |}).
  { unfold addComponent, o2. cbn [routes fold_left]. unfold add_route.
    cbn [route_path removeComponent components app closures made constrained].
    now rewrite lookup_delete_eq. }
  rewrite E2. cbn [app components closures].
  exists r1. repeat split.
  - rewrite (paths_use_path _ "/" _ Hr1'), Hu. fold r2.
    apply (findWhere_insert_last_behind r2 (paths (app s1)) r1).
    + now apply Reachable_well_formed in Hr1 as (Hs1 & _).
    + exact Hf1.
    + reflexivity.
  - unfold closure_of. cbn [handler r1 closures]. rewrite E1. cbn [made closures].
    rewrite lookup_insert_ne by lia. now rewrite (lookup_insert_eq (closures s)).
  - now rewrite (lookup_insert_eq (base.delete "/index" (components s1))).
Qed.

End WithParser.

(** The witness of X6: a server with the page [cars] on ['/cars']. *)
Lemma component_routes_agree_witness :
  exists r route file,
    routes_at "/cars"
      (paths (app (addComponent parseSimple
                     (mkOptions (Some [mkRouteSpec "/cars" None])
                        (mkComponent 1 "cars") "cars.json")
                     false Server_new))) = [r]
    /\ closure_of
         (addComponent parseSimple
            (mkOptions (Some [mkRouteSpec "/cars" None])
               (mkComponent 1 "cars") "cars.json") false Server_new)
         (handler r)
       = Some (RouteHandler (mkComponent 1 "cars") route file).
Proof.
  apply (component_routes_agree parseSimple
           (addComponent parseSimple
              (mkOptions (Some [mkRouteSpec "/cars" None])
                 (mkComponent 1 "cars") "cars.json") false Server_new)
           "/cars" (mkComponent 1 "cars")).
  - apply Running_add, Running_new.
  - reflexivity.
  - discriminate.
  - discriminate.
Defined.

(** The witness of X7: the index page of a new server, loaded and then
    reloaded. *)
Lemma reload_keeps_first_index_handler_witness :
  exists r,
    findWhere
      (paths (app (addComponent parseSimple
                     (mkOptions (Some [mkRouteSpec "/index" None])
                        (mkComponent 2 "index") "index.json") true
                     (addComponent parseSimple
                        (mkOptions (Some [mkRouteSpec "/index" None])
                           (mkComponent 1 "index") "index.json")
                        false Server_new)))) "/" = Some r
    /\ closure_of
         (addComponent parseSimple
            (mkOptions (Some [mkRouteSpec "/index" None])
               (mkComponent 2 "index") "index.json") true
            (addComponent parseSimple
               (mkOptions (Some [mkRouteSpec "/index" None])
                  (mkComponent 1 "index") "index.json") false Server_new))
         (handler r) = Some (IndexHandler (mkComponent 1 "index"))
    /\ components
         (addComponent parseSimple
            (mkOptions (Some [mkRouteSpec "/index" None])
               (mkComponent 2 "index") "index.json") true
            (addComponent parseSimple
               (mkOptions (Some [mkRouteSpec "/index" None])
                  (mkComponent 1 "index") "index.json") false Server_new))
       !! "/index" = Some (mkComponent 2 "index").
Proof.
  apply (reload_keeps_first_index_handler parseSimple Server_new
           (mkComponent 1 "index") (mkComponent 2 "index") None None
           "index.json" "index.json").
  - apply Running_new.
  - reflexivity.
  - reflexivity.
Defined.

End ServerProps.

Module HelpProps.
Import JsProps Router Help ListenerProps.

Section HtmlEncode.

Variable folds_into_class : N -> bool.

Lemma digits_range d : Forall (fun c => (48 <= c <= 57)%N) (digits d).
Proof. induction d; simpl; constructor; auto; lia. Qed.

Lemma entity_plain c : Forall plain (entity c).
Proof.
  assert (H38 : plain 38%N) by (unfold plain; lia).
  assert (H35 : plain 35%N) by (unfold plain; lia).
  assert (H59 : plain 59%N) by (unfold plain; lia).
  unfold entity. apply Forall_app. split; [|apply Forall_app; split].
  - apply List.Forall_cons; [exact H38|].
    apply List.Forall_cons; [exact H35 | apply List.Forall_nil].
  - eapply List.Forall_impl; [|apply digits_range].
    intros a Ha. cbv beta in Ha. unfold plain. lia.
  - apply List.Forall_cons; [exact H59 | apply List.Forall_nil].
Qed.

Lemma unmatched_plain c : matches folds_into_class c = false -> plain c /\ c <> 38%N.
Proof.
  unfold matches, in_class. intros H.
  apply orb_false_iff in H as [H _].
  repeat (apply orb_false_iff in H as [H ?]).
  apply andb_false_iff in H.
  unfold plain. rewrite !N.eqb_neq in *. repeat split; auto.
  intros [? ?]. destruct H as [H|H]; apply N.leb_gt in H; lia.
Qed.

Lemma ampersands_escaped_entity c rest :
  ampersands_escaped rest = true ->
  ampersands_escaped (entity c ++ rest) = true.
Proof.
  intros Hrest. unfold entity. cbn [app ampersands_escaped]. simpl.
  pose proof (digits_range (N.to_uint c)) as Hd.
  induction Hd as [|d ds Hd _ IH]; simpl.
  - exact Hrest.
  - destruct (d =? 38)%N eqn:E; [apply N.eqb_eq in E; lia|]. exact IH.
Qed.

(** X10: the result of [htmlEncode] holds no [<], no [>] and no code unit
    from U+00A0 to U+9999, and every [&] in it is followed by [#]. *)
Theorem htmlEncode_leaves_no_markup input :
  Forall plain (htmlEncode folds_into_class input)
  /\ ampersands_escaped (htmlEncode folds_into_class input) = true.
Proof.
  induction input as [|c input [IH1 IH2]]; [split; [constructor | reflexivity]|].
  unfold htmlEncode. cbn [flat_map]. fold (htmlEncode folds_into_class input).
  destruct (matches folds_into_class c) eqn:E.
  - split.
    + apply Forall_app. split; [apply entity_plain | exact IH1].
    + now apply ampersands_escaped_entity.
  - apply unmatched_plain in E as [Hp Hamp]. split.
    + now constructor.
    + simpl. apply N.eqb_neq in Hamp. now rewrite Hamp.
Qed.

Lemma htmlEncode_unmatched input :
  Forall (fun c => matches folds_into_class c = false) input ->
  htmlEncode folds_into_class input = input.
Proof.
  induction 1 as [|c l Hc _ IH]; [reflexivity|].
  unfold htmlEncode in *. simpl. now rewrite Hc, IH.
Qed.

Lemma entity_length c : (3 <= length (entity c))%nat.
Proof. unfold entity. rewrite !length_app. simpl. lia. Qed.

Lemma htmlEncode_length input :
  (length input <= length (htmlEncode folds_into_class input))%nat.
Proof.
  induction input as [|c l IH]; [reflexivity|].
  unfold htmlEncode in *. cbn [flat_map]. rewrite length_app.
  pose proof (entity_length c).
  destruct (matches folds_into_class c); simpl; lia.
Qed.

Lemma htmlEncode_longer input :
  Exists (fun c => matches folds_into_class c = true) input ->
  (length input < length (htmlEncode folds_into_class input))%nat.
Proof.
  induction 1 as [c l Hc|c l _ IH].
  - pose proof (htmlEncode_length l) as Hl.
    unfold htmlEncode in *. cbn [flat_map]. rewrite length_app, Hc.
    pose proof (entity_length c). simpl. lia.
  - unfold htmlEncode in *. cbn [flat_map]. rewrite length_app.
    pose proof (entity_length c).
    destruct (matches folds_into_class c); simpl; lia.
Qed.

Lemma htmlEncode_has_ampersand input :
  Exists (fun c => matches folds_into_class c = true) input ->
  Exists (fun c => matches folds_into_class c = true)
    (htmlEncode folds_into_class input).
Proof.
  induction 1 as [c l Hc|c l _ IH].
  - unfold htmlEncode. cbn [flat_map]. rewrite Hc.
    apply List.Exists_cons_hd. reflexivity.
  - unfold htmlEncode in *. cbn [flat_map].
    apply List.Exists_app. now right.
Qed.

Lemma matched_or_not (l : list N) :
  Forall (fun c => matches folds_into_class c = false) l
  \/ Exists (fun c => matches folds_into_class c = true) l.
Proof.
  induction l as [|c l [IH|IH]].
  - left. constructor.
  - destruct (matches folds_into_class c) eqn:E.
    + right. now apply List.Exists_cons_hd.
    + left. now constructor.
  - right. now apply List.Exists_cons_tl.
Qed.

(** X11: encoding the result of [htmlEncode] once more gives the same
    text exactly when the first encoding changed nothing: text that was
    escaped is escaped again, its [&] included. *)
Theorem htmlEncode_twice input :
  htmlEncode folds_into_class (htmlEncode folds_into_class input)
  = htmlEncode folds_into_class input
  <-> htmlEncode folds_into_class input = input.
Proof.
  split; intros H.
  - destruct (matched_or_not input) as [Hno|Hyes].
    + now apply htmlEncode_unmatched.
    + apply htmlEncode_has_ampersand, htmlEncode_longer in Hyes.
      rewrite H in Hyes. lia.
  - now rewrite !H.
Qed.

End HtmlEncode.

(** ** [selectFields] *)

Lemma select_fold_throw item fields e :
  fold_left
    (fun acc arg =>
       let* obj := acc in
       let* v := Controller.prop item arg in
       Ok (set obj arg v)) fields (Throw e) = Throw e.
Proof. induction fields as [|a fs IH]; simpl; auto. Qed.

Lemma select_fold_ok item fields acc r :
  fold_left
    (fun acc arg =>
       let* obj := acc in
       let* v := Controller.prop item arg in
       Ok (set obj arg v)) fields (Ok acc) = Ok r ->
  r = pick item fields acc.
Proof.
  revert acc. induction fields as [|a fs IH]; simpl; intros acc H.
  - congruence.
  - unfold value_at. destruct (Controller.prop item a) as [v|e]; simpl in H.
    + now apply IH.
    + now rewrite select_fold_throw in H.
Qed.

Lemma select_item_object o fields :
  select_item fields (JObj o) = Ok (pick (JObj o) fields []).
Proof.
  unfold select_item, pick. generalize (@nil (string * JValue)) as acc.
  induction fields as [|a fs IH]; simpl; intros acc; [reflexivity|].
  apply IH.
Qed.

Lemma pick_has item fields acc k :
  has (pick item fields acc) k = existsb (String.eqb k) fields || has acc k.
Proof.
  unfold pick. revert acc. induction fields as [|a fs IH]; simpl; intros acc.
  - reflexivity.
  - rewrite IH, has_set, (String.eqb_sym k a).
    destruct (String.eqb a k), (existsb (String.eqb k) fs); reflexivity.
Qed.

Lemma pick_get item fields acc k :
  In k fields \/ get acc k = value_at item k ->
  get (pick item fields acc) k = value_at item k.
Proof.
  unfold pick. revert acc. induction fields as [|a fs IH]; simpl; intros acc H.
  - destruct H as [[]|H]. exact H.
  - apply IH. destruct (String.eqb a k) eqn:E.
    + apply String.eqb_eq in E. subst a. right. apply get_set_same.
    + apply String.eqb_neq in E. destruct H as [[H|H]|H]; [contradiction| now left |].
      right. now rewrite get_set_other.
Qed.

Lemma pick_ext item item' fields acc :
  (forall k, In k fields -> value_at item k = value_at item' k) ->
  pick item fields acc = pick item' fields acc.
Proof.
  unfold pick. revert acc. induction fields as [|a fs IH]; simpl; intros acc H.
  - reflexivity.
  - rewrite (H a) by now left. apply IH. intros; apply H; now right.
Qed.

(** X12: on a list of objects [selectFields] returns one object for each
    item, whose keys are exactly the fields named and whose values are
    the item's. *)
Theorem selectFields_picks items args :
  Forall (fun item => exists o, item = JObj o) items ->
  exists out,
    selectFields items (Some args) = Ok out
    /\ List.Forall2
         (fun item res =>
            exists o r,
              item = JObj o /\ res = JObj r
              /\ (forall k, has r k = true <-> In k (split "," args))
              /\ (forall k, In k (split "," args) -> get r k = get o k))
         items out.
Proof.
  induction 1 as [|item items [o ->] _ (out & Hout & Hall)].
  - exists []. split; [reflexivity | constructor].
  - exists (JObj (pick (JObj o) (split "," args) []) :: out). split.
    + unfold selectFields in *. simpl. rewrite select_item_object. simpl.
      now rewrite Hout.
    + constructor; [|exact Hall].
      exists o, (pick (JObj o) (split "," args) []). repeat split.
      * rewrite pick_has. simpl. rewrite orb_false_r. intros H.
        apply existsb_exists in H as (x & Hx & E).
        apply String.eqb_eq in E. now subst x.
      * intros H. rewrite pick_has. apply orb_true_iff. left.
        apply existsb_exists. exists k. split; [exact H | apply String.eqb_refl].
      * intros k Hk. rewrite pick_get by now left. reflexivity.
Qed.

Lemma select_item_again fields item r :
  select_item fields item = Ok r -> select_item fields (JObj r) = Ok r.
Proof.
  intros H. apply select_fold_ok in H. rewrite select_item_object. f_equal.
  rewrite H at 2. apply pick_ext. intros k Hk.
  unfold value_at at 1. simpl. rewrite H. apply pick_get. now left.
Qed.

(** X13: selecting the same fields from what [selectFields] returned
    gives the same list back. *)
Theorem selectFields_idempotent items args out :
  selectFields items args = Ok out -> selectFields out args = Ok out.
Proof.
  unfold selectFields. revert out.
  induction items as [|item items IH]; simpl; intros out H.
  - injection H as <-. reflexivity.
  - destruct args as [a|]; [|discriminate].
    destruct (select_item (split "," a) item) as [r|e] eqn:Er; [|discriminate].
    simpl in H.
    destruct (Public.map_res _ items) as [rest|e] eqn:Erest; [|discriminate].
    simpl in H. injection H as <-. simpl.
    rewrite (select_item_again _ _ _ Er). simpl.
    now rewrite (IH rest eq_refl).
Qed.

(** ** [clearCache] *)

Lemma overwrite_length {A} (dst src : list A) :
  length (overwrite dst src) = Nat.max (length dst) (length src).
Proof. unfold overwrite. rewrite length_app, length_skipn. lia. Qed.

Section ClearCache.

Variable sha1 : string -> string.

Lemma fold_overwrite_length files dss acc :
  length (fold_left (fun acc ds => overwrite acc (cached_for sha1 files ds)) dss acc)
  = Nat.max (length acc)
      (list_max (map (fun ds => length (cached_for sha1 files ds)) dss)).
Proof.
  revert acc. induction dss as [|d dss IH]; simpl; intros acc; [lia|].
  rewrite IH, overwrite_length. lia.
Qed.

(** X14: the list of cache files [clearCache] flushes for a page is as
    long as the longest list of files of one of its datasources, not as
    their sum, and it starts with the files of the last datasource: the
    files of one datasource take the places of those of the one
    before. *)
Theorem clearCache_flushes_longest_match files dss :
  length (datasourceCachePaths sha1 files dss)
  = list_max (map (fun ds => length (cached_for sha1 files ds)) dss)
  /\ forall pre d,
       dss = pre ++ [d] ->
       exists rest,
         datasourceCachePaths sha1 files dss = cached_for sha1 files d ++ rest.
Proof.
  split.
  - unfold datasourceCachePaths. now rewrite fold_overwrite_length.
  - intros pre d ->. unfold datasourceCachePaths.
    rewrite fold_left_app. simpl. unfold overwrite. eauto.
Qed.

End ClearCache.

(** ** Request validation *)

Section WithStrings.

Variable toLowerCase : string -> string.
Variable JSON_stringify_pretty : JValue -> string.
Variable byteLength : string -> Z.
Variable config : HelpConfig.
Variable clearCache : JValue -> Server.Cleared.

Lemma is_str_eq v s : is_str v s = true <-> v = JStr s.
Proof.
  destruct v; simpl; split; try discriminate.
  - intros H. apply String.eqb_eq in H. now subst.
  - intros [= ->]. apply String.eqb_refl.
Qed.

Lemma credentials_rejected body r r' :
  validateRequestCredentials config body r = Ok (false, r') ->
  r' = end_ None (set_statusCode (JNum 401) r).
Proof.
  unfold validateRequestCredentials.
  destruct (Controller.prop body "clientId") as [cid|e]; simpl; [|discriminate].
  destruct (Controller.prop body "secret") as [sec|e]; simpl; [|discriminate].
  destruct (negb (truthy cid) || negb (truthy sec)); [now intros [= <-]|].
  destruct (negb (is_str cid (auth_clientId config))
            || negb (is_str sec (auth_secret config)));
    [now intros [= <-] | discriminate].
Qed.

(** X8: [validateRequestCredentials] accepts a request exactly when
    [clientId] and [secret] of the body are the configured strings and
    neither is empty, and it leaves the response alone then; whenever it
    rejects, the response is ended with status 401. *)
Theorem credentials_accepted_iff body r :
  (forall r',
     validateRequestCredentials config body r = Ok (true, r')
     <-> r' = r
         /\ Controller.prop body "clientId" = Ok (JStr (auth_clientId config))
         /\ Controller.prop body "secret" = Ok (JStr (auth_secret config))
         /\ auth_clientId config <> "" /\ auth_secret config <> "")
  /\ (forall r',
        validateRequestCredentials config body r = Ok (false, r')
        -> r' = end_ None (set_statusCode (JNum 401) r)).
Proof.
  unfold validateRequestCredentials.
  destruct (Controller.prop body "clientId") as [cid|e]; simpl;
    [|split; [intros r'; split; [discriminate | intros (_ & [=] & _)] | discriminate]].
  destruct (Controller.prop body "secret") as [sec|e]; simpl;
    [|split; [intros r'; split; [discriminate | intros (_ & _ & [=] & _)] | discriminate]].
  destruct (truthy cid) eqn:Tc, (truthy sec) eqn:Ts; simpl.
  2-4: split; [intros r'; split; [discriminate|]| now intros r' [= <-]];
       intros (_ & [= ->] & [= ->] & Hc & Hs); simpl in *;
       try (apply String.eqb_neq in Hc; rewrite Hc in Tc; discriminate);
       try (apply String.eqb_neq in Hs; rewrite Hs in Ts; discriminate).
  destruct (is_str cid (auth_clientId config)) eqn:Ec,
           (is_str sec (auth_secret config)) eqn:Es; simpl.
  - apply is_str_eq in Ec, Es. subst cid sec. simpl in Tc, Ts. split.
    + intros r'. split.
      * intros [= <-]. repeat split; auto.
        -- intros E. rewrite E in Tc. discriminate.
        -- intros E. rewrite E in Ts. discriminate.
      * now intros (-> & _).
    + discriminate.
  - split; [intros r'; split; [discriminate|] | now intros r' [= <-]].
    intros (_ & _ & [= ->] & _). simpl in Es. now rewrite String.eqb_refl in Es.
  - split; [intros r'; split; [discriminate|] | now intros r' [= <-]].
    intros (_ & [= ->] & _). simpl in Ec. now rewrite String.eqb_refl in Ec.
  - split; [intros r'; split; [discriminate|] | now intros r' [= <-]].
    intros (_ & [= ->] & _). simpl in Ec. now rewrite String.eqb_refl in Ec.
Qed.

(** X9: whenever the handler of ['/api/flush'] calls [next], it does so
    without an error and after it has ended the response, with status 405
    or 401 and nothing written to the body. *)
Theorem flush_passes_on_only_after_ending req_method body r r' e :
  Server.flush_handler toLowerCase JSON_stringify_pretty byteLength config
    clearCache
    req_method body r = Ok (r', CallNext e) ->
  e = None
  /\ res_ended r' = true
  /\ (res_statusCode r' = JNum 405 \/ res_statusCode r' = JNum 401)
  /\ res_body r' = res_body r.
Proof.
  unfold Server.flush_handler, validateRequestMethod.
  destruct (negb (str_is _ _)); simpl.
  - intros [= <- <-]. repeat split; auto.
  - destruct (validateRequestCredentials config body r) as [[[] r1]|err] eqn:Ev;
      simpl; try discriminate.
    + destruct (clearCache body); discriminate.
    + intros [= <- <-]. apply credentials_rejected in Ev.
      subst r1. repeat split; auto.
Qed.

End WithStrings.

(** The witness of X9: a [GET] request to the endpoint. *)
Lemma flush_passes_on_only_after_ending_witness :
  (None : option Error) = None
  /\ res_ended (end_ None (set_statusCode (JNum 405)
                             (mkResponse JUndefined [] "" false))) = true
  /\ (res_statusCode (end_ None (set_statusCode (JNum 405)
                                   (mkResponse JUndefined [] "" false)))
      = JNum 405
      \/ res_statusCode (end_ None (set_statusCode (JNum 405)
                                      (mkResponse JUndefined [] "" false)))
         = JNum 401)
  /\ res_body (end_ None (set_statusCode (JNum 405)
                            (mkResponse JUndefined [] "" false)))
     = res_body (mkResponse JUndefined [] "" false).
Proof.
  apply (flush_passes_on_only_after_ending Fixtures.toLowerCase
           (fun _ => "{}") (fun _ => 2) Fixtures.help_config
           (fun _ => Server.ClearCallsBack) (Some "GET") (JObj [])
           (mkResponse JUndefined [] "" false)
           (end_ None (set_statusCode (JNum 405)
                         (mkResponse JUndefined [] "" false))) None).
  reflexivity.
Defined.

(** The witness of X12: one item with two properties, one field. *)
Lemma selectFields_picks_witness :
  exists out,
    selectFields [JObj [("a", JNum 1); ("b", JNum 2)]] (Some "a") = Ok out
    /\ List.Forall2
         (fun item res =>
            exists o r,
              item = JObj o /\ res = JObj r
              /\ (forall k, has r k = true <-> In k (split "," "a"))
              /\ (forall k, In k (split "," "a") -> get r k = get o k))
         [JObj [("a", JNum 1); ("b", JNum 2)]] out.
Proof.
  apply (selectFields_picks [JObj [("a", JNum 1); ("b", JNum 2)]] "a").
  repeat constructor. now eexists.
Defined.

(** The witness of X13: the same item and field. *)
Lemma selectFields_idempotent_witness :
  selectFields [JObj [("a", JNum 1)]] (Some "a") = Ok [JObj [("a", JNum 1)]].
Proof.
  apply (selectFields_idempotent [JObj [("a", JNum 1); ("b", JNum 2)]]
           (Some "a") [JObj [("a", JNum 1)]]).
  reflexivity.
Defined.

End HelpProps.

Module ViewProps.
Import JsProps Router View ControllerProps.

Lemma substring_prefix a b : substring 0 (String.length a) (a +:+ b) = a.
Proof.
  induction a as [|c a IH]; simpl.
  - now destruct b.
  - now rewrite IH.
Qed.

Lemma length_append a b :
  String.length (a +:+ b) = (String.length a + String.length b)%nat.
Proof. induction a as [|c a IH]; simpl; auto. Qed.

(** Where the first dot of a name is, when the text in front of it has
    none. *)
Lemma index_first_dot name rest :
  String.index 0 "." name = None ->
  String.index 0 "." (name +:+ "." +:+ rest) = Some (String.length name).
Proof.
  induction name as [|c name IH]; intros H.
  - change ("" +:+ "." +:+ rest) with (String "." rest). simpl.
    now destruct rest.
  - change ((String c name) +:+ "." +:+ rest)
      with (String c (name +:+ "." +:+ rest)).
    cbn [String.index String.prefix] in *.
    destruct (Ascii.ascii_dec "." c) as [E|E].
    { destruct name; cbn [String.prefix] in H; discriminate. }
    destruct (String.index 0 "." name) eqn:En; [discriminate|].
    now rewrite IH.
Qed.

Lemma indexOf_none s sub : indexOf s sub = -1 -> String.index 0 sub s = None.
Proof. unfold indexOf. destruct (String.index 0 sub s); [lia | reflexivity]. Qed.

Lemma slice_to_prefix a b :
  slice_to (a +:+ b) (Z.of_nat (String.length a)) = a.
Proof.
  unfold slice_to. rewrite length_append.
  destruct (Z.of_nat (String.length a) <? 0) eqn:E; [apply Z.ltb_lt in E; lia|].
  rewrite Z.min_l by lia. rewrite Nat2Z.id. apply substring_prefix.
Qed.

(** X18: the name taken from a file name is what stands in front of the
    first dot, so a template [cars.v2.dust] and a page file
    [cars.v2.json] both read [cars]; from a name without a dot the last
    character is dropped. *)
Theorem name_of_file_stops_at_first_dot hostKey name rest :
  indexOf name "." = -1 ->
  name_of_file (name +:+ "." +:+ rest) = name
  /\ templateName hostKey (name +:+ "." +:+ rest) = hostKey +:+ name
  /\ forall c,
       indexOf (name +:+ String c "") "." = -1 ->
       name_of_file (name +:+ String c "") = name.
Proof.
  intros Hname.
  assert (H1 : name_of_file (name +:+ "." +:+ rest) = name).
  { unfold name_of_file, indexOf.
    rewrite (index_first_dot name rest (indexOf_none _ _ Hname)).
    apply slice_to_prefix. }
  repeat split.
  - exact H1.
  - unfold templateName. now rewrite H1.
  - intros c Hc. unfold name_of_file. rewrite Hc. unfold slice_to.
    rewrite length_append. simpl String.length.
    change (-1 <? 0) with true. cbv iota.
    replace (Z.to_nat (Z.max (Z.of_nat (String.length name + 1) + -1) 0))
      with (String.length name) by lia.
    apply substring_prefix.
Qed.

(** The witness of X18: the template [cars.dust]. *)
Lemma name_of_file_stops_at_first_dot_witness :
  name_of_file ("cars" +:+ "." +:+ "dust") = "cars"
  /\ templateName "" ("cars" +:+ "." +:+ "dust") = "" +:+ "cars"
  /\ forall c,
       indexOf ("cars" +:+ String c "") "." = -1 ->
       name_of_file ("cars" +:+ String c "") = "cars".
Proof.
  apply (name_of_file_stops_at_first_dot "" "cars" "dust"). reflexivity.
Defined.

End ViewProps.

Module PublicProps.
Import JsProps Router Public ControllerProps ViewProps.

Lemma append_nil_r s : s +:+ "" = s.
Proof. induction s as [|c s IH]; [reflexivity|]. change (String c (s +:+ "") = String c s). now rewrite IH. Qed.

(** ** Trailing slashes *)

Lemma strip_slashes_empty s : strip_slashes s = "" <-> all_slashes s = true.
Proof.
  destruct s as [|c s]; [now split|].
  cbn [strip_slashes]. destruct (all_slashes (String c s)); split;
    auto; discriminate.
Qed.

Lemma strip_slashes_split s :
  exists tail, s = strip_slashes s +:+ tail /\ all_slashes tail = true.
Proof.
  induction s as [|c s (tail & Hs & Ht)].
  - now exists "".
  - cbn [strip_slashes]. destruct (all_slashes (String c s)) eqn:E.
    + now exists (String c s).
    + exists tail. split; [|exact Ht].
      change (String c s = String c (strip_slashes s +:+ tail)). now rewrite <- Hs.
Qed.

Lemma all_slashes_snoc q : all_slashes (q +:+ "/") = all_slashes q.
Proof.
  induction q as [|c q IH]; [reflexivity|].
  change (all_slashes (String c (q +:+ "/")) = all_slashes (String c q)).
  simpl. now rewrite IH.
Qed.

Lemma strip_slashes_no_trailing s q : strip_slashes s <> q +:+ "/".
Proof.
  revert q. induction s as [|c s IH]; intros q.
  - destruct q; discriminate.
  - cbn [strip_slashes]. destruct (all_slashes (String c s)) eqn:E.
    + destruct q; discriminate.
    + destruct q as [|d q].
      * change ("" +:+ "/") with "/". intros [= -> Hs].
        simpl in E. apply strip_slashes_empty in Hs. now rewrite Hs in E.
      * change (String d q +:+ "/") with (String d (q +:+ "/")).
        intros [= -> Hs]. now apply (IH q).
Qed.

Section WithUrl.

Variable pathname : string -> option string.
Variable extname : string -> string.

(** X15: [init] strips every trailing slash from the path of the URL;
    for a path of slashes only, the site root among them, it calls
    [next()], and otherwise it starts on the one file. *)
Theorem init_strips_trailing_slashes publicPath u p :
  pathname u = Some p ->
  (exists tail, p = strip_slashes p +:+ tail /\ all_slashes tail = true)
  /\ (forall q, strip_slashes p <> q +:+ "/")
  /\ init pathname extname publicPath [u]
     = if all_slashes p then Ok CallsNext
       else Ok (Process [file_of extname publicPath (strip_slashes p)]).
Proof.
  intros Hp. repeat split.
  - apply strip_slashes_split.
  - apply strip_slashes_no_trailing.
  - unfold init, filteredFiles, stripped. simpl. rewrite Hp. simpl.
    destruct (all_slashes p) eqn:E.
    + apply strip_slashes_empty in E. now rewrite E.
    + destruct (String.eqb (strip_slashes p) "") eqn:E'; [|reflexivity].
      apply String.eqb_eq, strip_slashes_empty in E'. congruence.
Qed.

End WithUrl.

(** The witness of X15: the URL [/css/]. *)
Lemma init_strips_trailing_slashes_witness :
  (exists tail, "/css/" = strip_slashes "/css/" +:+ tail
                /\ all_slashes tail = true)
  /\ (forall q, strip_slashes "/css/" <> q +:+ "/")
  /\ init (fun u => Some u) (fun _ => "") "/srv/public" ["/css/"]
     = if all_slashes "/css/" then Ok CallsNext
       else Ok (Process [file_of (fun _ => "") "/srv/public"
                           (strip_slashes "/css/")]).
Proof.
  apply (init_strips_trailing_slashes (fun u => Some u) (fun _ => "")
           "/srv/public" "/css/" "/css/").
  reflexivity.
Defined.

(** ** Splitting and joining *)

Lemma split_aux_nonempty sep s cur : split_aux sep s cur <> [].
Proof.
  revert cur. induction s as [|c s IH]; simpl; intros cur; [discriminate|].
  destruct (Ascii.eqb c sep); [discriminate | apply IH].
Qed.

Lemma join_cons sep x rest :
  rest <> [] -> join sep (x :: rest) = x +:+ sep +:+ join sep rest.
Proof. destruct rest; [contradiction | reflexivity]. Qed.

Lemma join_split_aux sep s cur :
  join (String sep "") (split_aux sep s cur) = cur +:+ s.
Proof.
  revert cur. induction s as [|c s IH]; intros cur.
  - simpl. now rewrite append_nil_r.
  - cbn [split_aux]. destruct (Ascii.eqb c sep) eqn:E.
    + apply Ascii.eqb_eq in E. subst c.
      rewrite join_cons by apply split_aux_nonempty. now rewrite IH.
    + rewrite IH, append_assoc. reflexivity.
Qed.

Lemma join_app sep a b :
  a <> [] -> b <> [] ->
  join sep (a ++ b) = join sep a +:+ sep +:+ join sep b.
Proof.
  intros Ha Hb. induction a as [|x a IH]; [contradiction|].
  destruct a as [|y a].
  - simpl app. now rewrite join_cons.
  - change ((x :: y :: a) ++ b) with (x :: (y :: a) ++ b).
    rewrite join_cons by discriminate. rewrite IH by discriminate.
    rewrite (join_cons sep x (y :: a)) by discriminate.
    now rewrite !append_assoc.
Qed.

(** ** The set of segments *)

Lemma uniq_from_fresh seen l :
  List.NoDup l -> (forall x, In x l -> ~ In x seen) -> uniq_from seen l = l.
Proof.
  revert seen. induction l as [|x l IH]; intros seen Hnd Hfresh; [reflexivity|].
  apply List.NoDup_cons_iff in Hnd as [Hx Hnd]. simpl.
  destruct (existsb (String.eqb x) seen) eqn:E.
  - apply existsb_exists in E as (y & Hy & Exy). apply String.eqb_eq in Exy.
    subst y. exfalso. apply (Hfresh x); [now left | exact Hy].
  - f_equal. apply IH; [exact Hnd|]. intros y Hy [<-|Hin]; [contradiction|].
    apply (Hfresh y); [now right | exact Hin].
Qed.

Lemma uniq_from_drops seen a x b :
  List.NoDup (a ++ b) ->
  (forall y, In y (a ++ b) -> ~ In y seen) ->
  In x seen \/ In x a ->
  uniq_from seen (a ++ x :: b) = a ++ b.
Proof.
  revert seen. induction a as [|y a IH]; intros seen Hnd Hfresh Hx.
  - simpl in *. destruct Hx as [Hx|[]].
    assert (E : existsb (String.eqb x) seen = true).
    { apply existsb_exists. exists x. split; [exact Hx | apply String.eqb_refl]. }
    rewrite E. now apply uniq_from_fresh.
  - simpl in Hnd. apply List.NoDup_cons_iff in Hnd as [Hy Hnd]. simpl.
    destruct (existsb (String.eqb y) seen) eqn:E.
    + apply existsb_exists in E as (z & Hz & Eyz). apply String.eqb_eq in Eyz.
      subst z. exfalso. apply (Hfresh y); [now left | exact Hz].
    + f_equal. apply IH; [exact Hnd| |].
      * intros z Hz [<-|Hin]; [contradiction|].
        apply (Hfresh z); [now right | exact Hin].
      * destruct Hx as [Hx|[<-|Hx]]; [left; now right | left; now left | now right].
Qed.

Lemma uniq_from_spec seen l :
  List.NoDup (uniq_from seen l)
  /\ (forall x, In x (uniq_from seen l) -> In x l /\ ~ In x seen).
Proof.
  revert seen. induction l as [|x l IH]; intros seen; simpl.
  - split; [constructor | intros x []].
  - destruct (existsb (String.eqb x) seen) eqn:E.
    + destruct (IH seen) as [Hnd Hin]. split; [exact Hnd|].
      intros y Hy. destruct (Hin y Hy). auto.
    + destruct (IH (x :: seen)) as [Hnd Hin]. split.
      * constructor; [|exact Hnd]. intros Hx. destruct (Hin x Hx) as [_ H].
        apply H. now left.
      * intros y [<-|Hy].
        -- split; [now left|]. intros Hs.
           assert (existsb (String.eqb x) seen = true); [|congruence].
           apply existsb_exists. exists x. split; [exact Hs | apply String.eqb_refl].
        -- destruct (Hin y Hy) as [H1 H2]. split; [now right|].
           intros Hs. apply H2. now right.
Qed.

Lemma uniq_nonempty l : l <> [] -> uniq l <> [].
Proof. destruct l; [contradiction | discriminate]. Qed.

Section WithExt.

Variable extname : string -> string.

Lemma uniq_from_tail seen a x b :
  In x seen \/ In x a ->
  List.NoDup b ->
  (forall y, In y b -> ~ In y seen /\ ~ In y a) ->
  uniq_from seen (a ++ x :: b) = uniq_from seen a ++ b.
Proof.
  revert seen. induction a as [|y a IH]; intros seen Hx Hnd Hfresh.
  - simpl. destruct Hx as [Hx|[]].
    assert (E : existsb (String.eqb x) seen = true).
    { apply existsb_exists. exists x. split; [exact Hx | apply String.eqb_refl]. }
    rewrite E. apply uniq_from_fresh; [exact Hnd|].
    intros z Hz. now destruct (Hfresh z Hz).
  - simpl. destruct (existsb (String.eqb y) seen) eqn:E.
    + apply IH; [|exact Hnd|].
      * destruct Hx as [Hx|[<-|Hx]]; auto.
        apply existsb_exists in E as (z & Hz & Ez).
        apply String.eqb_eq in Ez. subst z. now left.
      * intros z Hz. destruct (Hfresh z Hz) as [H1 H2].
        split; [exact H1|]. intros H. apply H2. now right.
    + simpl. f_equal. apply IH; [|exact Hnd|].
      * destruct Hx as [Hx|[<-|Hx]]; auto.
        -- left. now right.
        -- left. now left.
      * intros z Hz. destruct (Hfresh z Hz) as [H1 H2]. split.
        -- intros [<-|H]; [apply H2; now left | contradiction].
        -- intros H. apply H2. now right.
Qed.

(** X16: when the public path has an empty segment, as an absolute path
    has, and the segments of the URL differ from each other and from
    those of the public path, the file served is the public path without
    the segments it repeats, followed by the path of the URL; it is the
    public path itself, followed by the path of the URL, when the public
    path repeats no segment. *)
Theorem file_path_appends_url publicPath u :
  In "" (split "/" publicPath) ->
  List.NoDup (split "/" u) ->
  (forall x, In x (split "/" u) -> ~ In x (split "/" publicPath)) ->
  file_path (file_of extname publicPath ("/" +:+ u))
  = join "/" (uniq (split "/" publicPath)) +:+ "/" +:+ u
  /\ (List.NoDup (split "/" publicPath) ->
      file_path (file_of extname publicPath ("/" +:+ u))
      = publicPath +:+ "/" +:+ u).
Proof.
  intros Habs Hnd Hfresh.
  assert (H : file_path (file_of extname publicPath ("/" +:+ u))
              = join "/" (uniq (split "/" publicPath)) +:+ "/" +:+ u).
  { unfold file_of. cbn [file_path].
    change (split "/" ("/" +:+ u)) with ("" :: split "/" u).
    unfold uniq. rewrite uniq_from_tail; auto.
    rewrite join_app.
    - unfold split at 2. now rewrite join_split_aux.
    - apply (uniq_nonempty (split "/" publicPath)), split_aux_nonempty.
    - apply split_aux_nonempty. }
  split; [exact H|].
  intros Hp. rewrite H. unfold uniq.
  rewrite uniq_from_fresh; [|exact Hp | intros x _ []].
  unfold split. now rewrite join_split_aux.
Qed.

(** ** Splitting what was joined *)

Lemma lacks_snoc sep cur c :
  lacks sep cur = true -> Ascii.eqb c sep = false ->
  lacks sep (cur +:+ String c "") = true.
Proof.
  intros Hcur Hc. induction cur as [|d cur IH].
  - change (lacks sep (String c "") = true). simpl. now rewrite Hc.
  - change (lacks sep (String d (cur +:+ String c "")) = true).
    simpl in *. apply andb_true_iff in Hcur as [Hd Hcur].
    now rewrite Hd, IH.
Qed.

Lemma split_aux_lacks sep s cur :
  lacks sep cur = true -> Forall (fun x => lacks sep x = true) (split_aux sep s cur).
Proof.
  revert cur. induction s as [|c s IH]; intros cur Hcur; simpl.
  - now constructor.
  - destruct (Ascii.eqb c sep) eqn:E.
    + constructor; [exact Hcur | now apply IH].
    + apply IH. now apply lacks_snoc.
Qed.

Lemma split_aux_segment sep x s cur :
  lacks sep x = true ->
  split_aux sep (x +:+ s) cur = split_aux sep s (cur +:+ x).
Proof.
  revert cur. induction x as [|c x IH]; intros cur Hx.
  - now rewrite append_nil_r.
  - change (String c x +:+ s) with (String c (x +:+ s)).
    simpl in Hx. apply andb_true_iff in Hx as [Hc Hx].
    apply negb_true_iff in Hc. cbn [split_aux]. rewrite Hc.
    rewrite IH by exact Hx. now rewrite append_assoc.
Qed.

Lemma split_join sep l :
  l <> [] -> Forall (fun x => lacks sep x = true) l ->
  split sep (join (String sep "") l) = l.
Proof.
  intros Hne Hall. unfold split.
  induction Hall as [|x rest Hx Hrest IH]; [contradiction|].
  destruct rest as [|y rest].
  - cbn [join]. rewrite <- (append_nil_r x) at 1.
    now rewrite split_aux_segment.
  - rewrite join_cons by discriminate.
    rewrite split_aux_segment by exact Hx.
    change (String sep "" +:+ join (String sep "") (y :: rest))
      with (String sep (join (String sep "") (y :: rest))).
    cbn [split_aux]. rewrite Ascii.eqb_refl.
    now rewrite IH by discriminate.
Qed.

Lemma uniq_from_keeps seen l x :
  In x l -> In x (uniq_from seen l) \/ In x seen.
Proof.
  revert seen. induction l as [|y l IH]; intros seen; [intros []|].
  simpl. destruct (existsb (String.eqb y) seen) eqn:E.
  - intros [<-|Hx]; [|now apply IH].
    right. apply existsb_exists in E as (z & Hz & Ez).
    apply String.eqb_eq in Ez. now subst z.
  - intros [<-|Hx]; [left; now left|].
    destruct (IH (y :: seen) Hx) as [H|[<-|H]]; auto.
    + left. now right.
    + left. now left.
Qed.

(** X17: the path of a file never holds the same segment twice: its
    segments are those of the public path and of the URL, each once, so
    a URL that repeats a directory name cannot be served. *)
Theorem file_path_repeats_no_segment publicPath i :
  List.NoDup (split "/" (file_path (file_of extname publicPath i)))
  /\ forall x,
       In x (split "/" (file_path (file_of extname publicPath i)))
       <-> In x (split "/" publicPath) \/ In x (split "/" i).
Proof.
  unfold file_of. cbn [file_path].
  set (l := split "/" publicPath ++ split "/" i).
  assert (Hl : l <> []).
  { unfold l, split. pose proof (split_aux_nonempty "/" publicPath "").
    destruct (split_aux "/" publicPath ""); [contradiction | discriminate]. }
  destruct (uniq_from_spec [] l) as [Hnd Hin]. fold (uniq l) in Hnd, Hin.
  assert (Hlacks : Forall (fun x => lacks "/" x = true) (uniq l)).
  { apply List.Forall_forall. intros x Hx. apply Hin in Hx as [Hx _].
    unfold l in Hx. apply in_app_or in Hx.
    pose proof (split_aux_lacks "/" publicPath "" eq_refl) as H1.
    pose proof (split_aux_lacks "/" i "" eq_refl) as H2.
    rewrite List.Forall_forall in H1, H2. destruct Hx; auto. }
  rewrite (split_join "/" (uniq l) (uniq_nonempty l Hl) Hlacks).
  split; [exact Hnd|]. intros x. rewrite <- in_app_iff. fold l. split.
  - intros Hx. now apply Hin in Hx.
  - intros Hx. destruct (uniq_from_keeps [] l x Hx) as [H|[]]. exact H.
Qed.

End WithExt.

(** The witness of X16: [/css/x.css] under [/srv/srv], and
    [/css/site.css] under [/srv/public]. *)
Lemma file_path_appends_url_witness :
  file_path (file_of (fun _ => ".css") "/srv/srv" ("/" +:+ "css/x.css"))
  = "/srv" +:+ "/" +:+ "css/x.css"
  /\ file_path (file_of (fun _ => ".css") "/srv/public"
                  ("/" +:+ "css/site.css"))
     = "/srv/public" +:+ "/" +:+ "css/site.css".
Proof.
  split.
  - apply (file_path_appends_url (fun _ => ".css") "/srv/srv" "css/x.css").
    + left. reflexivity.
    + vm_compute. repeat (constructor; [simpl; intuition discriminate|]).
      constructor.
    + intros x Hx Hp. cbv in Hx, Hp. intuition congruence.
  - apply (file_path_appends_url (fun _ => ".css") "/srv/public"
             "css/site.css").
    + left. reflexivity.
    + vm_compute. repeat (constructor; [simpl; intuition discriminate|]).
      constructor.
    + intros x Hx Hp. cbv in Hx, Hp. intuition congruence.
    + vm_compute. repeat (constructor; [simpl; intuition discriminate|]).
      constructor.
Defined.

End PublicProps.

Module ViewDataProps.
Import JsProps Router ViewData ListenerProps.

Lemma set_keys o k v :
  map fst (set o k v) = if has o k then map fst o else map fst o ++ [k].
Proof.
  induction o as [|[k0 v0] o IH]; simpl; [reflexivity|].
  destruct (String.eqb k0 k) eqn:E; simpl; [reflexivity|].
  rewrite IH. now destruct (has o k).
Qed.

Lemma has_In o k : has o k = true <-> In k (map fst o).
Proof.
  induction o as [|[k0 v0] o IH]; simpl; [split; [discriminate | intros []]|].
  rewrite orb_true_iff, IH, String.eqb_eq. tauto.
Qed.

Lemma wf_set o k v : wf o -> wf (set o k v).
Proof.
  unfold wf. intros H. rewrite set_keys. destruct (has o k) eqn:E; [exact H|].
  apply List.NoDup_app; [exact H | repeat constructor; intros [] |].
  intros a Ha [<-|[]]. apply has_In in Ha. congruence.
Qed.

Lemma wf_assign (b : Obj) a :
  wf a -> wf (fold_left (fun d kv => set d (fst kv) (snd kv)) b a).
Proof.
  revert a. induction b as [|[k v] b IH]; simpl; intros a Ha; [exact Ha|].
  apply IH. now apply wf_set.
Qed.

Lemma has_assign (b : Obj) a k :
  has (fold_left (fun d kv => set d (fst kv) (snd kv)) b a) k
  = has b k || has a k.
Proof.
  revert a. induction b as [|[k0 v0] b IH]; simpl; intros a; [reflexivity|].
  rewrite IH, has_set.
  destruct (String.eqb k0 k), (has b k); reflexivity.
Qed.

(** [_.extend] gives the destination the value the source has, and keeps
    the destination's where the source has none. *)
Lemma get_assign (b : Obj) a k :
  wf b ->
  get (fold_left (fun d kv => set d (fst kv) (snd kv)) b a) k
  = if has b k then get b k else get a k.
Proof.
  revert a. induction b as [|[k0 v0] b IH]; simpl; intros a Hb; [reflexivity|].
  apply List.NoDup_cons_iff in Hb as [Hk0 Hb]. rewrite IH by exact Hb.
  destruct (String.eqb k0 k) eqn:E; simpl.
  - apply String.eqb_eq in E. subst k0.
    destruct (has b k) eqn:Eh; [apply has_In in Eh; contradiction|].
    apply get_set_same.
  - destruct (has b k); [reflexivity|].
    apply get_set_other. now apply String.eqb_neq.
Qed.

Lemma has_delete_same o k : wf o -> has (delete o k) k = false.
Proof.
  induction o as [|[k0 v0] o IH]; simpl; intros H; [reflexivity|].
  apply List.NoDup_cons_iff in H as [Hk0 H].
  destruct (String.eqb k0 k) eqn:E; simpl.
  - apply String.eqb_eq in E. subst k0.
    destruct (has o k) eqn:Eh; [apply has_In in Eh; contradiction | reflexivity].
  - rewrite E. now apply IH.
Qed.

Lemma get_delete_other o k k' : k <> k' -> get (delete o k) k' = get o k'.
Proof.
  intros Hne. induction o as [|[k0 v0] o IH]; simpl; [reflexivity|].
  destruct (String.eqb k0 k) eqn:E; simpl.
  - apply String.eqb_eq in E. subst k0.
    apply String.eqb_neq in Hne. now rewrite Hne.
  - now rewrite IH.
Qed.

Lemma reads_true_truthy v : reads_true v = true -> truthy v = true.
Proof.
  destruct v as [| | | | |s|l|]; simpl; try discriminate; [|reflexivity].
  intros H. apply String.eqb_eq in H. now subst s.
Qed.

Section WithRequest.

Variable decodeURIComponent : JValue -> Res JValue.
Variable csrfToken : Res JValue.

(** X19: in the initial view data, [params] holds the parameters of the
    route overridden by those of the query string, [json] is in neither
    [params] nor [query], every other entry of the query string is in
    [query] as it was, and [data.json] is the boolean that says the view
    is allowed and asked for. *)
Theorem view_params_merge cfg meta page_name req data :
  wf (url_query req) -> wf (req_params req) ->
  buildInitialViewData decodeURIComponent csrfToken cfg meta page_name req
  = Ok data ->
  exists params query,
    get data "params" = JObj params /\ get data "query" = JObj query
    /\ has params "json" = false /\ has query "json" = false
    /\ (forall k, k <> "json" ->
          get params k = if has (url_query req) k then get (url_query req) k
                         else get (req_params req) k)
    /\ (forall k, k <> "json" -> get query k = get (url_query req) k)
    /\ get data "json"
       = JBool (allowJsonView cfg && reads_true (get (url_query req) "json")).
Proof.
  intros Hq Hp Hdata.
  set (params := fold_left (fun d kv => set d (fst kv) (snd kv)) (url_query req)
                   (fold_left (fun d kv => set d (fst kv) (snd kv))
                      (req_params req) [])).
  assert (Hwf : wf params) by (apply wf_assign, wf_assign; constructor).
  exists (delete params "json"), (delete (url_query req) "json").
  assert (Hjson : truthy (get (url_query req) "json")
                  && reads_true (get (url_query req) "json")
                  = reads_true (get (url_query req) "json")).
  { destruct (reads_true _) eqn:E; [|apply andb_false_r].
    now rewrite (reads_true_truthy _ E). }
  assert (Hrest :
    has (delete params "json") "json" = false
    /\ has (delete (url_query req) "json") "json" = false
    /\ (forall k, k <> "json" ->
          get (delete params "json") k
          = if has (url_query req) k then get (url_query req) k
            else get (req_params req) k)
    /\ (forall k, k <> "json" ->
          get (delete (url_query req) "json") k = get (url_query req) k)).
  { repeat split.
    - now apply has_delete_same.
    - now apply has_delete_same.
    - intros k Hk. rewrite get_delete_other by congruence.
      unfold params. rewrite get_assign by exact Hq.
      destruct (has (url_query req) k); [reflexivity|].
      rewrite get_assign by exact Hp.
      destruct (has (req_params req) k) eqn:E; [reflexivity|].
      simpl. symmetry. now apply has_false_get.
    - intros k Hk. apply get_delete_other. congruence. }
  destruct Hrest as (H1 & H2 & H3 & H4).
  unfold buildInitialViewData in Hdata. fold params in Hdata.
  rewrite <- andb_assoc, Hjson in Hdata.
  destruct (negb (String.eqb (url_pathname req) ""));
  destruct (truthy (req_error req));
  destruct (truthy (get (req_params req) "id"));
  try destruct (decodeURIComponent (get (req_params req) "id"));
  destruct (security_csrf cfg);
  try destruct csrfToken;
  simpl in Hdata; try discriminate;
  injection Hdata as <-; repeat split; auto.
Qed.

End WithRequest.

(** The witness of X19: [page] is in the route and in the query string,
    [json=true] is in the query string. *)
Lemma view_params_merge_witness :
  match buildInitialViewData Ok (Ok JNull) Fixtures.view_config (JObj [])
          "cars" Fixtures.view_request with
  | Ok data =>
      exists params query,
        get data "params" = JObj params /\ get data "query" = JObj query
        /\ has params "json" = false /\ has query "json" = false
        /\ (forall k, k <> "json" ->
              get params k
              = if has (url_query Fixtures.view_request) k
                then get (url_query Fixtures.view_request) k
                else get (req_params Fixtures.view_request) k)
        /\ (forall k, k <> "json" ->
              get query k = get (url_query Fixtures.view_request) k)
        /\ get data "json"
           = JBool (allowJsonView Fixtures.view_config
                    && reads_true (get (url_query Fixtures.view_request) "json"))
  | Throw _ => False
  end.
Proof.
  destruct (buildInitialViewData Ok (Ok JNull) Fixtures.view_config (JObj [])
              "cars" Fixtures.view_request) as [data|e] eqn:E.
  - apply (view_params_merge Ok (Ok JNull) Fixtures.view_config (JObj [])
             "cars" Fixtures.view_request data).
    + vm_compute. repeat (constructor; [simpl; intuition discriminate|]).
      constructor.
    + vm_compute. repeat (constructor; [simpl; intuition discriminate|]).
      constructor.
    + exact E.
  - vm_compute in E. discriminate.
Defined.

End ViewDataProps.

Module LoadProps.
Import JsProps Datasource Controller ControllerProps.

Section WithEnv.

Variable env : Env.
Variable self : Controller.
Variable req : Request.
Variable done : option Error -> JValue -> option JValue -> M unit.

(** X20: when the first preload event calls back with an error,
    [loadData] logs it and calls [done] with it, without data, and no
    datasource is loaded and no later event run; when the handler never
    calls back, [loadData] returns and [done] is never called. *)
Theorem preload_error_aborts_before_loading st ev rest :
  preloadEvents self = ev :: rest ->
  match behaviour env ev
          (set (data st) "checkValue" (JStr (checkValue env (ev_name ev))))
  with
  | (d', Calls (Some e) result None) =>
      loadData env self req done st
      = prefixed [LogError "event" e]
          (done (Some e) JUndefined None
             (with_settled (Some (Some e))
                (with_data d' (with_kept None st))))
  | (d', Silent) =>
      loadData env self req done st
      = ([], Ret tt (with_data d' (with_settled None (with_kept None st))))
  | _ => True
  end.
Proof.
  intros Hpre.
  destruct (behaviour env ev _) as [d' [e| [e|] result [e'|] |]] eqn:H;
    try exact I.
  - unfold loadData. unfold bindM at 1, get_st at 1. rewrite Hpre.
    rewrite (loadEventData_error env ev rest _ st d' e result None H).
    unfold forward, prefixed. simpl.
    now destruct (done (Some e) JUndefined None _).
  - unfold loadData. unfold bindM at 1, get_st at 1. rewrite Hpre.
    now rewrite (loadEventData_silent env ev rest _ st d' H).
Qed.

(** X21: on a page that has datasources, all of them chained, and no
    preload event, [loadData] returns without calling [done]: the queue
    of primary datasources is empty, its [drain] never runs, and nothing
    else starts the chained ones. *)
Theorem chained_only_page_never_completes st :
  preloadEvents self = [] ->
  datasources st <> [] ->
  primary_keys (datasources st) = [] ->
  loadData env self req done st = ([], Ret tt st).
Proof.
  intros Hpre Hne Hprim. unfold loadData. unfold bindM at 1, get_st at 1.
  unfold loadEventData. rewrite Hpre. unfold forward, run_primary.
  rewrite Hprim. destruct (datasources st) as [|kd dss]; [contradiction|].
  reflexivity.
Qed.

Lemma the_datasource_found st k ds :
  find_ds (datasources st) k = Some ds ->
  the_datasource k st = ([], Ret ds st).
Proof.
  intros H. unfold the_datasource, bindM, get_st. now rewrite H.
Qed.

Lemma write_schema_found st k ds d :
  find_ds (datasources st) k = Some ds ->
  write_schema k d st
  = ([], Ret tt {| data := data st;
                   datasources := update_ds (datasources st) k (with_schema d ds);
                   heap := heap st; settled := settled st;
                   kept := kept st |}).
Proof.
  intros H. unfold write_schema, bindM, get_st, set_datasources. now rewrite H.
Qed.

(** X22: when the provider of a primary datasource answers with a
    response object, [loadData] calls [done] with the result and the
    object straight away: the result is not stored in the view data, the
    datasources behind it in the queue are not loaded, and no chained
    datasource nor postload event is run. *)
Theorem response_object_ends_the_queue st k rest drain ds ds' h' dp result resp :
  find_ds (datasources st) k = Some ds ->
  filterEvent ds = None ->
  processRequest env ds (heap st) k req = Ok (ds', h', dp) ->
  load env k = mkLoad None result (Some resp) ->
  primary_queue env req done (k :: rest) drain st
  = prefixed [PrimaryLoad k (load env k)]
      (done None result (Some resp)
         {| data := data st;
            datasources := update_ds (datasources st) k
                             (with_schema (schema ds') ds);
            heap := h'; settled := settled st; kept := kept st |}).
Proof.
  intros Hfind Hev Hreq Hload.
  cbn [primary_queue]. unfold primary_worker.
  rewrite (bindM_run _ _ st [] ds st (the_datasource_found st k ds Hfind)).
  rewrite prefixed_nil, Hev, bindM_ret_l.
  rewrite (bindM_run _ _ st [] ds st (the_datasource_found st k ds Hfind)).
  rewrite prefixed_nil.
  rewrite (bindM_run get_st _ st [] st st eq_refl), prefixed_nil.
  rewrite Hreq. unfold lift. rewrite bindM_ret_l.
  rewrite (bindM_run (set_heap h') _ st [] tt
             {| data := data st; datasources := datasources st;
                heap := h'; settled := settled st; kept := kept st |} eq_refl),
    prefixed_nil.
  erewrite (bindM_run (write_schema k (schema ds')) _ _ [] tt);
    [|apply write_schema_found; exact Hfind].
  rewrite prefixed_nil. cbn [data datasources heap settled].
  erewrite (bindM_run (emit _) _ _ [_] tt); [|reflexivity].
  rewrite Hload. reflexivity.
Qed.

(** X23: taking the parameter of a chained datasource out of the data of
    its parent never throws, whatever the data and the path, a path
    through missing properties included.  [extract_param] throws only
    when the datasource has no [outputParam] or the [outputParam] has no
    [param]. *)
Theorem extract_never_throws (c : Chained) (parentData : JValue) :
  (forall path, exists v, extract path parentData = Ok v)
  /\ (forall e,
        extract_param c parentData = Throw e ->
        outputParam c = None
        \/ exists op, outputParam c = Some op /\ op_param op = None).
Proof.
  assert (Hsteps : forall segments v,
            exists w,
              fold_left
                (fun acc x =>
                   let* o := acc in
                   if truthy o then prop o x else Ok (JStr ""))
                segments (Ok v) = Ok w).
  { induction segments as [|x xs IH]; intros v; simpl; [eauto|].
    destruct (truthy v) eqn:E; [|apply IH].
    destruct v; simpl in *; try discriminate; apply IH. }
  split.
  - intros path. apply Hsteps.
  - intros e. unfold extract_param.
    destruct (outputParam c) as [op|]; [|now left].
    destruct (op_param op) as [path|] eqn:Ep; [|right; eauto].
    destruct (Hsteps (Router.split "." path) parentData) as [w Hw].
    unfold extract. rewrite Hw. discriminate.
Qed.

End WithEnv.

(** The witness of X20: the preload event [denied] reports an error. *)
Lemma preload_error_aborts_before_loading_witness :
  loadData Fixtures.env (Sample.controller [] [mkEvent None "denied"] [])
    (mkRequest "/cars" [] JUndefined) Fixtures.reports (Sample.state [] [])
  = prefixed [LogError "event" Fixtures.failure]
      (Fixtures.reports (Some Fixtures.failure) JUndefined None
         (with_settled (Some (Some Fixtures.failure))
            (with_data
               (set (data (Sample.state [] [])) "checkValue"
                  (JStr (checkValue Fixtures.env "denied")))
               (with_kept None (Sample.state [] []))))).
Proof.
  exact (preload_error_aborts_before_loading Fixtures.env
           (Sample.controller [] [mkEvent None "denied"] [])
           (mkRequest "/cars" [] JUndefined) Fixtures.reports
           (Sample.state [] []) (mkEvent None "denied") [] eq_refl).
Defined.

(** The witness of X21: a page whose one datasource is chained. *)
Lemma chained_only_page_never_completes_witness :
  loadData Fixtures.env (Sample.controller [] [] [])
    (mkRequest "/cars" [] JUndefined) Fixtures.reports
    (Sample.state [("reviews", Sample.chained_at 0 "reviews" "cars")] [])
  = ([], Ret tt
           (Sample.state [("reviews", Sample.chained_at 0 "reviews" "cars")]
              [])).
Proof.
  apply (chained_only_page_never_completes Fixtures.env
           (Sample.controller [] [] []) (mkRequest "/cars" [] JUndefined)
           Fixtures.reports
           (Sample.state [("reviews", Sample.chained_at 0 "reviews" "cars")]
              [])).
  - reflexivity.
  - discriminate.
  - reflexivity.
Defined.

(** The witness of X22: the provider of [jobs] answers with a response
    object, and [makes] is behind it in the queue. *)
Lemma response_object_ends_the_queue_witness :
  exists ds' h' dp,
    processRequest Fixtures.env (Sample.datasource_at 0 "jobs" [])
      Sample.heap0 "jobs" (mkRequest "/cars" [] JUndefined)
    = Ok (ds', h', dp)
    /\ primary_queue Fixtures.env (mkRequest "/cars" [] JUndefined)
         Fixtures.reports ["jobs"; "makes"] (ret tt)
         (Sample.state [("jobs", Sample.datasource_at 0 "jobs" []);
                        ("makes", Sample.datasource_at 2 "makes" [])] [])
       = prefixed [PrimaryLoad "jobs" (load Fixtures.env "jobs")]
           (Fixtures.reports None (JObj [("queued", JBool true)])
              (Some (JObj [("statusCode", JNum 202)]))
              {| data := Sample.view_data [];
                 datasources :=
                   update_ds
                     [("jobs", Sample.datasource_at 0 "jobs" []);
                      ("makes", Sample.datasource_at 2 "makes" [])]
                     "jobs"
                     (with_schema (schema ds')
                        (Sample.datasource_at 0 "jobs" []));
                 heap := h'; settled := None; kept := None |}).
Proof.
  destruct (processRequest Fixtures.env (Sample.datasource_at 0 "jobs" [])
              Sample.heap0 "jobs" (mkRequest "/cars" [] JUndefined))
    as [[[ds' h'] dp]|e] eqn:E.
  - exists ds', h', dp. split; [reflexivity|].
    apply (response_object_ends_the_queue Fixtures.env
             (mkRequest "/cars" [] JUndefined) Fixtures.reports
             (Sample.state [("jobs", Sample.datasource_at 0 "jobs" []);
                            ("makes", Sample.datasource_at 2 "makes" [])] [])
             "jobs" ["makes"] (ret tt) (Sample.datasource_at 0 "jobs" [])
             ds' h' dp (JObj [("queued", JBool true)])
             (JObj [("statusCode", JNum 202)]));
      [reflexivity | reflexivity | exact E | reflexivity].
  - vm_compute in E. discriminate.
Defined.

End LoadProps.

Module RequestProps.
Import JsProps Datasource DatasourceProps.

Lemma merge_query_keeps env this req query dp h r :
  merge_query env this req query dp h = Ok r ->
  cache (fst r) = cache dp
  /\ source_endpoint (fst r) = source_endpoint dp
  /\ key (fst r) = key dp.
Proof.
  unfold merge_query.
  destruct (has _ "filter").
  - destruct (JSON_parse env _); simpl; [|discriminate].
    intros [= <-]. simpl. now destruct (truthy (paginate dp)).
  - intros [= <-]. simpl. now destruct (truthy (paginate dp)).
Qed.

Lemma resolve_filter_keeps env this req dp h this' h' dp' :
  resolve_filter env this req dp h = Ok (this', h', dp') ->
  cache dp' = cache dp
  /\ source_endpoint dp' = source_endpoint dp
  /\ key dp' = key dp
  /\ schema this'
     = set_modifiedEndpoint (source_modifiedEndpoint dp')
         (set_requestParams (map default_target (requestParams (schema this)))
            (schema this))
  /\ name this' = name this
  /\ originalFilter this' = originalFilter this
  /\ requestHeaders this' = requestHeaders this.
Proof.
  unfold resolve_filter.
  destruct (resolve_placeholders env _ _) as [resolved|]; simpl; [|discriminate].
  unfold alloc.
  match goal with
  | |- context [fold_left ?f ?rps ?acc] =>
      destruct (fold_left f rps acc) as [h1 endpoint]
  end.
  intros [= <- <- <-]. simpl. repeat split.
Qed.

(** X24: in the parameters [processRequest] returns, [cache] is [false]
    when the query string has [cache=false] and undefined otherwise,
    whatever the schema of the datasource says, and the endpoint is the
    schema's; of the schema of the datasource only the modified endpoint
    and the default targets of the request parameters are written, and
    [originalFilter] names the same object as before. *)
Theorem processRequest_cache_flag_from_query env this h datasource req
    this' h' dp :
  processRequest env this h datasource req = Ok (this', h', dp) ->
  cache dp = (if is_str (get (url_query env (url req)) "cache") "false"
              then JBool false else JUndefined)
  /\ source_endpoint dp = source_endpoint (schema this)
  /\ schema this'
     = set_modifiedEndpoint (source_modifiedEndpoint dp)
         (set_requestParams (map default_target (requestParams (schema this)))
            (schema this))
  /\ originalFilter this' = originalFilter this.
Proof.
  unfold processRequest.
  set (query := url_query env (url req)).
  set (this0 := if passHeaders (ds_page this) then _ else this).
  assert (Hschema : schema this0 = schema this)
    by (unfold this0; now destruct (passHeaders (ds_page this))).
  assert (Horig : originalFilter this0 = originalFilter this)
    by (unfold this0; now destruct (passHeaders (ds_page this))).
  assert (Hclone :
    cache (clone_params this query)
    = (if is_str (get query "cache") "false" then JBool false else JUndefined)
    /\ source_endpoint (clone_params this query) = source_endpoint (schema this)).
  { unfold clone_params.
    destruct (get query "cache") as [| |b|n| |s|l|o]; simpl; auto.
    - now destruct b.
    - now destruct (negb (n =? 0)).
    - destruct (String.eqb s "false") eqn:E.
      + apply String.eqb_eq in E. subst s. simpl. auto.
      + rewrite andb_false_r. simpl. auto. }
  destruct Hclone as [Hc He].
  destruct (if page_gate this0 datasource
            then merge_query env this0 req query (clone_params this query) h
            else Ok (clone_params this query, h)) as [[dp1 h1]|e] eqn:Em;
    simpl; [|discriminate].
  assert (Hdp1 : cache dp1 = cache (clone_params this query)
                 /\ source_endpoint dp1 = source_endpoint (clone_params this query)).
  { destruct (page_gate this0 datasource).
    - apply merge_query_keeps in Em as (H1 & H2 & _). auto.
    - injection Em as <- <-. auto. }
  destruct Hdp1 as [Hc1 He1].
  intros Hr. apply resolve_filter_keeps in Hr as (H1 & H2 & _ & H4 & _ & H6 & _).
  rewrite H1, Hc1, Hc, H2, He1, He, H4, Hschema, H6, Horig. repeat split.
Qed.

(** The witness of X24: a request with [cache=false]. *)
Lemma processRequest_cache_flag_from_query_witness :
  exists this' h' dp,
    processRequest Sample.env (Sample.datasource_at 0 "cars" []) Sample.heap0
      "cars" (mkRequest "/cars?cache=false" [] JUndefined)
    = Ok (this', h', dp)
    /\ cache dp = JBool false
    /\ source_endpoint dp = "/1.0/cars/cars"
    /\ schema this'
       = set_modifiedEndpoint (source_modifiedEndpoint dp)
           (set_requestParams []
              (schema (Sample.datasource_at 0 "cars" [])))
    /\ originalFilter this' = 1%nat.
Proof.
  destruct (processRequest Sample.env (Sample.datasource_at 0 "cars" [])
              Sample.heap0 "cars"
              (mkRequest "/cars?cache=false" [] JUndefined))
    as [[[this' h'] dp]|e] eqn:E.
  - exists this', h', dp. split; [reflexivity|].
    exact (processRequest_cache_flag_from_query Sample.env
             (Sample.datasource_at 0 "cars" []) Sample.heap0 "cars"
             (mkRequest "/cars?cache=false" [] JUndefined) this' h' dp E).
  - vm_compute in E. discriminate.
Defined.

End RequestProps.

